(** * filesizelib: the exact-precision value engine of [filesizelib/core.py]

    A shallow embedding of [StorageValue], [ConversionEngine],
    [StringParser], [ArithmeticEngine] and [PerformanceManager], together
    with the part of Python's [decimal] module these classes run on, under
    the context the module installs at import time
    ([getcontext().prec = 50], every other field at its default:
    ROUND_HALF_EVEN, Emax = 999999, Emin = -999999, clamp = 0 and the traps
    InvalidOperation, DivisionByZero and Overflow).

    Conventions.
    - A Python [str] is a [string]; its characters are the code points
      below 256.
    - A Python [int] is a [Z].
    - A Python exception is a value of [exn]; a computation that may raise
      returns a [result].
    - A [ValueError] carries the site that raised it instead of its
      message text. *)

From Stdlib Require Import ZArith NArith Lia Bool List Ascii String.
From Stdlib Require Import Floats.SpecFloat QArith Qpower Lqa.
From stdpp Require Import base option list gmap strings.

Local Open Scope Z_scope.

(** ** Exceptions *)

(** The decimal signals that the default context traps. *)
Inductive signal : Type :=
| InvalidOperation
| DivisionByZero
| Overflow.

(** The [raise ValueError(...)] sites of [core.py]. *)
Inductive value_error : Type :=
| NegativeValue        (* "Storage value cannot be negative: ..." *)
| NonFiniteValue       (* "Storage value must be finite, got: ..." *)
| InvalidNumeric       (* "Invalid numeric value: '...'" *)
| EmptyInput           (* "Input string cannot be empty" *)
| InvalidFormat        (* "Invalid format: '...'. Expected format: ..." *)
| NegativeDifference   (* "Storage subtraction result cannot be negative" *)
| NegativeMultiplier   (* "Cannot multiply storage by negative factor" *)
| DivisorNotPositive   (* "Divisor must be positive" *)
| ZeroStorageDivisor.  (* "Cannot divide by zero storage value" *)

Inductive exn : Type :=
| TypeError
| ValueError (e : value_error)
| DecimalException (s : signal)
| StopIteration.

Inductive result (A : Type) : Type :=
| Ok (a : A)
| Raise (e : exn).

Arguments Ok {A} a.
Arguments Raise {A} e.

Definition bind {A B : Type} (r : result A) (k : A -> result B) : result B :=
  match r with
  | Ok a => k a
  | Raise e => Raise e
  end.

Notation "x <-- r ;; k" := (bind r (fun x => k))
  (at level 100, r at next level, right associativity).

Definition is_ok {A : Type} (r : result A) : bool :=
  match r with Ok _ => true | Raise _ => false end.

(** The error kinds of the specification, as sets of exceptions. *)
Definition InvalidValue (e : exn) : Prop :=
  e = ValueError NegativeValue \/ e = ValueError NonFiniteValue \/
  e = ValueError InvalidNumeric.

Definition FormatError (e : exn) : Prop :=
  e = ValueError EmptyInput \/ e = ValueError InvalidFormat.

Definition NegativeResult : exn := ValueError NegativeDifference.
Definition NegativeFactor : exn := ValueError NegativeMultiplier.
Definition NonPositiveDivisor : exn := ValueError DivisorNotPositive.

(** ** Python's [Decimal] *)

(** A finite decimal is [(-1)^sign * coeff * 10^exp]; the sign and the
    payload of a NaN are not kept. *)
Inductive Decimal : Type :=
| DFin (sign : bool) (coeff : N) (exp : Z)
| DInf (sign : bool)
| DNaN (signaling : bool).

Module Context.
Definition prec : Z := 50.
Definition Emax : Z := 999999.
Definition Emin : Z := -999999.
Definition Etiny : Z := Emin - prec + 1.
Definition Etop : Z := Emax - prec + 1.
End Context.

Definition pow10 (k : Z) : N := (10 ^ Z.to_N k)%N.

Fixpoint ndigits_aux (fuel : nat) (c : N) : Z :=
  match fuel with
  | O => 1
  | S fuel' => if (c <? 10)%N then 1 else 1 + ndigits_aux fuel' (c / 10)%N
  end.

(** [len(self._int)]: the number of decimal digits of the coefficient;
    the coefficient 0 is the one digit ['0']. *)
Definition ndigits (c : N) : Z := ndigits_aux (N.size_nat c) c.

(** [Decimal.adjusted]. *)
Definition adjusted (c : N) (e : Z) : Z := e + ndigits c - 1.

(** [c // 10^k], rounded half-even on the [k] digits dropped. *)
Definition round_half_even (c : N) (k : Z) : N :=
  let p := pow10 k in
  let q := (c / p)%N in
  let r := (c mod p)%N in
  if (2 * r <? p)%N then q
  else if (p <? 2 * r)%N then (q + 1)%N
  else if N.even q then q else (q + 1)%N.

(** [Decimal._fix]: round a finite result to the context. *)
Definition fix_ (s : bool) (c : N) (e : Z) : result Decimal :=
  if (c =? 0)%N then
    Ok (DFin s 0 (Z.min (Z.max e Context.Etiny) Context.Emax))
  else
    let exp_min := ndigits c + e - Context.prec in
    if Context.Etop <? exp_min then Raise (DecimalException Overflow)
    else
      let exp_min := Z.max exp_min Context.Etiny in
      if e <? exp_min then
        let coeff := round_half_even c (exp_min - e) in
        let '(coeff, exp_min) :=
          if Context.prec <? ndigits coeff
          then ((coeff / 10)%N, exp_min + 1)
          else (coeff, exp_min) in
        if Context.Etop <? exp_min then Raise (DecimalException Overflow)
        else Ok (DFin s coeff exp_min)
      else Ok (DFin s c e).

(** [Decimal(n)] for an [int]. *)
Definition Decimal_of_int (z : Z) : Decimal := DFin (z <? 0) (Z.abs_N z) 0.

(** [Decimal._check_nans]: a signaling NaN raises, a quiet one is the
    result. *)
Definition check_nans (a b : Decimal) : option (result Decimal) :=
  match a, b with
  | DNaN true, _ => Some (Raise (DecimalException InvalidOperation))
  | _, DNaN true => Some (Raise (DecimalException InvalidOperation))
  | DNaN false, _ => Some (Ok (DNaN false))
  | _, DNaN false => Some (Ok (DNaN false))
  | _, _ => None
  end.

Definition is_zero (d : Decimal) : bool :=
  match d with
  | DFin _ c _ => (c =? 0)%N
  | _ => false
  end.

Definition copy_negate (d : Decimal) : Decimal :=
  match d with
  | DFin s c e => DFin (negb s) c e
  | DInf s => DInf (negb s)
  | DNaN g => DNaN g
  end.

(** [Decimal.__add__]. *)
Definition Decimal_add (a b : Decimal) : result Decimal :=
  match check_nans a b with
  | Some r => r
  | None =>
    match a, b with
    | DInf sa, DInf sb =>
        if eqb sa sb then Ok (DInf sa)
        else Raise (DecimalException InvalidOperation)
    | DInf sa, _ => Ok (DInf sa)
    | _, DInf sb => Ok (DInf sb)
    | DFin sa ca ea, DFin sb cb eb =>
        let e := Z.min ea eb in
        if (ca =? 0)%N && (cb =? 0)%N then fix_ (sa && sb) 0 e
        else
          let xa := (ca * pow10 (ea - e))%N in
          let xb := (cb * pow10 (eb - e))%N in
          if eqb sa sb then fix_ sa (xa + xb) e
          else if (xa =? xb)%N then fix_ false 0 e
          else if (xa <? xb)%N then fix_ sb (xb - xa) e
          else fix_ sa (xa - xb) e
    | _, _ => Raise (DecimalException InvalidOperation)
    end
  end.

(** [Decimal.__sub__]. *)
Definition Decimal_sub (a b : Decimal) : result Decimal :=
  match check_nans a b with
  | Some r => r
  | None => Decimal_add a (copy_negate b)
  end.

(** [Decimal.__mul__]. *)
Definition Decimal_mul (a b : Decimal) : result Decimal :=
  match check_nans a b with
  | Some r => r
  | None =>
    match a, b with
    | DInf sa, DInf sb => Ok (DInf (xorb sa sb))
    | DInf sa, DFin sb cb _ =>
        if (cb =? 0)%N then Raise (DecimalException InvalidOperation)
        else Ok (DInf (xorb sa sb))
    | DFin sa ca _, DInf sb =>
        if (ca =? 0)%N then Raise (DecimalException InvalidOperation)
        else Ok (DInf (xorb sa sb))
    | DFin sa ca ea, DFin sb cb eb => fix_ (xorb sa sb) (ca * cb) (ea + eb)
    | _, _ => Raise (DecimalException InvalidOperation)
    end
  end.

(** The loop of [__truediv__] that brings an exact quotient as close to the
    ideal exponent as its trailing zeros allow. *)
Fixpoint to_ideal_exp (fuel : nat) (coeff : N) (e ideal : Z) : N * Z :=
  match fuel with
  | O => (coeff, e)
  | S fuel' =>
      if (e <? ideal) && (coeff mod 10 =? 0)%N
      then to_ideal_exp fuel' (coeff / 10)%N (e + 1) ideal
      else (coeff, e)
  end.

(** [Decimal.__truediv__]. *)
Definition Decimal_truediv (a b : Decimal) : result Decimal :=
  match check_nans a b with
  | Some r => r
  | None =>
    match a, b with
    | DInf _, DInf _ => Raise (DecimalException InvalidOperation)
    | DInf sa, DFin sb _ _ => Ok (DInf (xorb sa sb))
    | DFin sa _ _, DInf sb => Ok (DFin (xorb sa sb) 0 Context.Etiny)
    | DFin sa ca ea, DFin sb cb eb =>
        let sign := xorb sa sb in
        if (cb =? 0)%N then
          if (ca =? 0)%N then Raise (DecimalException InvalidOperation)
          else Raise (DecimalException DivisionByZero)
        else if (ca =? 0)%N then fix_ sign 0 (ea - eb)
        else
          let shift := ndigits cb - ndigits ca + Context.prec + 1 in
          let e := ea - eb - shift in
          let '(coeff, remainder) :=
            if 0 <=? shift
            then N.div_eucl (ca * pow10 shift) cb
            else N.div_eucl ca (cb * pow10 (- shift)) in
          if (remainder =? 0)%N then
            let '(coeff, e) :=
              to_ideal_exp (N.size_nat coeff) coeff e (ea - eb) in
            fix_ sign coeff e
          else
            let coeff :=
              if (coeff mod 5 =? 0)%N then (coeff + 1)%N else coeff in
            fix_ sign coeff e
    | _, _ => Raise (DecimalException InvalidOperation)
    end
  end.

(** [Decimal._divide]: the integer quotient and the remainder of two
    finite decimals, the divisor not zero. *)
Definition divide_ (sa : bool) (ca : N) (ea : Z) (sb : bool) (cb : N) (eb : Z)
  : result (Decimal * Decimal) :=
  let sign := xorb sa sb in
  let ideal_exp := Z.min ea eb in
  let expdiff := adjusted ca ea - adjusted cb eb in
  if (ca =? 0)%N || (expdiff <=? -2) then
    Ok (DFin sign 0 0, DFin sa (ca * pow10 (ea - ideal_exp)) ideal_exp)
  else if expdiff <=? Context.prec then
    let xa := (ca * pow10 (ea - eb))%N in
    let xb := (cb * pow10 (eb - ea))%N in
    let '(q, r) := N.div_eucl xa xb in
    if (q <? pow10 Context.prec)%N
    then Ok (DFin sign q 0, DFin sa r ideal_exp)
    else Raise (DecimalException InvalidOperation)
  else Raise (DecimalException InvalidOperation).

(** [Decimal.__floordiv__]. *)
Definition Decimal_floordiv (a b : Decimal) : result Decimal :=
  match check_nans a b with
  | Some r => r
  | None =>
    match a, b with
    | DInf _, DInf _ => Raise (DecimalException InvalidOperation)
    | DInf sa, DFin sb _ _ => Ok (DInf (xorb sa sb))
    | DFin sa ca ea, DInf sb => Ok (DFin (xorb sa sb) 0 0)
    | DFin sa ca ea, DFin sb cb eb =>
        if (cb =? 0)%N then
          if (ca =? 0)%N then Raise (DecimalException InvalidOperation)
          else Raise (DecimalException DivisionByZero)
        else
          qr <-- divide_ sa ca ea sb cb eb ;; Ok (fst qr)
    | _, _ => Raise (DecimalException InvalidOperation)
    end
  end.

(** [Decimal.__mod__]. *)
Definition Decimal_mod (a b : Decimal) : result Decimal :=
  match check_nans a b with
  | Some r => r
  | None =>
    match a, b with
    | DInf _, _ => Raise (DecimalException InvalidOperation)
    | DFin sa ca ea, DInf _ => fix_ sa ca ea
    | DFin sa ca ea, DFin sb cb eb =>
        if (cb =? 0)%N then Raise (DecimalException InvalidOperation)
        else
          qr <-- divide_ sa ca ea sb cb eb ;;
          match snd qr with
          | DFin s c e => fix_ s c e
          | d => Ok d
          end
    | _, _ => Raise (DecimalException InvalidOperation)
    end
  end.

(** [Decimal._cmp] on two operands that are not NaN. *)
Definition signed (s : bool) (c : comparison) : comparison :=
  if s then CompOpp c else c.

Definition Decimal_cmp (a b : Decimal) : comparison :=
  match a, b with
  | DFin sa ca ea, DFin sb cb eb =>
      if (ca =? 0)%N then
        if (cb =? 0)%N then Eq else CompOpp (signed sb Gt)
      else if (cb =? 0)%N then signed sa Gt
      else if negb sb && sa then Lt
      else if negb sa && sb then Gt
      else
        match adjusted ca ea ?= adjusted cb eb with
        | Eq => signed sa (ca * pow10 (ea - eb) ?= cb * pow10 (eb - ea))%N
        | Gt => signed sa Gt
        | Lt => CompOpp (signed sa Gt)
        end
  | _, _ =>
      let inf (d : Decimal) : Z :=
        match d with DInf false => 1 | DInf true => -1 | _ => 0 end in
      inf a ?= inf b
  end.

Definition is_nan (d : Decimal) : bool :=
  match d with DNaN _ => true | _ => false end.

(** [a < b] and [a <= b] on decimals: an ordering comparison with a NaN
    signals InvalidOperation, which is trapped. *)
Definition Decimal_lt (a b : Decimal) : result bool :=
  if is_nan a || is_nan b then Raise (DecimalException InvalidOperation)
  else Ok (match Decimal_cmp a b with Lt => true | _ => false end).

Definition Decimal_le (a b : Decimal) : result bool :=
  if is_nan a || is_nan b then Raise (DecimalException InvalidOperation)
  else Ok (match Decimal_cmp a b with Gt => false | _ => true end).

(** ** Python's [str] *)

Local Open Scope string_scope.

Definition code (c : ascii) : N := N_of_ascii c.

(** [c.isspace()]; also the class [\s] of [re] on a [str] pattern. *)
Definition is_space (c : ascii) : bool :=
  let n := code c in
  ((9 <=? n) && (n <=? 13) || (28 <=? n) && (n <=? 32) ||
   (n =? 133) || (n =? 160))%N.

(** The class [[0-9]]. *)
Definition is_digit (c : ascii) : bool :=
  let n := code c in ((48 <=? n) && (n <=? 57))%N.

(** The class [[a-z]] under [re.IGNORECASE]. *)
Definition is_letter (c : ascii) : bool :=
  let n := code c in
  ((97 <=? n) && (n <=? 122) || (65 <=? n) && (n <=? 90))%N.

(** [c.lower()]. *)
Definition lower_char (c : ascii) : ascii :=
  let n := code c in
  if ((65 <=? n) && (n <=? 90) ||
      (192 <=? n) && (n <=? 222) && negb (n =? 215))%N
  then ascii_of_N (n + 32) else c.

Fixpoint lower (s : string) : string :=
  match s with
  | "" => ""
  | String c r => String (lower_char c) (lower r)
  end.

(** [s.replace(a, b)] for one-character [a] and [b]. *)
Fixpoint replace (a b : ascii) (s : string) : string :=
  match s with
  | "" => ""
  | String c r => String (if Ascii.eqb c a then b else c) (replace a b r)
  end.

(** [s.replace(a, "")] for a one-character [a]. *)
Fixpoint remove (a : ascii) (s : string) : string :=
  match s with
  | "" => ""
  | String c r => if Ascii.eqb c a then remove a r else String c (remove a r)
  end.

Fixpoint forallb_str (p : ascii -> bool) (s : string) : bool :=
  match s with
  | "" => true
  | String c r => p c && forallb_str p r
  end.

Fixpoint lstrip (s : string) : string :=
  match s with
  | "" => ""
  | String c r => if is_space c then lstrip r else s
  end.

Fixpoint rstrip (s : string) : string :=
  match s with
  | "" => ""
  | String c r =>
      if is_space c && forallb_str is_space r then "" else String c (rstrip r)
  end.

(** [s.strip()]. *)
Definition strip (s : string) : string := rstrip (lstrip s).

(** The longest prefix of [s] in the class [p], and the rest: how a greedy
    [[...]*] consumes. *)
Fixpoint span (p : ascii -> bool) (s : string) : string * string :=
  match s with
  | "" => ("", "")
  | String c r =>
      if p c then let '(a, b) := span p r in (String c a, b) else ("", s)
  end.

Definition is_empty (s : string) : bool :=
  match s with "" => true | _ => false end.

Definition digit_value (c : ascii) : N := (code c - 48)%N.

(** [int(s)] for a string of digits (0 for the empty string). *)
Fixpoint N_of_digits_acc (acc : N) (s : string) : N :=
  match s with
  | "" => acc
  | String c r => N_of_digits_acc (10 * acc + digit_value c) r
  end.

Definition N_of_digits (s : string) : N := N_of_digits_acc 0 s.

Definition len (s : string) : Z := Z.of_nat (String.length s).

(** The exponent part [(E[-+]?\d+)?\Z] of a numeric string. *)
Definition parse_exponent (s : string) : option Z :=
  match s with
  | "" => Some 0
  | String c r =>
      if Ascii.eqb (lower_char c) "e" then
        let '(neg, ds) :=
          match r with
          | String "-" r' => (true, r')
          | String "+" r' => (false, r')
          | _ => (false, r)
          end in
        if negb (is_empty ds) && forallb_str is_digit ds
        then Some (if neg then - Z.of_N (N_of_digits ds)
                   else Z.of_N (N_of_digits ds))
        else None
      else None
  end.

(** The number alternative of the module's [_parser]:
    [(?=\d|\.\d)(\d* )(\.(\d* ))?(E([-+]?\d+))?\Z], giving the integer part,
    the fractional part and the exponent. *)
Definition parse_number (s : string) : option (string * string * Z) :=
  let '(ip, r1) := span is_digit s in
  let '(fp, r2) :=
    match r1 with
    | String "." r => span is_digit r
    | _ => ("", r1)
    end in
  if is_empty ip && is_empty fp then None
  else
    match parse_exponent r2 with
    | Some e => Some (ip, fp, e)
    | None => None
    end.

(** The special values of [_parser]: [Inf(inity)?] and [s?NaN\d*]. *)
Definition parse_special (sign : bool) (s : string) : option Decimal :=
  let l := lower s in
  if String.eqb l "inf" || String.eqb l "infinity" then Some (DInf sign)
  else
    match l with
    | String "n" (String "a" (String "n" ds)) =>
        if forallb_str is_digit ds then Some (DNaN false) else None
    | String "s" (String "n" (String "a" (String "n" ds))) =>
        if forallb_str is_digit ds then Some (DNaN true) else None
    | _ => None
    end.

(** The optional sign [[-+]?] of [_parser]. *)
Definition split_sign (s : string) : bool * string :=
  match s with
  | String "-" r => (true, r)
  | String "+" r => (false, r)
  | _ => (false, s)
  end.

(** [Decimal(s)] for a [str]: exact, whatever the context; a string that
    is no numeric string signals ConversionSyntax, an InvalidOperation. *)
Definition Decimal_of_str (s : string) : result Decimal :=
  let s := remove "_" (strip s) in
  let '(sign, body) := split_sign s in
  match parse_number body with
  | Some (ip, fp, e) => Ok (DFin sign (N_of_digits (ip ++ fp)) (e - len fp))
  | None =>
      match parse_special sign body with
      | Some d => Ok d
      | None => Raise (DecimalException InvalidOperation)
      end
  end.

(** ** Python's [float] *)

(** A [float] is an IEEE 754 binary64 number: a [spec_float] that
    satisfies [valid_binary 53 1024]. *)
Definition float : Type := spec_float.

Definition valid_float (f : float) : bool := valid_binary 53 1024 f.

(** [f < 0] for a float [f] and the int [0]. *)
Definition float_lt_zero (f : float) : bool := SFltb f (S754_zero false).

(** [f <= 0] for a float [f] and the int [0]. *)
Definition float_le_zero (f : float) : bool := SFleb f (S754_zero false).

(** [math.isfinite]. *)
Definition isfinite (f : float) : bool :=
  match f with
  | S754_zero _ | S754_finite _ _ _ => true
  | _ => false
  end.

Definition pow2 (k : Z) : N := (2 ^ Z.to_N k)%N.

(** The largest [t] with [10^t <= num / den]. *)
Definition floor_log10 (num den : N) : Z :=
  let est := ndigits num - ndigits den in
  if (den * pow10 est <=? num * pow10 (- est))%N then est else est - 1.

(** The decimals [D * 10^k] next to [m * 2^e] that read back as it: the
    float's rounding interval runs from the midpoint with its predecessor
    to the midpoint with its successor, ends included when [m] is even.
    All quantities are scaled to integers: [V] is the float, [Lo] and [Hi]
    the interval, [D * A] a candidate. Of two candidates the nearer one is
    taken, the even one when they are equally near. *)
Definition candidate (m : positive) (e : Z) (k : Z) : option N :=
  let A := (pow10 k * pow2 (2 - e))%N in
  let B := (pow2 (e - 2) * pow10 (- k))%N in
  let V := (4 * Npos m * B)%N in
  let boundary := (m =? 2 ^ 52)%positive && (-1074 <? e)%Z in
  let Lo := ((4 * Npos m - (if boundary then 1 else 2)) * B)%N in
  let Hi := ((4 * Npos m + 2) * B)%N in
  let inside (C : N) :=
    if N.even (Npos m) then ((Lo <=? C) && (C <=? Hi))%N
    else ((Lo <? C) && (C <? Hi))%N in
  let Df := (V / A)%N in
  let Dc := (Df + 1)%N in
  match inside (Df * A)%N, inside (Dc * A)%N with
  | true, true =>
      match (V - Df * A ?= Dc * A - V)%N with
      | Lt => Some Df
      | Gt => Some Dc
      | Eq => if N.even Df then Some Df else Some Dc
      end
  | true, false => Some Df
  | false, true => Some Dc
  | false, false => None
  end.

(** The candidate with the fewest digits: [k] starts where [D] has one
    digit and goes down; 17 digits always suffice for binary64. *)
Fixpoint shortest (fuel : nat) (m : positive) (e : Z) (k : Z) : N * Z :=
  match candidate m e k, fuel with
  | Some D, _ => (D, k)
  | None, S fuel' => shortest fuel' m e (k - 1)
  | None, O => (0%N, k)
  end.

Fixpoint strip_zeros (fuel : nat) (D : N) (k : Z) : N * Z :=
  match fuel with
  | O => (D, k)
  | S fuel' => if (D mod 10 =? 0)%N then strip_zeros fuel' (D / 10)%N (k + 1) else (D, k)
  end.

Definition digit_char (d : N) : ascii := ascii_of_N (48 + d).

Fixpoint string_of_N_aux (fuel : nat) (n : N) (acc : string) : string :=
  match fuel with
  | O => acc
  | S fuel' =>
      let acc' := String (digit_char (n mod 10)) acc in
      if (n <? 10)%N then acc' else string_of_N_aux fuel' (n / 10)%N acc'
  end.

Definition string_of_N (n : N) : string := string_of_N_aux (S (N.size_nat n)) n "".

Fixpoint zeros (n : nat) : string :=
  match n with O => "" | S n' => String "0" (zeros n') end.




(** [s[:n]] and [s[n:]]. *)
Fixpoint take_str (n : nat) (s : string) : string :=
  match n, s with
  | S n', String c r => String c (take_str n' r)
  | _, _ => ""
  end.

Fixpoint drop_str (n : nat) (s : string) : string :=
  match n, s with
  | S n', String _ r => drop_str n' r
  | _, _ => s
  end.

(** The exponent of [format_float_short], printed with ["%+.02d"]. *)
Definition format_exp (e : Z) : string :=
  let ds := string_of_N (Z.abs_N e) in
  (if (e <? 0)%Z then "-" else "+") ++
  (if (len ds <? 2)%Z then "0" ++ ds else ds).

(** The layout of [format_float_short] in mode ['r']: [digits] are the
    significant digits and the value is [0.digits * 10^decpt]. *)
Definition format_short (digits : string) (decpt : Z) : string :=
  if ((decpt <=? -4) || (16 <? decpt))%Z then
    let mant :=
      match digits with
      | String d "" => String d ""
      | String d r => String d ("." ++ r)
      | "" => ""
      end in
    mant ++ "e" ++ format_exp (decpt - 1)
  else if (decpt <=? 0)%Z then
    "0." ++ zeros (Z.to_nat (- decpt)) ++ digits
  else if (decpt <? len digits)%Z then
    take_str (Z.to_nat decpt) digits ++ "." ++ drop_str (Z.to_nat decpt) digits
  else
    digits ++ zeros (Z.to_nat (decpt - len digits)) ++ ".0".

(** [repr(f)], which is also [str(f)]: the shortest digit string that
    reads back as [f], laid out by [format_short]. *)
Definition float_repr (f : float) : string :=
  match f with
  | S754_zero s => if s then "-0.0" else "0.0"
  | S754_infinity s => if s then "-inf" else "inf"
  | S754_nan => "nan"
  | S754_finite s m e =>
      let E10 := floor_log10 (Npos m * pow2 e) (pow2 (- e)) in
      let '(D, k) := shortest 17 m e E10 in
      let '(D, k) := strip_zeros (N.size_nat D) D k in
      let digits := string_of_N D in
      (if s then "-" else "") ++ format_short digits (k + len digits)
  end.


(** ** [StorageUnit] *)

(** The members of the enum that [filesizelib] names. The enum itself
    lives in [storage_unit.py]; its table of values and its alias map are
    the variables of the section below. *)
Inductive StorageUnit : Type :=
| BYTES | KIB | MIB | GIB | TIB | PIB | EIB | ZIB | YIB
| KB | MB | GB | TB | PB | EB | ZB | YB
| BITS | KILOBITS | MEGABITS | GIGABITS | TERABITS.

#[global] Instance StorageUnit_eq_dec : EqDecision StorageUnit.
Proof. solve_decision. Defined.

(** [unit.name]. *)
Definition unit_name (u : StorageUnit) : string :=
  match u with
  | BYTES => "BYTES" | KIB => "KIB" | MIB => "MIB" | GIB => "GIB"
  | TIB => "TIB" | PIB => "PIB" | EIB => "EIB" | ZIB => "ZIB" | YIB => "YIB"
  | KB => "KB" | MB => "MB" | GB => "GB" | TB => "TB" | PB => "PB"
  | EB => "EB" | ZB => "ZB" | YB => "YB"
  | BITS => "BITS" | KILOBITS => "KILOBITS" | MEGABITS => "MEGABITS"
  | GIGABITS => "GIGABITS" | TERABITS => "TERABITS"
  end.

(** ** Python values *)

(** The argument types of [Union[int, float, str, Decimal]]. *)
Inductive value : Type :=
| VInt (z : Z)
| VFloat (f : float)
| VStr (s : string)
| VDecimal (d : Decimal).

Definition zero : Decimal := Decimal_of_int 0.

(** [v < 0]: a [str] and an [int] are not ordered. *)
Definition value_lt_zero (v : value) : result bool :=
  match v with
  | VInt z => Ok (z <? 0)%Z
  | VFloat f => Ok (float_lt_zero f)
  | VStr _ => Raise TypeError
  | VDecimal d => Decimal_lt d zero
  end.

(** [v <= 0]. *)
Definition value_le_zero (v : value) : result bool :=
  match v with
  | VInt z => Ok (z <=? 0)%Z
  | VFloat f => Ok (float_le_zero f)
  | VStr _ => Raise TypeError
  | VDecimal d => Decimal_le d zero
  end.

(** ** An insertion-ordered [dict] *)

Section Dict.
Context {V : Type}.

Definition dict : Type := list (string * V).

(** [d.get(k)]. *)
Fixpoint dict_get (k : string) (d : dict) : option V :=
  match d with
  | [] => None
  | (k', v) :: r => if String.eqb k' k then Some v else dict_get k r
  end.

(** [d[k] = v]: a present key keeps its place, a new one goes last. *)
Fixpoint dict_set (k : string) (v : V) (d : dict) : dict :=
  match d with
  | [] => [(k, v)]
  | (k', v') :: r =>
      if String.eqb k' k then (k', v) :: r else (k', v') :: dict_set k v r
  end.

(** [del d[k]]. *)
Fixpoint dict_del (k : string) (d : dict) : dict :=
  match d with
  | [] => []
  | (k', v') :: r =>
      if String.eqb k' k then r else (k', v') :: dict_del k r
  end.

(** [list(d)]: the keys in insertion order. *)
Definition keys (d : dict) : list string := map fst d.

(** [next(iter(d))]. *)
Definition first_key (d : dict) : result string :=
  match d with
  | [] => Raise StopIteration
  | (k, _) :: _ => Ok k
  end.
End Dict.

Arguments dict V : clear implicits.

(** ** The classes of [core.py] *)

Record StorageValue : Type := mkStorageValue {
  decimal_value : Decimal;
  unit : StorageUnit
}.

Record ConversionEngine : Type := mkConversionEngine {
  storage_value : StorageValue;
  conversion_cache : gmap string StorageValue
}.

Record Stats : Type := mkStats {
  decimal_cache_hits : Z;
  decimal_cache_misses : Z;
  conversion_cache_hits : Z;
  conversion_cache_misses : Z
}.

Record PerformanceManager : Type := mkPerformanceManager {
  max_cache_size : Z;
  decimal_cache : dict Decimal;
  stats : Stats
}.

(** The regular expression of [StringParser.__init__],
    [^([0-9]*\.?[0-9]+)\s*([a-z]* )$] under [re.IGNORECASE], run by
    [match]: the two groups of the match, if there is one. The quantifiers
    are greedy and the classes are disjoint, so group 1 is the longest run
    of digits with at most one dot before its last digits; giving back
    characters can only leave a digit or a dot where [\s*([a-z]* )$] has to
    match. [$] is the end of the string or the position before a final
    newline. *)
Definition pattern_tail (value_str rest : string) : option (string * string) :=
  let '(_, r1) := span is_space rest in
  let '(unit_str, r2) := span is_letter r1 in
  if is_empty r2 || String.eqb r2 (String "010" "")
  then Some (value_str, unit_str) else None.

Definition pattern_match (s : string) : option (string * string) :=
  let '(d1, r1) := span is_digit s in
  let no_dot := if is_empty d1 then None else pattern_tail d1 r1 in
  match r1 with
  | String c r2 =>
      if Ascii.eqb c "." then
        let '(d2, r3) := span is_digit r2 in
        if is_empty d2 then None
        else pattern_tail (d1 ++ "." ++ d2) r3
      else no_dot
  | "" => no_dot
  end.

Section Engine.

(** [unit_value u] is [Decimal(str(u.value))], the byte multiplier of
    [u]; [unit_aliases] is [StorageUnit.get_unit_aliases()]. *)
Variable unit_value : StorageUnit -> Decimal.
Variable unit_aliases : gmap string StorageUnit.

(** *** [StorageValue] *)

(** [StorageValue.__init__]. *)
Definition StorageValue_init (v : value) (u : StorageUnit)
  : result StorageValue :=
  negative <-- value_lt_zero v ;;
  if (negative : bool) then Raise (ValueError NegativeValue)
  else
    match v with
    | VFloat f =>
        if negb (isfinite f) then Raise (ValueError NonFiniteValue)
        else d <-- Decimal_of_str (float_repr f) ;; Ok (mkStorageValue d u)
    | VInt z => Ok (mkStorageValue (Decimal_of_int z) u)
    | VDecimal d => Ok (mkStorageValue d u)
    | VStr s =>
        match Decimal_of_str s with
        | Ok d => Ok (mkStorageValue d u)
        | Raise (ValueError _) | Raise TypeError =>
            Raise (ValueError InvalidNumeric)
        | Raise e => Raise e
        end
    end.

(** [StorageValue.to_bytes]. *)
Definition to_bytes (self : StorageValue) : result Decimal :=
  Decimal_mul (decimal_value self) (unit_value (unit self)).

(** [StorageValue.to_unit]. *)
Definition to_unit (self : StorageValue) (target_unit : StorageUnit)
  : result Decimal :=
  if decide (unit self = target_unit) then Ok (decimal_value self)
  else
    bytes_value <-- to_bytes self ;;
    Decimal_truediv bytes_value (unit_value target_unit).

(** *** [ConversionEngine] *)

(** [ConversionEngine.__init__]. *)
Definition ConversionEngine_init (sv : StorageValue) : ConversionEngine :=
  mkConversionEngine sv ∅.

(** [ConversionEngine.convert_to]: the result and the engine after the
    call. *)
Definition convert_to (self : ConversionEngine) (target_unit : StorageUnit)
  : result StorageValue * ConversionEngine :=
  let sv := storage_value self in
  if decide (unit sv = target_unit) then (Ok sv, self)
  else
    let cache_key := unit_name (unit sv) ++ "_to_" ++ unit_name target_unit in
    match conversion_cache self !! cache_key with
    | Some cached => (Ok cached, self)
    | None =>
        let computed :=
          bytes_value <-- to_bytes sv ;;
          target_decimal_value <--
            Decimal_truediv bytes_value (unit_value target_unit) ;;
          StorageValue_init (VDecimal target_decimal_value) target_unit in
        match computed with
        | Ok r =>
            (Ok r,
             mkConversionEngine sv (<[cache_key := r]> (conversion_cache self)))
        | Raise e => (Raise e, self)
        end
    end.

(** *** [StringParser] *)

(** [StringParser.parse]. *)
Definition parse (s : string) (default_unit : option StorageUnit)
  : result (Decimal * StorageUnit) :=
  if is_empty (strip s) then Raise (ValueError EmptyInput)
  else
    let default_unit := default BYTES default_unit in
    let normalized := lower (strip s) in
    let normalized := replace "," "." normalized in
    match pattern_match normalized with
    | None => Raise (ValueError InvalidFormat)
    | Some (value_str, unit_str) =>
        match Decimal_of_str value_str with
        | Ok v =>
            Ok (v, default default_unit (unit_aliases !! lower unit_str))
        | Raise (ValueError _) | Raise TypeError =>
            Raise (ValueError InvalidNumeric)
        | Raise e => Raise e
        end
    end.

(** *** [ArithmeticEngine], bound to [left_value] *)

(** [ArithmeticEngine.add]. *)
Definition add (left_value right_value : StorageValue)
  : result StorageValue :=
  if decide (unit left_value = unit right_value) then
    total_value <--
      Decimal_add (decimal_value left_value) (decimal_value right_value) ;;
    StorageValue_init (VDecimal total_value) (unit left_value)
  else
    left_bytes <-- to_bytes left_value ;;
    right_bytes <-- to_bytes right_value ;;
    total_bytes <-- Decimal_add left_bytes right_bytes ;;
    StorageValue_init (VDecimal total_bytes) BYTES.

(** [ArithmeticEngine.subtract]. *)
Definition subtract (left_value right_value : StorageValue)
  : result StorageValue :=
  if decide (unit left_value = unit right_value) then
    result_value <--
      Decimal_sub (decimal_value left_value) (decimal_value right_value) ;;
    negative <-- Decimal_lt result_value zero ;;
    if (negative : bool) then Raise (ValueError NegativeDifference)
    else StorageValue_init (VDecimal result_value) (unit left_value)
  else
    left_bytes <-- to_bytes left_value ;;
    right_bytes <-- to_bytes right_value ;;
    result_bytes <-- Decimal_sub left_bytes right_bytes ;;
    negative <-- Decimal_lt result_bytes zero ;;
    if (negative : bool) then Raise (ValueError NegativeDifference)
    else StorageValue_init (VDecimal result_bytes) BYTES.

(** The coercion shared by the numeric operations: a [float] goes
    through [str], an [int] through [Decimal(int)], a [Decimal] is
    kept. *)
Definition to_decimal (x : value) : result Decimal :=
  match x with
  | VFloat f => Decimal_of_str (float_repr f)
  | VInt z => Ok (Decimal_of_int z)
  | VDecimal d => Ok d
  | VStr _ => Raise TypeError
  end.

Definition is_numeric (x : value) : bool :=
  match x with VStr _ => false | _ => true end.

(** [ArithmeticEngine.multiply]. *)
Definition multiply (left_value : StorageValue) (factor : value)
  : result StorageValue :=
  if negb (is_numeric factor) then Raise TypeError
  else
    negative <-- value_lt_zero factor ;;
    if (negative : bool) then Raise (ValueError NegativeMultiplier)
    else
      factor <-- to_decimal factor ;;
      result_value <-- Decimal_mul (decimal_value left_value) factor ;;
      StorageValue_init (VDecimal result_value) (unit left_value).

(** The body the three divisions share, [op] being [/], [//] or [%]. *)
Definition divide_with (op : Decimal -> Decimal -> result Decimal)
  (left_value : StorageValue) (divisor : value) : result StorageValue :=
  if negb (is_numeric divisor) then Raise TypeError
  else
    not_positive <-- value_le_zero divisor ;;
    if (not_positive : bool) then Raise (ValueError DivisorNotPositive)
    else
      divisor <-- to_decimal divisor ;;
      result_value <-- op (decimal_value left_value) divisor ;;
      StorageValue_init (VDecimal result_value) (unit left_value).

(** [ArithmeticEngine.divide]. *)
Definition divide := divide_with Decimal_truediv.

(** [ArithmeticEngine.floor_divide]. *)
Definition floor_divide := divide_with Decimal_floordiv.

(** [ArithmeticEngine.modulo]. *)
Definition modulo := divide_with Decimal_mod.

End Engine.

(** *** [PerformanceManager] *)

(** [PerformanceManager.__init__]. *)
Definition PerformanceManager_init (max_cache_size : Z) : PerformanceManager :=
  mkPerformanceManager max_cache_size [] (mkStats 0 0 0 0).

Definition record_hit (st : Stats) : Stats :=
  mkStats (decimal_cache_hits st + 1) (decimal_cache_misses st)
          (conversion_cache_hits st) (conversion_cache_misses st).

Definition record_miss (st : Stats) : Stats :=
  mkStats (decimal_cache_hits st) (decimal_cache_misses st + 1)
          (conversion_cache_hits st) (conversion_cache_misses st).

(** [PerformanceManager.get_cached_decimal]: the result and the manager
    after the call. *)
Definition get_cached_decimal (self : PerformanceManager) (value_str : string)
  : result Decimal * PerformanceManager :=
  let cache := decimal_cache self in
  match dict_get value_str cache with
  | Some d =>
      (Ok d, mkPerformanceManager (max_cache_size self) cache
               (record_hit (stats self)))
  | None =>
      let st := record_miss (stats self) in
      let missed := mkPerformanceManager (max_cache_size self) cache st in
      match Decimal_of_str value_str with
      | Raise e => (Raise e, missed)
      | Ok decimal_value =>
          if (max_cache_size self <=? Z.of_nat (length cache))%Z then
            match first_key cache with
            | Raise e => (Raise e, missed)
            | Ok oldest_key =>
                (Ok decimal_value,
                 mkPerformanceManager (max_cache_size self)
                   (dict_set value_str decimal_value (dict_del oldest_key cache))
                   st)
            end
          else
            (Ok decimal_value,
             mkPerformanceManager (max_cache_size self)
               (dict_set value_str decimal_value cache) st)
      end
  end.

(** A run of calls, the results dropped. *)
Definition run_cache (self : PerformanceManager) (literals : list string)
  : PerformanceManager :=
  fold_left (fun pm s => snd (get_cached_decimal pm s)) literals self.

(** ** The other methods of [core.py] *)

(** [a == b] on decimals: a signaling NaN raises, a quiet NaN is equal
    to nothing. *)
Definition Decimal_eq (a b : Decimal) : result bool :=
  match check_nans a b with
  | Some (Raise e) => Raise e
  | Some (Ok _) => Ok false
  | None => Ok (match Decimal_cmp a b with Eq => true | _ => false end)
  end.

Section Methods.
Variable unit_value : StorageUnit -> Decimal.
Variable unit_aliases : gmap string StorageUnit.

(** [StorageValue.is_same_type]. *)
Definition is_same_type (self other : StorageValue) : bool :=
  bool_decide (unit self = unit other).

(** [ConversionEngine.convert_to_bytes]. *)
Definition convert_to_bytes (self : ConversionEngine) : result Decimal :=
  to_bytes unit_value (storage_value self).

(** [ConversionEngine.clear_cache]. *)
Definition clear_cache (self : ConversionEngine) : ConversionEngine :=
  mkConversionEngine (storage_value self) ∅.

(** [StringParser.parse_to_storage_value]. *)
Definition parse_to_storage_value (s : string)
  (default_unit : option StorageUnit) : result StorageValue :=
  parsed <-- parse unit_aliases s default_unit ;;
  let '(value, unit) := parsed in
  StorageValue_init (VDecimal value) unit.

(** [StringParser.is_valid_format]: the [except] clause catches
    [TypeError] and [ValueError] only. *)
Definition is_valid_format (s : string) : result bool :=
  match parse unit_aliases s None with
  | Ok _ => Ok true
  | Raise TypeError | Raise (ValueError _) => Ok false
  | Raise e => Raise e
  end.

(** [StringParser.get_normalized_string]. *)
Definition get_normalized_string (s : string) : string :=
  replace "," "." (lower (strip s)).

(** [ArithmeticEngine.divide_by_storage]. *)
Definition divide_by_storage (left_value divisor : StorageValue)
  : result Decimal :=
  is_zero <-- Decimal_eq (decimal_value divisor) zero ;;
  if (is_zero : bool) then Raise (ValueError ZeroStorageDivisor)
  else
    left_bytes <-- to_bytes unit_value left_value ;;
    right_bytes <-- to_bytes unit_value divisor ;;
    Decimal_truediv left_bytes right_bytes.

End Methods.

(** [PerformanceManager.clear_decimal_cache]. *)
Definition clear_decimal_cache (self : PerformanceManager) : PerformanceManager :=
  mkPerformanceManager (max_cache_size self) [] (stats self).

(** [PerformanceManager.reset_stats]. *)
Definition reset_stats (self : PerformanceManager) : PerformanceManager :=
  mkPerformanceManager (max_cache_size self) (decimal_cache self)
    (mkStats 0 0 0 0).

(** [PerformanceManager.record_conversion_hit]. *)
Definition record_conversion_hit (self : PerformanceManager) : PerformanceManager :=
  let st := stats self in
  mkPerformanceManager (max_cache_size self) (decimal_cache self)
    (mkStats (decimal_cache_hits st) (decimal_cache_misses st)
       (conversion_cache_hits st + 1) (conversion_cache_misses st)).

(** [PerformanceManager.record_conversion_miss]. *)
Definition record_conversion_miss (self : PerformanceManager) : PerformanceManager :=
  let st := stats self in
  mkPerformanceManager (max_cache_size self) (decimal_cache self)
    (mkStats (decimal_cache_hits st) (decimal_cache_misses st)
       (conversion_cache_hits st) (conversion_cache_misses st + 1)).

(** *** The arithmetic of [optimize_memory_usage] *)

(** What the conversions between [int] and [float] raise. *)
Inductive conversion_error : Type :=
| IntTooLarge      (* OverflowError: int too large to convert to float *)
| FloatInfinity    (* OverflowError: cannot convert float infinity to integer *)
| FloatNaN.        (* ValueError: cannot convert float NaN to integer *)

(** The float an [int] becomes next to a [float] operand: the nearest
    one, ties to even; an [int] that rounds beyond the largest float
    raises. *)
Definition float_of_int (z : Z) : float + conversion_error :=
  match binary_normalize 53 1024 z 0 false with
  | S754_infinity _ => inr IntTooLarge
  | f => inl f
  end.

(** The literals [0.8] and [0.5]. *)
Definition four_fifths : float :=
  Eval vm_compute in
    SFdiv 53 1024 (binary_normalize 53 1024 4 0 false)
                  (binary_normalize 53 1024 5 0 false).

Definition one_half : float :=
  Eval vm_compute in
    SFdiv 53 1024 (binary_normalize 53 1024 1 0 false)
                  (binary_normalize 53 1024 2 0 false).

(** [n * f] for an [int] and a [float]. *)
Definition int_times_float (n : Z) (f : float) : float + conversion_error :=
  match float_of_int n with
  | inl x => inl (SFmul 53 1024 x f)
  | inr e => inr e
  end.

(** [n > f] for an [int] and a [float]: the two numbers are compared as
    they are, nothing is rounded; nothing is above or below a NaN. *)
Definition int_gt_float (n : Z) (f : float) : bool :=
  match f with
  | S754_nan => false
  | S754_infinity s => s
  | S754_zero _ => (0 <? n)%Z
  | S754_finite s m e =>
      let m := if s then Z.neg m else Z.pos m in
      if (0 <=? e)%Z then (m * 2 ^ e <? n)%Z else (m <? n * 2 ^ (- e))%Z
  end.

(** [int(f)]: the integer part, towards zero. *)
Definition int_of_float (f : float) : Z + conversion_error :=
  match f with
  | S754_nan => inr FloatNaN
  | S754_infinity _ => inr FloatInfinity
  | S754_zero _ => inl 0%Z
  | S754_finite s m e =>
      let m := if s then Z.neg m else Z.pos m in
      inl (if (0 <=? e)%Z then m * 2 ^ e else Z.quot m (2 ^ (- e)))%Z
  end.

(** [items[-k:]] for a list and an [int]: the last [k] items, all of them
    for [k = 0] (the slice [[-0:]] starts at 0), and for a negative [k] the
    items from index [-k] on. *)
Definition last_items {A : Type} (k : Z) (items : list A) : list A :=
  let n := Z.of_nat (length items) in
  let start := if (0 <? k)%Z then Z.max (n - k) 0 else Z.min (- k) n in
  drop (Z.to_nat start) items.

(** [PerformanceManager.optimize_memory_usage]. *)
Definition optimize_memory_usage (self : PerformanceManager)
  : PerformanceManager + conversion_error :=
  match int_times_float (max_cache_size self) four_fifths with
  | inr e => inr e
  | inl threshold =>
      if int_gt_float (Z.of_nat (length (decimal_cache self))) threshold then
        let items := decimal_cache self in
        match int_times_float (max_cache_size self) one_half with
        | inr e => inr e
        | inl half =>
            match int_of_float half with
            | inr e => inr e
            | inl keep_count =>
                inl (mkPerformanceManager (max_cache_size self)
                       (fold_left (fun d kv => dict_set (fst kv) (snd kv) d)
                          (last_items keep_count items) [])
                       (stats self))
            end
        end
      else inl self
  end.

(** ** The unit table of the specification *)

(** Modelled from the spec: the table of byte multipliers of
    [storage_unit.py], which is not among the sources. Binary units are
    powers of 1024, decimal units powers of 1000, a bit is 0.125 byte and
    the bit units are decimal multiples of it. *)
Definition spec_unit_value (u : StorageUnit) : Decimal :=
  match u with
  | BYTES => Decimal_of_int 1
  | KIB => Decimal_of_int (1024 ^ 1) | MIB => Decimal_of_int (1024 ^ 2)
  | GIB => Decimal_of_int (1024 ^ 3) | TIB => Decimal_of_int (1024 ^ 4)
  | PIB => Decimal_of_int (1024 ^ 5) | EIB => Decimal_of_int (1024 ^ 6)
  | ZIB => Decimal_of_int (1024 ^ 7) | YIB => Decimal_of_int (1024 ^ 8)
  | KB => Decimal_of_int (1000 ^ 1) | MB => Decimal_of_int (1000 ^ 2)
  | GB => Decimal_of_int (1000 ^ 3) | TB => Decimal_of_int (1000 ^ 4)
  | PB => Decimal_of_int (1000 ^ 5) | EB => Decimal_of_int (1000 ^ 6)
  | ZB => Decimal_of_int (1000 ^ 7) | YB => Decimal_of_int (1000 ^ 8)
  | BITS => DFin false 125 (-3)
  | KILOBITS => DFin false 1250 (-1)
  | MEGABITS => DFin false 1250000 (-1)
  | GIGABITS => DFin false 1250000000 (-1)
  | TERABITS => DFin false 1250000000000 (-1)
  end.

(** Modelled from the spec: the alias map of [storage_unit.py], which is
    not among the sources, on the aliases the specification names. *)
Definition spec_unit_aliases : gmap string StorageUnit :=
  list_to_map
    [("kb", KB); ("kilobyte", KB); ("kilobytes", KB);
     ("kib", KIB); ("mb", MB)].

(** [s.replace(',', '.')]. *)
Abbreviation comma_to_dot := (replace ","%char "."%char).

(** ** Vocabulary of the specification *)

(** A magnitude that is [>= 0]: not a NaN, and not below zero ([-0] is
    zero). *)
Definition nonneg (d : Decimal) : Prop :=
  match d with
  | DFin s c _ => s = false \/ c = 0%N
  | DInf s => s = false
  | DNaN _ => False
  end.

Definition finite (d : Decimal) : Prop :=
  match d with DFin _ _ _ => True | _ => False end.

(** A decimal of the context: a finite decimal that [Decimal._fix] leaves
    as it is, with at most [prec] digits and its exponents in range. *)
Definition in_context (d : Decimal) : Prop :=
  match d with
  | DFin _ c e =>
      (Context.Etiny <= e)%Z /\
      (if (c =? 0)%N then (e <= Context.Emax)%Z
       else (ndigits c <= Context.prec)%Z /\ (adjusted c e <= Context.Emax)%Z)
  | _ => False
  end.

(** A literal that [Decimal] reads. *)
Definition parses (s : string) : Prop := is_ok (Decimal_of_str s) = true.

(** Every entry of the cache is a literal with its own parse. *)
Definition cache_sound (pm : PerformanceManager) : Prop :=
  Forall (fun kv => Decimal_of_str (fst kv) = Ok (snd kv)) (decimal_cache pm).

(** The sign bit of a float that is not a NaN. *)
Definition float_sign (f : float) : bool :=
  match f with
  | S754_zero s | S754_infinity s | S754_finite s _ _ => s
  | S754_nan => false
  end.

(** The characters of a printed float. *)
Definition numeric_char (c : ascii) : bool :=
  is_digit c || Ascii.eqb c "." || Ascii.eqb c "e" || Ascii.eqb c "+" ||
  Ascii.eqb c "-".

(** A byte multiplier as the specification has it: finite and strictly
    positive. *)
Definition positive_finite (d : Decimal) : Prop :=
  exists (c : N) (e : Z), d = DFin false c e /\ c <> 0%N.


(** Operands that [subtract] is defined on: magnitudes that are [>= 0],
    and the two numbers it subtracts, the magnitudes when the units agree
    and the byte-equivalents when they do not, are there as decimals of
    the context. *)
Definition valid_operands (unit_value : StorageUnit -> Decimal)
    (l r : StorageValue) : Prop :=
  nonneg (decimal_value l) /\ nonneg (decimal_value r) /\
  finite (decimal_value l) /\ finite (decimal_value r) /\
  if decide (unit l = unit r)
  then in_context (decimal_value l) /\ in_context (decimal_value r)
  else is_ok (to_bytes unit_value l) = true /\
       is_ok (to_bytes unit_value r) = true.

(** The sign of a number: [Lt] below zero, [Eq] zero, [Gt] above; a NaN
    and a [str] have none. *)
Definition value_sign (x : value) : option comparison :=
  match x with
  | VInt z => Some (z ?= 0)%Z
  | VFloat f => SFcompare f (S754_zero false)
  | VDecimal (DFin s c _) =>
      Some (if (c =? 0)%N then Eq else if s then Lt else Gt)
  | VDecimal (DInf s) => Some (if s then Lt else Gt)
  | VDecimal (DNaN _) => None
  | VStr _ => None
  end.

(** [x <= 0] and [x > 0] for a number [x]. *)
Definition non_positive (x : value) : Prop :=
  value_sign x = Some Lt \/ value_sign x = Some Eq.

Definition positive_value (x : value) : Prop := value_sign x = Some Gt.

(** The float nearest to one tenth: [1.0 / 10.0]. *)
Definition one_tenth : float :=
  Eval vm_compute in
    SFdiv 53 1024 (binary_normalize 53 1024 1 0 false)
                  (binary_normalize 53 1024 10 0 false).

(** [m * 2^e] in lowest terms. *)
Fixpoint lowest_terms (m : positive) (e : Z) : positive * Z :=
  match m with
  | xO m' => if (e <? 0)%Z then lowest_terms m' (e + 1) else (m, e)
  | _ => (m, e)
  end.

(** [Decimal(f)] for a [float]: the decimal that is exactly the binary
    number [f], which the constructor does not use. *)
Definition Decimal_from_float (f : float) : Decimal :=
  match f with
  | S754_zero s => DFin s 0 0
  | S754_infinity s => DInf s
  | S754_nan => DNaN false
  | S754_finite s m e =>
      let '(n, k) := lowest_terms m e in
      if (0 <=? k)%Z then DFin s (Npos n * 2 ^ Z.to_N k) 0
      else DFin s (Npos n * 5 ^ Z.to_N (- k)) k
  end.

(** The language of the parser's pattern, with its two groups: digits,
    an optional dot and at least one digit; white space; letters; the end
    of the string, or a newline and the end. *)
Definition matches_pattern (s value_str unit_str : string) : Prop :=
  exists d1 dot d2 ws tail : string,
    s = d1 ++ dot ++ d2 ++ ws ++ unit_str ++ tail /\
    value_str = d1 ++ dot ++ d2 /\
    forallb_str is_digit d1 = true /\
    (dot = "" \/ dot = ".") /\
    forallb_str is_digit d2 = true /\ is_empty d2 = false /\
    forallb_str is_space ws = true /\
    forallb_str is_letter unit_str = true /\
    (tail = "" \/ tail = String "010" "").

(** [c in s]. *)
Fixpoint has_char (c : ascii) (s : string) : bool :=
  match s with
  | "" => false
  | String x r => Ascii.eqb x c || has_char c r
  end.

(** The characters the pattern can match. *)
Definition pattern_char (c : ascii) : bool :=
  is_digit c || Ascii.eqb c "." || is_space c || is_letter c.

(** The rational number a finite decimal stands for. *)
Definition Q10 (e : Z) : Q := (inject_Z 10 ^ e)%Q.

Definition dval (d : Decimal) : Q :=
  match d with
  | DFin s c e =>
      ((if s then inject_Z (-1) else inject_Z 1) * inject_Z (Z.of_N c) * Q10 e)%Q
  | _ => 0%Q
  end.

(** [c * 10^e] and [c0 * 10^e0] are the same number. *)
Definition same_number (c : N) (e : Z) (c0 : N) (e0 : Z) : Prop :=
  (c * pow10 (e - e0) = c0 * pow10 (e0 - e))%N.

(** The states of a [ConversionEngine(v)]: the new engine, and what
    [convert_to] and [clear_cache] make of it. *)
Inductive engine_of (unit_value : StorageUnit -> Decimal) (v : StorageValue)
  : ConversionEngine -> Prop :=
| engine_new : engine_of unit_value v (ConversionEngine_init v)
| engine_convert (eng : ConversionEngine) (t : StorageUnit) :
    engine_of unit_value v eng ->
    engine_of unit_value v (snd (convert_to unit_value eng t))
| engine_clear (eng : ConversionEngine) :
    engine_of unit_value v eng -> engine_of unit_value v (clear_cache eng).

(** The key [convert_to] files a conversion under. *)
Definition cache_key (u t : StorageUnit) : string :=
  unit_name u ++ "_to_" ++ unit_name t.

(** What [convert_to] computes on a miss. *)
Definition converted (unit_value : StorageUnit -> Decimal) (sv : StorageValue)
  (target_unit : StorageUnit) : result StorageValue :=
  bytes_value <-- to_bytes unit_value sv ;;
  target_decimal_value <--
    Decimal_truediv bytes_value (unit_value target_unit) ;;
  StorageValue_init (VDecimal target_decimal_value) target_unit.

(** The two numbers [subtract] takes the difference of: the magnitudes
    when the units agree, the byte counts when they do not. *)
Definition subtracted (unit_value : StorageUnit -> Decimal)
  (l r : StorageValue) : result (Decimal * Decimal) :=
  if decide (unit l = unit r) then Ok (decimal_value l, decimal_value r)
  else
    left_bytes <-- to_bytes unit_value l ;;
    right_bytes <-- to_bytes unit_value r ;;
    Ok (left_bytes, right_bytes).

(** The integer part of a float that is not below zero. *)
Definition float_floor (f : float) : option Z :=
  match f with
  | S754_zero _ => Some 0%Z
  | S754_finite false m e =>
      Some (if (0 <=? e)%Z then Z.pos m * 2 ^ e else Z.pos m / 2 ^ (- e))%Z
  | _ => None
  end.

(** For a capacity [n], the float [n * 0.8] has the integer part of four
    fifths of [n], and [int(n * 0.5)] is half of [n], rounded down. *)
Definition trims_at (n : Z) : bool :=
  match int_times_float n four_fifths, int_times_float n one_half with
  | inl x, inl h =>
      match float_floor x, int_of_float h with
      | Some a, inl b => ((a =? 4 * n / 5) && (b =? n / 2))%Z
      | _, _ => false
      end
  | _, _ => false
  end.

(** * Properties *)

(** ** Conversion to the value's own unit *)

(** C6. Converting a value to its own unit is the identity:
    [ConversionEngine.convert_to] returns the bound value itself and leaves
    the engine as it was, and [StorageValue.to_unit] returns the stored
    magnitude itself; neither computes anything. *)
Theorem identity_conversion :
  forall (unit_value : StorageUnit -> Decimal)
         (self : ConversionEngine) (v : StorageValue),
    convert_to unit_value self (unit (storage_value self))
      = (Ok (storage_value self), self) /\
    to_unit unit_value v (unit v) = Ok (decimal_value v).
Proof.
  intros unit_value self v. split.
  - unfold convert_to. destruct (decide _) as [_ | Hne]; [reflexivity | ].
    now contradiction Hne.
  - unfold to_unit. destruct (decide _) as [_ | Hne]; [reflexivity | ].
    now contradiction Hne.
Qed.

(** ** The constructor *)

(** C1, at the failing inputs: the constructor compares its argument with
    [0] before it looks at its type, so every [str] argument ends in a
    [TypeError], the decimal string ["1.5"] of the docstring included. *)
Theorem StorageValue_init_str :
  forall (s : string) (u : StorageUnit),
    StorageValue_init (VStr s) u = Raise TypeError /\
    StorageValue_init (VStr "1.5") MB = Raise TypeError.
Proof. intros s u. split; reflexivity. Qed.

(** The same comparison lets a positive infinity through: the finiteness
    test guards the [float] branch only. *)
Lemma StorageValue_init_infinity (u : StorageUnit) :
  StorageValue_init (VDecimal (DInf false)) u
    = Ok (mkStorageValue (DInf false) u).
Proof. reflexivity. Qed.

(** A NaN decimal is stopped by the comparison itself, with the decimal
    module's exception. *)
Lemma StorageValue_init_nan (g : bool) (u : StorageUnit) :
  StorageValue_init (VDecimal (DNaN g)) u
    = Raise (DecimalException InvalidOperation).
Proof. reflexivity. Qed.

Lemma StorageValue_init_int (z : Z) (u : StorageUnit) :
  StorageValue_init (VInt z) u =
    if (z <? 0)%Z then Raise (ValueError NegativeValue)
    else Ok (mkStorageValue (Decimal_of_int z) u).
Proof. unfold StorageValue_init; simpl. now destruct (z <? 0)%Z. Qed.

(** ** The parser: the comma *)

Ltac by_ascii_cases c :=
  destruct c as [[] [] [] [] [] [] [] []]; vm_compute;
  try reflexivity; try congruence.

Lemma is_space_comma_to_dot (c : ascii) :
  is_space (if Ascii.eqb c "," then "."%char else c) = is_space c.
Proof. by_ascii_cases c. Qed.

Lemma lower_char_comma_to_dot (c : ascii) :
  lower_char (if Ascii.eqb c "," then "."%char else c)
  = (if Ascii.eqb (lower_char c) "," then "."%char else lower_char c).
Proof. by_ascii_cases c. Qed.

Lemma comma_to_dot_char_idem (c : ascii) :
  Ascii.eqb (if Ascii.eqb c "," then "."%char else c) "," = false.
Proof. by_ascii_cases c. Qed.

Lemma forallb_space_comma_to_dot (s : string) :
  forallb_str is_space (comma_to_dot s) = forallb_str is_space s.
Proof.
  induction s as [| c r IH]; simpl; [reflexivity | ].
  now rewrite is_space_comma_to_dot, IH.
Qed.

Lemma lstrip_comma_to_dot (s : string) :
  lstrip (comma_to_dot s) = comma_to_dot (lstrip s).
Proof.
  induction s as [| c r IH]; simpl; [reflexivity | ].
  rewrite is_space_comma_to_dot. now destruct (is_space c).
Qed.

Lemma rstrip_comma_to_dot (s : string) :
  rstrip (comma_to_dot s) = comma_to_dot (rstrip s).
Proof.
  induction s as [| c r IH]; simpl; [reflexivity | ].
  rewrite is_space_comma_to_dot, forallb_space_comma_to_dot.
  destruct (is_space c && forallb_str is_space r); simpl; [reflexivity | ].
  now rewrite IH.
Qed.

Lemma strip_comma_to_dot (s : string) :
  strip (comma_to_dot s) = comma_to_dot (strip s).
Proof. unfold strip. now rewrite lstrip_comma_to_dot, rstrip_comma_to_dot. Qed.

Lemma lower_comma_to_dot (s : string) :
  lower (comma_to_dot s) = comma_to_dot (lower s).
Proof.
  induction s as [| c r IH]; simpl; [reflexivity | ].
  now rewrite lower_char_comma_to_dot, IH.
Qed.

Lemma comma_to_dot_idem (s : string) :
  comma_to_dot (comma_to_dot s) = comma_to_dot s.
Proof.
  induction s as [| c r IH]; simpl; [reflexivity | ].
  now rewrite comma_to_dot_char_idem, IH.
Qed.

Lemma is_empty_comma_to_dot (s : string) :
  is_empty (comma_to_dot s) = is_empty s.
Proof. now destruct s. Qed.

(** What [parse] returns once the three steps it is made of are known. *)
Lemma parse_matched (aliases : gmap string StorageUnit) (s : string)
    (du : option StorageUnit) (value_str unit_str : string) (d : Decimal) :
  is_empty (strip s) = false ->
  pattern_match (comma_to_dot (lower (strip s))) = Some (value_str, unit_str) ->
  Decimal_of_str value_str = Ok d ->
  parse aliases s du
    = Ok (d, default (default BYTES du) (aliases !! lower unit_str)).
Proof.
  intros He Hm Hd. unfold parse. now rewrite He, Hm, Hd.
Qed.




(** ** The decimal cache *)

Section DictFacts.
Context {V : Type}.
Implicit Types (d : dict V) (k : string) (v : V).

Lemma dict_set_fresh k v d :
  dict_get k d = None -> dict_set k v d = (d ++ [(k, v)])%list.
Proof.
  induction d as [| [k' v'] r IH]; simpl; [reflexivity | ].
  destruct (String.eqb k' k); [discriminate | ].
  intros H. now rewrite IH.
Qed.

Lemma dict_del_first k v d : dict_del k ((k, v) :: d) = d.
Proof. simpl. now rewrite String.eqb_refl. Qed.

Lemma dict_get_tail k k' v' d :
  dict_get k ((k', v') :: d) = None -> dict_get k d = None.
Proof. simpl. now destruct (String.eqb k' k). Qed.

Lemma dict_get_app_fresh k k' v' d :
  dict_get k d = None -> k' <> k -> dict_get k (d ++ [(k', v')])%list = None.
Proof.
  intros Hd Hne. induction d as [| [k0 v0] r IH]; simpl in *.
  - destruct (String.eqb_spec k' k); [contradiction | reflexivity].
  - destruct (String.eqb k0 k); [discriminate | now apply IH].
Qed.

Lemma keys_app d1 d2 : keys (d1 ++ d2)%list = (keys d1 ++ keys d2)%list.
Proof. unfold keys. apply map_app. Qed.
End DictFacts.

(** One call on a literal that parses, by the state of the cache. *)
Lemma get_cached_decimal_hit (pm : PerformanceManager) (s : string) (d : Decimal) :
  dict_get s (decimal_cache pm) = Some d ->
  get_cached_decimal pm s
    = (Ok d, mkPerformanceManager (max_cache_size pm) (decimal_cache pm)
               (record_hit (stats pm))).
Proof. intros H. unfold get_cached_decimal. now rewrite H. Qed.

Lemma get_cached_decimal_room (pm : PerformanceManager) (s : string) (d : Decimal) :
  dict_get s (decimal_cache pm) = None ->
  Decimal_of_str s = Ok d ->
  (Z.of_nat (length (decimal_cache pm)) < max_cache_size pm)%Z ->
  get_cached_decimal pm s
    = (Ok d, mkPerformanceManager (max_cache_size pm)
               (decimal_cache pm ++ [(s, d)])%list (record_miss (stats pm))).
Proof.
  intros Hg Hd Hlt. unfold get_cached_decimal. rewrite Hg, Hd.
  destruct (Z.leb_spec (max_cache_size pm) (Z.of_nat (length (decimal_cache pm))));
    [lia | ].
  now rewrite dict_set_fresh.
Qed.

Lemma get_cached_decimal_full (pm : PerformanceManager) (s : string) (d : Decimal)
    (k : string) (v : Decimal) (r : dict Decimal) :
  decimal_cache pm = (k, v) :: r ->
  dict_get s (decimal_cache pm) = None ->
  Decimal_of_str s = Ok d ->
  (max_cache_size pm <= Z.of_nat (length (decimal_cache pm)))%Z ->
  get_cached_decimal pm s
    = (Ok d, mkPerformanceManager (max_cache_size pm)
               (r ++ [(s, d)])%list (record_miss (stats pm))).
Proof.
  intros Hc Hg Hd Hle. unfold get_cached_decimal. rewrite Hg, Hd.
  destruct (Z.leb_spec (max_cache_size pm) (Z.of_nat (length (decimal_cache pm))));
    [ | lia].
  rewrite Hc in *. simpl first_key. cbv iota beta.
  rewrite dict_del_first, dict_set_fresh; [reflexivity | ].
  now apply dict_get_tail in Hg.
Qed.

(** A call never changes the capacity, and never lets the cache grow
    past it. *)
Lemma get_cached_decimal_capacity (pm : PerformanceManager) (s : string) :
  max_cache_size (snd (get_cached_decimal pm s)) = max_cache_size pm.
Proof.
  unfold get_cached_decimal.
  destruct (dict_get s (decimal_cache pm)); [reflexivity | ].
  destruct (Decimal_of_str s); [ | reflexivity].
  destruct (_ <=? _)%Z; [ | reflexivity].
  now destruct (decimal_cache pm) as [| [k v] r].
Qed.

Lemma get_cached_decimal_bound (pm : PerformanceManager) (s : string) :
  (Z.of_nat (length (decimal_cache pm)) <= max_cache_size pm)%Z ->
  (Z.of_nat (length (decimal_cache (snd (get_cached_decimal pm s))))
   <= max_cache_size pm)%Z.
Proof.
  intros Hinv.
  destruct (dict_get s (decimal_cache pm)) as [d | ] eqn:Hg.
  { now rewrite (get_cached_decimal_hit pm s d Hg). }
  destruct (Decimal_of_str s) as [d | e] eqn:Hd.
  2: { unfold get_cached_decimal. now rewrite Hg, Hd. }
  destruct (Z.le_gt_cases (max_cache_size pm) (Z.of_nat (length (decimal_cache pm))))
    as [Hfull | Hroom].
  - destruct (decimal_cache pm) as [| [k v] r] eqn:Hc.
    + unfold get_cached_decimal. rewrite Hc, Hg, Hd. simpl in *.
      destruct (Z.leb_spec (max_cache_size pm) (Z.of_nat 0)); simpl; lia.
    + rewrite <- Hc in Hg, Hfull.
      rewrite (get_cached_decimal_full pm s d k v r Hc Hg Hd Hfull).
      simpl. rewrite length_app. simpl in *. lia.
  - rewrite (get_cached_decimal_room pm s d Hg Hd) by lia.
    simpl. rewrite length_app. simpl. lia.
Qed.

Lemma run_cache_capacity (ls : list string) (pm : PerformanceManager) :
  max_cache_size (run_cache pm ls) = max_cache_size pm.
Proof.
  revert pm. induction ls as [| s ls IH]; intros pm; simpl; [reflexivity | ].
  unfold run_cache in *. simpl. now rewrite IH, get_cached_decimal_capacity.
Qed.

Lemma run_cache_bound (ls : list string) (pm : PerformanceManager) :
  (Z.of_nat (length (decimal_cache pm)) <= max_cache_size pm)%Z ->
  (Z.of_nat (length (decimal_cache (run_cache pm ls))) <= max_cache_size pm)%Z.
Proof.
  revert pm. induction ls as [| s ls IH]; intros pm Hinv; [exact Hinv | ].
  unfold run_cache in *. simpl.
  rewrite <- (get_cached_decimal_capacity pm s).
  apply IH. rewrite get_cached_decimal_capacity.
  now apply get_cached_decimal_bound.
Qed.

Lemma run_cache_snoc (pm : PerformanceManager) (ls : list string) (s : string) :
  run_cache pm (ls ++ [s])%list = snd (get_cached_decimal (run_cache pm ls) s).
Proof. unfold run_cache. now rewrite fold_left_app. Qed.

Lemma parses_inv (s : string) : parses s -> exists d, Decimal_of_str s = Ok d.
Proof.
  unfold parses. destruct (Decimal_of_str s) as [d | e]; [eauto | discriminate].
Qed.

(** While there is room, distinct literals pile up in call order. *)
Lemma run_cache_fill (N : Z) (ls : list string) :
  NoDup ls -> Forall parses ls -> (Z.of_nat (length ls) <= N)%Z ->
  keys (decimal_cache (run_cache (PerformanceManager_init N) ls)) = ls.
Proof.
  induction ls as [| s ls IH] using rev_ind; intros Hnd Hp Hlen;
    [reflexivity | ].
  apply NoDup_app in Hnd as (Hnd & Hfresh & _).
  apply Forall_app in Hp as [Hp Hs].
  rewrite length_app in Hlen. simpl in Hlen.
  specialize (IH Hnd Hp ltac:(lia)).
  apply Forall_inv in Hs. destruct (parses_inv s Hs) as [d Hd].
  rewrite run_cache_snoc.
  set (pm := run_cache (PerformanceManager_init N) ls) in *.
  assert (Hg : dict_get s (decimal_cache pm) = None).
  { destruct (dict_get s (decimal_cache pm)) as [v | ] eqn:Hg; [ | reflexivity].
    exfalso. apply (Hfresh s); [ | apply list_elem_of_here].
    rewrite <- IH. clear -Hg.
    induction (decimal_cache pm) as [| [k' v'] r IHr]; simpl in *; [discriminate | ].
    destruct (String.eqb_spec k' s) as [-> | _];
      [apply list_elem_of_here | apply list_elem_of_further; now apply IHr]. }
  rewrite (get_cached_decimal_room pm s d Hg Hd).
  - simpl. now rewrite keys_app, IH.
  - unfold pm at 2. rewrite run_cache_capacity. simpl.
    replace (length (decimal_cache pm)) with (length (keys (decimal_cache pm)))
      by apply length_map.
    rewrite IH. lia.
Qed.

Lemma dict_get_elem_of {V : Type} (k : string) (v : V) (d : dict V) :
  dict_get k d = Some v -> (k, v) ∈ d.
Proof.
  induction d as [| [k' v'] r IH]; simpl; [discriminate | ].
  destruct (String.eqb_spec k' k) as [-> | _].
  - intros [= ->]. apply list_elem_of_here.
  - intros H. apply list_elem_of_further. now apply IH.
Qed.

Lemma get_cached_decimal_sound (pm : PerformanceManager) (s : string) :
  cache_sound pm -> cache_sound (snd (get_cached_decimal pm s)).
Proof.
  unfold cache_sound. intros Hinv.
  destruct (dict_get s (decimal_cache pm)) as [d | ] eqn:Hg.
  { now rewrite (get_cached_decimal_hit pm s d Hg). }
  destruct (Decimal_of_str s) as [d | e] eqn:Hd.
  2: { unfold get_cached_decimal. now rewrite Hg, Hd. }
  destruct (Z.le_gt_cases (max_cache_size pm) (Z.of_nat (length (decimal_cache pm))))
    as [Hfull | Hroom].
  - destruct (decimal_cache pm) as [| [k v] r] eqn:Hc.
    + unfold get_cached_decimal. rewrite Hc, Hg, Hd. simpl in *.
      destruct (max_cache_size pm <=? Z.of_nat 0)%Z; simpl; [constructor | ].
      apply Forall_cons. now split.
    + rewrite <- Hc in Hg, Hfull.
      rewrite (get_cached_decimal_full pm s d k v r Hc Hg Hd Hfull). simpl.
      apply Forall_app. split; [now apply Forall_inv_tail in Hinv | ].
      apply Forall_cons. now split.
  - rewrite (get_cached_decimal_room pm s d Hg Hd) by lia. simpl.
    apply Forall_app. split; [exact Hinv | ]. apply Forall_cons. now split.
Qed.

Lemma run_cache_sound (ls : list string) (pm : PerformanceManager) :
  cache_sound pm -> cache_sound (run_cache pm ls).
Proof.
  revert pm. induction ls as [| s ls IH]; intros pm Hinv; [exact Hinv | ].
  unfold run_cache in *. simpl. apply IH. now apply get_cached_decimal_sound.
Qed.

(** With room for at least one entry, a call returns what [Decimal]
    returns on the literal. *)
Lemma get_cached_decimal_result (pm : PerformanceManager) (s : string) :
  cache_sound pm -> (0 < max_cache_size pm)%Z ->
  fst (get_cached_decimal pm s) = Decimal_of_str s.
Proof.
  intros Hinv Hpos.
  destruct (dict_get s (decimal_cache pm)) as [d | ] eqn:Hg.
  { rewrite (get_cached_decimal_hit pm s d Hg). simpl.
    apply dict_get_elem_of in Hg. unfold cache_sound in Hinv.
    rewrite Forall_forall in Hinv. symmetry. exact (Hinv _ Hg). }
  destruct (Decimal_of_str s) as [d | e] eqn:Hd.
  2: { unfold get_cached_decimal. now rewrite Hg, Hd. }
  destruct (Z.le_gt_cases (max_cache_size pm) (Z.of_nat (length (decimal_cache pm))))
    as [Hfull | Hroom].
  - destruct (decimal_cache pm) as [| [k v] r] eqn:Hc; [simpl in Hfull; lia | ].
    rewrite <- Hc in Hg, Hfull.
    now rewrite (get_cached_decimal_full pm s d k v r Hc Hg Hd Hfull).
  - now rewrite (get_cached_decimal_room pm s d Hg Hd) by lia.
Qed.

(** C9. For a cache of capacity [N]: the entry count never exceeds [N],
    whatever the calls; [N + 1] distinct literals leave exactly the
    literals after the first, in call order; a hit leaves the ordered
    cache as it is, so that the oldest entry is the next one evicted even
    when it was just read; and, with room for at least one entry, every
    call returns the decimal of its literal. *)
Theorem decimal_cache_fifo :
  forall N : Z, (0 <= N)%Z ->
    let fresh := PerformanceManager_init N in
    (forall ls,
       (Z.of_nat (length (decimal_cache (run_cache fresh ls))) <= N)%Z) /\
    (forall ls,
       NoDup ls -> Forall parses ls -> Z.of_nat (length ls) = (N + 1)%Z ->
       keys (decimal_cache (run_cache fresh ls)) = tail ls) /\
    (forall ls s,
       let pm := run_cache fresh ls in
       is_Some (dict_get s (decimal_cache pm)) ->
       decimal_cache (snd (get_cached_decimal pm s)) = decimal_cache pm) /\
    (forall ls k v r t d,
       let pm := run_cache fresh ls in
       decimal_cache pm = (k, v) :: r ->
       Z.of_nat (length (decimal_cache pm)) = N ->
       dict_get t (decimal_cache pm) = None ->
       Decimal_of_str t = Ok d ->
       let pm' := snd (get_cached_decimal pm k) in
       get_cached_decimal pm' t
         = (Ok d, mkPerformanceManager N (r ++ [(t, d)])%list
                    (record_miss (stats pm')))) /\
    ((0 < N)%Z ->
     forall ls s,
       fst (get_cached_decimal (run_cache fresh ls) s) = Decimal_of_str s).
Proof.
  intros N HN fresh. subst fresh. repeat split.
  - intros ls.
    apply (run_cache_bound ls (PerformanceManager_init N)). simpl. lia.
  - intros ls Hnd Hp Hlen.
    destruct ls as [| l0 ls] using rev_ind; [simpl in Hlen; lia | ].
    clear IHls.
    apply NoDup_app in Hnd as (Hnd & Hfresh & _).
    apply Forall_app in Hp as [Hp Hl0]. apply Forall_inv in Hl0.
    rewrite length_app in Hlen. simpl in Hlen.
    assert (Hfill := run_cache_fill N ls Hnd Hp ltac:(lia)).
    destruct (parses_inv l0 Hl0) as [d Hd].
    rewrite run_cache_snoc.
    set (pm := run_cache (PerformanceManager_init N) ls) in *.
    assert (Hsize : max_cache_size pm = N)
      by (unfold pm; now rewrite run_cache_capacity).
    assert (Hlenc : length (decimal_cache pm) = length ls).
    { transitivity (length (keys (decimal_cache pm)));
        [unfold keys; now rewrite length_map | now rewrite Hfill]. }
    assert (Hg : dict_get l0 (decimal_cache pm) = None).
    { destruct (dict_get l0 (decimal_cache pm)) as [v | ] eqn:Hg; [ | reflexivity].
      exfalso. apply (Hfresh l0); [ | apply list_elem_of_here].
      rewrite <- Hfill. apply dict_get_elem_of in Hg.
      unfold keys. apply (list_elem_of_fmap_2 fst _ _ Hg). }
    destruct (decimal_cache pm) as [| [k v] r] eqn:Hc.
    + simpl in Hlenc. destruct ls; [ | discriminate].
      unfold pm, get_cached_decimal. simpl. rewrite Hd.
      destruct (Z.leb_spec N (Z.of_nat 0)); [reflexivity | simpl in *; lia].
    + rewrite <- Hc in Hg.
      rewrite (get_cached_decimal_full pm l0 d k v r Hc Hg Hd)
        by (rewrite Hc, Hsize; simpl in *; lia).
      simpl. rewrite keys_app. simpl.
      destruct ls as [| l1 ls]; [discriminate | ].
      simpl in Hfill. now injection Hfill as _ ->.
  - intros ls s pm [d Hg]. now rewrite (get_cached_decimal_hit pm s d Hg).
  - intros ls k v r t d pm Hc Hlen Hg Hd pm'.
    assert (Hk : dict_get k (decimal_cache pm) = Some v)
      by (rewrite Hc; simpl; now rewrite String.eqb_refl).
    assert (Hsize : max_cache_size pm = N)
      by (unfold pm; now rewrite run_cache_capacity).
    unfold pm'. rewrite (get_cached_decimal_hit pm k v Hk). simpl snd.
    rewrite (get_cached_decimal_full _ t d k v r); simpl;
      rewrite ?Hsize; try assumption; try reflexivity.
    rewrite <- Hlen, Hc. simpl. lia.
  - intros HposN ls s. apply get_cached_decimal_result.
    + apply run_cache_sound. unfold cache_sound. simpl. apply Forall_nil_2.
    + rewrite run_cache_capacity. exact HposN.
Qed.

Lemma decimal_cache_fifo_witness :
  keys (decimal_cache (run_cache (PerformanceManager_init 2) ["1"; "2.5"; "3"]))
  = ["2.5"; "3"].
Proof.
  apply (decimal_cache_fifo 2 ltac:(lia)).
  - apply (bool_decide_unpack _). vm_compute. exact I.
  - repeat constructor.
  - reflexivity.
Defined.

(** ** Decimal digits *)

Lemma pow10_pos (k : Z) : (0 < pow10 k)%N.
Proof. unfold pow10. apply N.neq_0_lt_0, N.pow_nonzero. discriminate. Qed.

Lemma pow10_0 : pow10 0 = 1%N.
Proof. reflexivity. Qed.

Lemma pow10_nonpos (k : Z) : (k <= 0)%Z -> pow10 k = 1%N.
Proof. intros H. unfold pow10. now replace (Z.to_N k) with 0%N by lia. Qed.

Lemma pow10_add (a b : Z) :
  (0 <= a)%Z -> (0 <= b)%Z -> pow10 (a + b) = (pow10 a * pow10 b)%N.
Proof.
  intros Ha Hb. unfold pow10. rewrite Z2N.inj_add by assumption.
  apply N.pow_add_r.
Qed.

Lemma pow10_succ (a : Z) : (0 <= a)%Z -> pow10 (a + 1) = (10 * pow10 a)%N.
Proof.
  intros Ha. rewrite pow10_add by lia. change (pow10 1) with 10%N. lia.
Qed.

Lemma pow10_le (a b : Z) : (a <= b)%Z -> (pow10 a <= pow10 b)%N.
Proof.
  intros H. unfold pow10. apply N.pow_le_mono_r; [discriminate | lia].
Qed.

Lemma pow10_lt (a b : Z) : (0 <= a)%Z -> (a < b)%Z -> (pow10 a < pow10 b)%N.
Proof.
  intros Ha H. unfold pow10. apply N.pow_lt_mono_r; lia.
Qed.

Lemma pow10_lt_inv (a b : Z) : (pow10 a < pow10 b)%N -> (a < b)%Z.
Proof.
  intros H. destruct (Z.lt_ge_cases a b) as [Hlt | Hge]; [exact Hlt | ].
  apply pow10_le in Hge. lia.
Qed.

Lemma ndigits_aux_spec (fuel : nat) :
  forall c : N,
    (c < 2 ^ N.of_nat fuel)%N ->
    (1 <= ndigits_aux fuel c)%Z /\
    (c < pow10 (ndigits_aux fuel c))%N /\
    (c <> 0%N -> (pow10 (ndigits_aux fuel c - 1) <= c)%N).
Proof.
  induction fuel as [| fuel IH]; intros c Hc.
  - simpl in *. assert (c = 0%N) by lia. subst c.
    split; [lia | split; [reflexivity | intros H; now contradiction H]].
  - simpl ndigits_aux. destruct (N.ltb_spec c 10) as [Hlt | Hge].
    + split; [lia | split; [exact Hlt | ]]. intros Hne. simpl. unfold pow10. simpl. lia.
    + assert (Hdiv : (c / 10 < 2 ^ N.of_nat fuel)%N).
      { apply N.Div0.div_lt_upper_bound.
        rewrite Nat2N.inj_succ, N.pow_succ_r' in Hc. lia. }
      destruct (IH _ Hdiv) as (H1 & Hup & Hlo).
      assert (Hne : (c / 10)%N <> 0%N).
      { intros H0. apply N.div_small_iff in H0; lia. }
      specialize (Hlo Hne).
      assert (Hc10 := N.Div0.div_mod c 10).
      assert (Hm := N.mod_lt c 10 ltac:(discriminate)).
      set (q := (c / 10)%N) in *. set (n := ndigits_aux fuel q) in *.
      set (m := (c mod 10)%N) in *. clearbody m n q.
      split; [lia | split; [ | intros _]].
      * replace (1 + n)%Z with (n + 1)%Z by lia.
        rewrite pow10_succ by lia.
        generalize dependent (pow10 n). intros. lia.
      * replace (1 + n - 1)%Z with ((n - 1) + 1)%Z by lia.
        rewrite pow10_succ by lia.
        generalize dependent (pow10 (n - 1)). intros. lia.
Qed.

Lemma size_nat_bound (c : N) : (c < 2 ^ N.of_nat (N.size_nat c))%N.
Proof.
  destruct c as [| p]; [reflexivity | ].
  simpl N.size_nat.
  induction p as [p IH | p IH | ]; simpl Pos.size_nat;
    rewrite ?Nat2N.inj_succ, ?N.pow_succ_r'; simpl in *; lia.
Qed.

Lemma ndigits_pos (c : N) : (1 <= ndigits c)%Z.
Proof. apply (ndigits_aux_spec _ c (size_nat_bound c)). Qed.

Lemma ndigits_upper (c : N) : (c < pow10 (ndigits c))%N.
Proof. apply (ndigits_aux_spec _ c (size_nat_bound c)). Qed.

Lemma ndigits_lower (c : N) : c <> 0%N -> (pow10 (ndigits c - 1) <= c)%N.
Proof. apply (ndigits_aux_spec _ c (size_nat_bound c)). Qed.

Lemma ndigits_unique (c : N) (k : Z) :
  (pow10 (k - 1) <= c)%N -> (c < pow10 k)%N -> (1 <= k)%Z -> ndigits c = k.
Proof.
  intros Hlo Hup Hk.
  assert (Hne : c <> 0%N) by (pose proof (pow10_pos (k - 1)); lia).
  pose proof (ndigits_pos c) as Hp.
  pose proof (ndigits_upper c) as Hu.
  pose proof (ndigits_lower c Hne) as Hl.
  assert (H1 : (k - 1 < ndigits c)%Z) by (apply pow10_lt_inv; lia).
  assert (H2 : (ndigits c - 1 < k)%Z) by (apply pow10_lt_inv; lia).
  lia.
Qed.

Lemma ndigits_0 : ndigits 0 = 1%Z.
Proof. reflexivity. Qed.

Lemma ndigits_le_of_lt (c : N) (k : Z) :
  (1 <= k)%Z -> (c < pow10 k)%N -> (ndigits c <= k)%Z.
Proof.
  intros Hk Hc. destruct (N.eq_dec c 0%N) as [-> | Hne]; [now rewrite ndigits_0 | ].
  pose proof (ndigits_lower c Hne).
  assert ((ndigits c - 1 < k)%Z) by (apply pow10_lt_inv; lia). lia.
Qed.

Lemma ndigits_mono (a b : N) : (a <= b)%N -> (ndigits a <= ndigits b)%Z.
Proof.
  intros H. apply ndigits_le_of_lt; [apply ndigits_pos | ].
  pose proof (ndigits_upper b). lia.
Qed.

Lemma ndigits_mul_pow10 (c : N) (j : Z) :
  c <> 0%N -> (0 <= j)%Z -> ndigits (c * pow10 j) = (ndigits c + j)%Z.
Proof.
  intros Hne Hj. pose proof (ndigits_pos c).
  apply ndigits_unique; [ | | lia].
  - replace (ndigits c + j - 1)%Z with ((ndigits c - 1) + j)%Z by lia.
    rewrite pow10_add by lia.
    apply N.mul_le_mono_r. now apply ndigits_lower.
  - rewrite pow10_add by lia.
    apply N.mul_lt_mono_pos_r; [apply pow10_pos | apply ndigits_upper].
Qed.

(** ** Rounding to the context *)

Ltac unfold_context :=
  unfold Context.Etop, Context.Etiny, Context.Emax, Context.Emin,
    Context.prec in *.


Lemma round_half_even_exact (c : N) (k : Z) :
  (c mod pow10 k = 0)%N -> round_half_even c k = (c / pow10 k)%N.
Proof.
  intros H. unfold round_half_even. rewrite H.
  pose proof (pow10_pos k).
  now destruct (N.ltb_spec (2 * 0) (pow10 k)); [ | lia].
Qed.

Lemma round_half_even_bounds (c : N) (k : Z) :
  (c / pow10 k <= round_half_even c k <= c / pow10 k + 1)%N.
Proof.
  unfold round_half_even.
  destruct (_ <? _)%N; [lia | ]. destruct (_ <? _)%N; [lia | ].
  destruct (N.even _); lia.
Qed.

Lemma round_half_even_le (c M : N) (k : Z) :
  (c <= M * pow10 k)%N -> (round_half_even c k <= M)%N.
Proof.
  intros H. pose proof (pow10_pos k) as Hp.
  assert (Hq : (c / pow10 k <= M)%N).
  { apply N.Div0.div_le_upper_bound. lia. }
  destruct (N.eq_dec (c / pow10 k)%N M) as [Heq | Hne].
  - assert (Hr : (c mod pow10 k = 0)%N).
    { pose proof (N.Div0.div_mod c (pow10 k)) as Hdm. rewrite Heq in Hdm.
      rewrite (N.mul_comm (pow10 k) M) in Hdm.
      generalize dependent (c mod pow10 k)%N. generalize dependent (M * pow10 k)%N.
      intros. lia. }
    rewrite round_half_even_exact by exact Hr. lia.
  - pose proof (round_half_even_bounds c k). lia.
Qed.

Lemma fix_sign (s : bool) (c : N) (e : Z) (d : Decimal) :
  fix_ s c e = Ok d -> exists c' e', d = DFin s c' e'.
Proof.
  unfold fix_. destruct (c =? 0)%N; [intros [= <-]; eauto | ].
  destruct (_ <? _)%Z; [discriminate | ].
  destruct (_ <? _)%Z; [ | intros [= <-]; eauto].
  destruct (Context.prec <? _)%Z;
    (destruct (_ <? _)%Z; [discriminate | intros [= <-]; eauto]).
Qed.

Lemma fix_in_context_id (s : bool) (c : N) (e : Z) :
  in_context (DFin s c e) -> fix_ s c e = Ok (DFin s c e).
Proof.
  unfold in_context, fix_, adjusted. intros [Hlo H].
  unfold_context.
  destruct (N.eqb_spec c 0%N) as [-> | Hne].
  - do 2 f_equal. lia.
  - destruct H as [Hnd Hadj].
    destruct (Z.ltb_spec (999999 - 50 + 1) (ndigits c + e - 50)); [lia | ].
    destruct (Z.ltb_spec e (Z.max (ndigits c + e - 50) (-999999 - 50 + 1)));
      [lia | reflexivity].
Qed.

(** What [fix_] returns is a decimal of the context. *)
Lemma fix_in_context (s : bool) (c : N) (e : Z) (d : Decimal) :
  fix_ s c e = Ok d -> in_context d.
Proof.
  unfold fix_.
  destruct (N.eqb_spec c 0%N) as [-> | Hne].
  { intros [= <-]. unfold in_context. simpl.
    unfold_context. lia. }
  pose proof (ndigits_pos c) as Hpos.
  unfold_context.
  destruct (Z.ltb_spec (999999 - 50 + 1) (ndigits c + e - 50)) as [ | Hnov];
    [discriminate | ].
  set (exp_min := Z.max (ndigits c + e - 50) (-999999 - 50 + 1)).
  destruct (Z.ltb_spec e exp_min) as [Hround | Hkeep].
  2: { intros [= <-]. unfold in_context, adjusted.
       destruct (N.eqb_spec c 0%N); [contradiction | ].
       unfold_context. lia. }
  set (k := (exp_min - e)%Z).
  assert (Hk : (0 < k)%Z) by (unfold k; lia).
  assert (Hcoeff : (round_half_even c k <= pow10 50)%N).
  { destruct (Z.le_gt_cases k (ndigits c)) as [Hle | Hgt].
    - apply round_half_even_le.
      replace 50%Z with ((50 - (ndigits c - k)) + (ndigits c - k))%Z by lia.
      rewrite pow10_add by (unfold k, exp_min in *; lia).
      pose proof (ndigits_upper c) as Hup.
      replace (ndigits c) with ((ndigits c - k) + k)%Z in Hup by lia.
      rewrite pow10_add in Hup by lia.
      pose proof (pow10_pos (50 - (ndigits c - k))).
      pose proof (pow10_pos (ndigits c - k)). pose proof (pow10_pos k). nia.
    - pose proof (round_half_even_bounds c k) as [_ Hb].
      assert ((c / pow10 k = 0)%N).
      { apply N.div_small. pose proof (ndigits_upper c).
        pose proof (pow10_le (ndigits c) k ltac:(lia)). lia. }
      assert ((1 <= pow10 50)%N) by (pose proof (pow10_pos 50); lia). lia. }
  destruct (Z.ltb_spec 50 (ndigits (round_half_even c k))) as [Hbig | Hfit].
  - assert (Heq : round_half_even c k = pow10 50).
    { destruct (N.eq_dec (round_half_even c k) (pow10 50)) as [ | Hne'];
        [assumption | ].
      assert (Hlt : (round_half_even c k < pow10 50)%N) by lia.
      apply ndigits_le_of_lt in Hlt; lia. }
    destruct (Z.ltb_spec (999999 - 50 + 1) (exp_min + 1)); [discriminate | ].
    intros [= <-]. rewrite Heq. unfold in_context, adjusted.
    change (pow10 50 / 10)%N with (pow10 49).
    change (pow10 49 =? 0)%N with false. cbv iota.
    change (ndigits (pow10 49)) with 50%Z.
    unfold_context. unfold exp_min in *. lia.
  - destruct (Z.ltb_spec (999999 - 50 + 1) exp_min); [discriminate | ].
    intros [= <-]. unfold in_context, adjusted.
    unfold_context. unfold exp_min in *.
    destruct (N.eqb_spec (round_half_even c k) 0%N); lia.
Qed.

(** ** Printed floats are numeric strings *)

Lemma forallb_str_app (p : ascii -> bool) (a b : string) :
  forallb_str p (a ++ b) = forallb_str p a && forallb_str p b.
Proof.
  induction a as [| c r IH]; simpl; [reflexivity | ].
  now rewrite IH, andb_assoc.
Qed.

Lemma forallb_str_impl (p q : ascii -> bool) (s : string) :
  (forall c, p c = true -> q c = true) ->
  forallb_str p s = true -> forallb_str q s = true.
Proof.
  intros Hpq. induction s as [| c r IH]; simpl; [reflexivity | ].
  intros [Hc Hr]%andb_true_iff. now rewrite (Hpq c Hc), IH.
Qed.

Lemma numeric_char_not_space (c : ascii) :
  numeric_char c = true -> is_space c = false.
Proof. by_ascii_cases c. Qed.

Lemma numeric_char_not_underscore (c : ascii) :
  numeric_char c = true -> Ascii.eqb c "_" = false.
Proof. by_ascii_cases c. Qed.

Lemma is_digit_numeric_char (c : ascii) :
  is_digit c = true -> numeric_char c = true.
Proof. unfold numeric_char. now intros ->. Qed.

Lemma lstrip_numeric (s : string) :
  forallb_str numeric_char s = true -> lstrip s = s.
Proof.
  destruct s as [| c r]; simpl; [reflexivity | ].
  intros [Hc _]%andb_true_iff. now rewrite (numeric_char_not_space c Hc).
Qed.

Lemma rstrip_numeric (s : string) :
  forallb_str numeric_char s = true -> rstrip s = s.
Proof.
  induction s as [| c r IH]; simpl; [reflexivity | ].
  intros [Hc Hr]%andb_true_iff.
  now rewrite (numeric_char_not_space c Hc), IH.
Qed.

Lemma remove_underscore_numeric (s : string) :
  forallb_str numeric_char s = true -> remove "_" s = s.
Proof.
  induction s as [| c r IH]; simpl; [reflexivity | ].
  intros [Hc Hr]%andb_true_iff.
  now rewrite (numeric_char_not_underscore c Hc), IH.
Qed.

Lemma span_digits_app (ip rest : string) :
  forallb_str is_digit ip = true ->
  match rest with String c _ => is_digit c = false | "" => True end ->
  span is_digit (ip ++ rest) = (ip, rest).
Proof.
  intros Hip Hrest. induction ip as [| c r IH]; simpl in *.
  - destruct rest as [| c r]; [reflexivity | ]. simpl. now rewrite Hrest.
  - apply andb_true_iff in Hip as [Hc Hr]. now rewrite Hc, IH.
Qed.

Lemma is_digit_digit_char (d : N) : (d < 10)%N -> is_digit (digit_char d) = true.
Proof.
  intros H. unfold is_digit, digit_char, code.
  rewrite N_ascii_embedding by lia.
  apply andb_true_iff. split; apply N.leb_le; lia.
Qed.

Lemma string_of_N_aux_digits (fuel : nat) :
  forall (n : N) (acc : string),
    forallb_str is_digit acc = true ->
    forallb_str is_digit (string_of_N_aux fuel n acc) = true.
Proof.
  induction fuel as [| fuel IH]; intros n acc Hacc; simpl; [exact Hacc | ].
  assert (Hd : is_digit (digit_char (n mod 10)) = true)
    by (apply is_digit_digit_char, N.mod_lt; discriminate).
  destruct (n <? 10)%N; [simpl; now rewrite Hd | ].
  apply IH. simpl. now rewrite Hd.
Qed.

Lemma string_of_N_aux_nonempty (fuel : nat) :
  forall (n : N) (acc : string),
    is_empty acc = false -> is_empty (string_of_N_aux fuel n acc) = false.
Proof.
  induction fuel as [| fuel IH]; intros n acc Hacc; simpl; [exact Hacc | ].
  destruct (n <? 10)%N; [reflexivity | ]. now apply IH.
Qed.

Lemma string_of_N_digits (n : N) : forallb_str is_digit (string_of_N n) = true.
Proof. now apply string_of_N_aux_digits. Qed.

Lemma string_of_N_nonempty (n : N) : is_empty (string_of_N n) = false.
Proof.
  unfold string_of_N. simpl. destruct (n <? 10)%N; [reflexivity | ].
  now apply string_of_N_aux_nonempty.
Qed.

Lemma zeros_digits (n : nat) : forallb_str is_digit (zeros n) = true.
Proof. induction n as [| n IH]; simpl; [reflexivity | exact IH]. Qed.

Lemma take_drop_str (n : nat) (s : string) : take_str n s ++ drop_str n s = s.
Proof.
  revert s. induction n as [| n IH]; intros [| c r]; try reflexivity.
  change (String c (take_str n r ++ drop_str n r) = String c r).
  now rewrite IH.
Qed.

Lemma take_str_digits (n : nat) (s : string) :
  forallb_str is_digit s = true -> forallb_str is_digit (take_str n s) = true.
Proof.
  revert s. induction n as [| n IH]; intros [| c r]; simpl; try reflexivity.
  intros [Hc Hr]%andb_true_iff. now rewrite Hc, IH.
Qed.

Lemma drop_str_digits (n : nat) (s : string) :
  forallb_str is_digit s = true -> forallb_str is_digit (drop_str n s) = true.
Proof.
  revert s. induction n as [| n IH]; intros [| c r]; simpl; try reflexivity;
    try (intros H; exact H).
  intros [Hc Hr]%andb_true_iff. now apply IH.
Qed.

(** The exponent text of a printed float is read back as an exponent. *)
Lemma parse_exponent_format_exp (e : Z) :
  exists E : Z, parse_exponent (String "e" (format_exp e)) = Some E.
Proof.
  unfold format_exp.
  set (ds := string_of_N (Z.abs_N e)).
  assert (Hd : forallb_str is_digit ds = true) by apply string_of_N_digits.
  assert (Hn : is_empty ds = false) by apply string_of_N_nonempty.
  set (dd := if (len ds <? 2)%Z then "0" ++ ds else ds).
  assert (Hdd : negb (is_empty dd) && forallb_str is_digit dd = true).
  { unfold dd. destruct (len ds <? 2)%Z; simpl; now rewrite ?Hd, ?Hn. }
  destruct (e <? 0)%Z; simpl; change ("" ++ dd) with dd; rewrite Hdd; eauto.
Qed.

Lemma format_exp_numeric (e : Z) :
  forallb_str numeric_char (format_exp e) = true.
Proof.
  unfold format_exp.
  assert (Hd : forallb_str numeric_char (string_of_N (Z.abs_N e)) = true).
  { apply (forallb_str_impl is_digit); [apply is_digit_numeric_char | ].
    apply string_of_N_digits. }
  destruct (e <? 0)%Z; destruct (_ <? 2)%Z; simpl; exact Hd.
Qed.

(** A number in the layout [ip], [ip.fp], [ipE] or [ip.fpE] is split by
    [parse_number] into its parts. *)
Lemma parse_number_layout (ip fp : string) (dot : bool) (ex : string) (E : Z) :
  forallb_str is_digit ip = true ->
  forallb_str is_digit fp = true ->
  is_empty ip && is_empty fp = false ->
  (dot = false -> fp = "") ->
  (ex = "" /\ E = 0%Z \/
   exists r, ex = String "e" r /\ parse_exponent ex = Some E) ->
  parse_number (ip ++ (if dot then String "." fp else "") ++ ex)
    = Some (ip, fp, E).
Proof.
  intros Hip Hfp Hne Hdot Hex. unfold parse_number.
  assert (Hexd : match ex with String c _ => is_digit c = false | "" => True end).
  { destruct Hex as [[-> _] | [r [-> _]]]; [exact I | reflexivity]. }
  assert (Hexp : parse_exponent ex = Some E).
  { destruct Hex as [[-> ->] | [r [_ H]]]; [reflexivity | exact H]. }
  destruct dot.
  - rewrite span_digits_app by (assumption || reflexivity).
    change (String "." fp ++ ex) with (String "." (fp ++ ex)). cbv iota beta.
    rewrite span_digits_app by assumption.
    now rewrite Hne, Hexp.
  - rewrite (Hdot eq_refl) in *. change ("" ++ ex) with ex.
    rewrite span_digits_app by assumption.
    destruct Hex as [[-> ->] | [r [-> H]]].
    + now rewrite Hne.
    + cbv iota beta. now rewrite Hne, H.
Qed.

Lemma split_sign_digit (c : ascii) (r : string) :
  is_digit c = true -> split_sign (String c r) = (false, String c r).
Proof.
  destruct c as [[] [] [] [] [] [] [] []]; vm_compute; intros H;
    solve [discriminate H | reflexivity].
Qed.

(** [Decimal] reads a number laid out as [-ip.fpE]. *)
Lemma Decimal_of_str_layout (neg : bool) (ip fp : string) (dot : bool)
    (ex : string) (E : Z) :
  forallb_str is_digit ip = true ->
  forallb_str is_digit fp = true ->
  is_empty ip && is_empty fp = false ->
  (dot = false -> fp = "") ->
  forallb_str numeric_char ex = true ->
  (ex = "" /\ E = 0%Z \/
   exists r, ex = String "e" r /\ parse_exponent ex = Some E) ->
  Decimal_of_str
    ((if neg then "-" else "") ++ ip ++ (if dot then String "." fp else "") ++ ex)
  = Ok (DFin neg (N_of_digits (ip ++ fp)) (E - len fp)).
Proof.
  intros Hip Hfp Hne Hdot Hexn Hex.
  set (body := ip ++ (if dot then String "." fp else "") ++ ex).
  assert (Hbody : forallb_str numeric_char body = true).
  { unfold body. rewrite !forallb_str_app.
    rewrite (forallb_str_impl is_digit numeric_char ip is_digit_numeric_char Hip).
    rewrite Hexn, andb_true_r. simpl.
    destruct dot; [simpl | reflexivity].
    exact (forallb_str_impl is_digit numeric_char fp is_digit_numeric_char Hfp). }
  assert (Hall : forallb_str numeric_char ((if neg then "-" else "") ++ body) = true).
  { rewrite forallb_str_app, Hbody. now destruct neg. }
  unfold Decimal_of_str, strip.
  rewrite (lstrip_numeric _ Hall), (rstrip_numeric _ Hall),
    (remove_underscore_numeric _ Hall).
  assert (Hsplit : split_sign ((if neg then "-" else "") ++ body) = (neg, body)).
  { destruct neg; [reflexivity | ]. change ("" ++ body) with body.
    unfold body. destruct ip as [| c r].
    - destruct dot; [reflexivity | ].
      rewrite (Hdot eq_refl) in Hne. discriminate Hne.
    - simpl in Hip. apply andb_true_iff in Hip as [Hc _].
      exact (split_sign_digit c _ Hc). }
  rewrite Hsplit. unfold body.
  now rewrite (parse_number_layout ip fp dot ex E).
Qed.

Lemma str_app_nil_r (s : string) : s ++ "" = s.
Proof.
  induction s as [| c r IH]; [reflexivity | ].
  change (String c (r ++ "") = String c r). now rewrite IH.
Qed.

Lemma str_app_assoc (a b c : string) : (a ++ b) ++ c = a ++ (b ++ c).
Proof.
  induction a as [| x r IH]; [reflexivity | ].
  change (String x ((r ++ b) ++ c) = String x (r ++ (b ++ c))). now rewrite IH.
Qed.

(** The four layouts of [format_short]. *)
Lemma format_short_layout (digits : string) (decpt : Z) :
  forallb_str is_digit digits = true ->
  is_empty digits = false ->
  exists (ip fp : string) (dot : bool) (ex : string) (E : Z),
    format_short digits decpt = ip ++ (if dot then String "." fp else "") ++ ex /\
    forallb_str is_digit ip = true /\
    forallb_str is_digit fp = true /\
    is_empty ip = false /\
    (dot = false -> fp = "") /\
    forallb_str numeric_char ex = true /\
    (ex = "" /\ E = 0%Z \/
     exists r, ex = String "e" r /\ parse_exponent ex = Some E).
Proof.
  intros Hd Hne. unfold format_short.
  destruct digits as [| d r]; [discriminate | ].
  simpl in Hd. apply andb_true_iff in Hd as [Hdc Hdr].
  destruct ((decpt <=? -4) || (16 <? decpt))%Z.
  { destruct (parse_exponent_format_exp (decpt - 1)) as [E HE].
    destruct r as [| c r'].
    - exists (String d ""), "", false, (String "e" (format_exp (decpt - 1))), E.
      simpl. rewrite Hdc, format_exp_numeric. repeat split; eauto.
    - exists (String d ""), (String c r'), true,
        (String "e" (format_exp (decpt - 1))), E.
      split; [reflexivity | ].
      simpl forallb_str at 1. rewrite Hdc, Hdr.
      change (forallb_str numeric_char (String "e" (format_exp (decpt - 1))))
        with (forallb_str numeric_char (format_exp (decpt - 1))).
      rewrite format_exp_numeric. repeat split; eauto. discriminate. }
  destruct (Z.leb_spec decpt 0) as [Hle | Hgt].
  { exists "0", (zeros (Z.to_nat (- decpt)) ++ String d r), true, "", 0%Z.
    split; [simpl; now rewrite !str_app_nil_r | ].
    rewrite forallb_str_app, zeros_digits. simpl. rewrite Hdc, Hdr.
    repeat split; eauto. discriminate. }
  destruct (Z.ltb_spec decpt (len (String d r))) as [Hlt | Hge].
  { exists (take_str (Z.to_nat decpt) (String d r)),
      (drop_str (Z.to_nat decpt) (String d r)), true, "", 0%Z.
    split; [now rewrite str_app_nil_r | ].
    rewrite take_str_digits, drop_str_digits by (simpl; now rewrite Hdc, Hdr).
    repeat split; eauto; [ | discriminate].
    destruct (Z.to_nat decpt) as [| n] eqn:Hn; [lia | reflexivity]. }
  exists (String d r ++ zeros (Z.to_nat (decpt - len (String d r)))),
    "0", true, "", 0%Z.
  split; [now rewrite str_app_assoc | ].
  rewrite forallb_str_app, zeros_digits. simpl. rewrite Hdc, Hdr.
  repeat split; eauto. discriminate.
Qed.

(** [Decimal] reads the [repr] of every finite float, as a finite decimal
    of the float's sign. *)
Lemma Decimal_of_str_float_repr (f : float) :
  isfinite f = true ->
  exists (c : N) (e : Z),
    Decimal_of_str (float_repr f) = Ok (DFin (float_sign f) c e).
Proof.
  destruct f as [s | s | | s m e]; try discriminate; intros _.
  - destruct s; simpl; eauto.
  - unfold float_repr.
    destruct (shortest 17 m e _) as [D k].
    destruct (strip_zeros (N.size_nat D) D k) as [D' k'].
    destruct (format_short_layout (string_of_N D') (k' + len (string_of_N D'))
                (string_of_N_digits D') (string_of_N_nonempty D'))
      as (ip & fp & dot & ex & E & Heq & Hip & Hfp & Hne & Hdot & Hexn & Hex).
    rewrite Heq. simpl float_sign.
    rewrite (Decimal_of_str_layout s ip fp dot ex E); eauto.
    now rewrite Hne.
Qed.

(** ** Magnitudes are never negative *)

Lemma Decimal_lt_zero (d : Decimal) :
  Decimal_lt d zero =
    match d with
    | DFin s c _ => Ok (s && negb (c =? 0)%N)
    | DInf s => Ok s
    | DNaN _ => Raise (DecimalException InvalidOperation)
    end.
Proof.
  destruct d as [s c e | s | g]; [ | now destruct s | reflexivity].
  unfold Decimal_lt, Decimal_cmp, zero, Decimal_of_int. simpl.
  destruct (c =? 0)%N; destruct s; reflexivity.
Qed.

Lemma StorageValue_init_decimal (d : Decimal) (u : StorageUnit) (r : StorageValue) :
  StorageValue_init (VDecimal d) u = Ok r -> r = mkStorageValue d u /\ nonneg d.
Proof.
  unfold StorageValue_init. simpl. rewrite Decimal_lt_zero.
  destruct d as [s c e | s | g]; simpl; [ | | discriminate].
  - destruct s; simpl; [ | intros [= <-]; auto].
    destruct (N.eqb_spec c 0%N) as [-> | Hne]; simpl; [ | discriminate].
    intros [= <-]; auto.
  - destruct s; [discriminate | intros [= <-]; auto].
Qed.

Lemma StorageValue_init_decimal_nonneg (d : Decimal) (u : StorageUnit) :
  nonneg d -> StorageValue_init (VDecimal d) u = Ok (mkStorageValue d u).
Proof.
  unfold StorageValue_init. simpl. rewrite Decimal_lt_zero.
  destruct d as [s c e | s | g]; simpl; [ | now intros -> | contradiction].
  intros [-> | ->]; [reflexivity | ]. now destruct s.
Qed.

Lemma StorageValue_init_nonneg (v : value) (u : StorageUnit) (r : StorageValue) :
  StorageValue_init v u = Ok r -> nonneg (decimal_value r) /\ unit r = u.
Proof.
  destruct v as [z | f | s | d].
  - rewrite StorageValue_init_int. destruct (z <? 0)%Z eqn:Hz; [discriminate | ].
    intros [= <-]. simpl. rewrite Hz. auto.
  - unfold StorageValue_init. simpl.
    destruct (float_lt_zero f) eqn:Hlt; [discriminate | ].
    destruct (isfinite f) eqn:Hfin; [ | discriminate]. simpl.
    destruct (Decimal_of_str_float_repr f Hfin) as (c & e & Hd).
    destruct f as [s0 | s0 | | s0 m e0]; try discriminate.
    + destruct s0; vm_compute; intros [= <-]; simpl; auto.
    + rewrite Hd. simpl. intros [= <-]. simpl.
      destruct s0; [discriminate Hlt | auto].
  - discriminate.
  - intros H. apply StorageValue_init_decimal in H as [-> H]. auto.
Qed.

Lemma bind_ok {A B : Type} (r : result A) (k : A -> result B) (y : B) :
  bind r k = Ok y -> exists a, r = Ok a /\ k a = Ok y.
Proof. destruct r as [a | e]; simpl; [eauto | discriminate]. Qed.

Lemma bind_Ok {A B : Type} (a : A) (k : A -> result B) : bind (Ok a) k = k a.
Proof. reflexivity. Qed.

Ltac bind_inv H :=
  let a := fresh "a" in
  let Ha := fresh "Ha" in
  apply bind_ok in H as (a & Ha & H).




Lemma divide_with_nonneg (op : Decimal -> Decimal -> result Decimal)
    (l : StorageValue) (divisor : value) (x : StorageValue) :
  divide_with op l divisor = Ok x ->
  nonneg (decimal_value x) /\ unit x = unit l.
Proof.
  unfold divide_with. intros H. destruct (negb _); [discriminate | ].
  bind_inv H. destruct a; [discriminate | ]. do 2 bind_inv H.
  now apply StorageValue_init_nonneg in H.
Qed.


(** ** Where rounding cannot overflow *)

(** A result no larger than a decimal of the context is rounded without
    overflow. *)
Lemma fix_bounded (s : bool) (c : N) (e : Z) (M : N) (eM : Z) :
  M <> 0%N -> (ndigits M <= Context.prec)%Z ->
  (adjusted M eM <= Context.Emax)%Z ->
  (e <= eM)%Z -> (c <= M * pow10 (eM - e))%N ->
  exists c' e', fix_ s c e = Ok (DFin s c' e').
Proof.
  intros HM Hnd Hadj Hle Hc. unfold fix_, adjusted in *.
  destruct (N.eqb_spec c 0%N) as [-> | Hne]; [eauto | ].
  assert (Hndc : (ndigits c <= ndigits M + (eM - e))%Z).
  { rewrite <- ndigits_mul_pow10 by (assumption || lia). now apply ndigits_mono. }
  pose proof (ndigits_pos c) as Hpos. pose proof (ndigits_pos M) as HposM.
  unfold_context.
  destruct (Z.ltb_spec (999999 - 50 + 1) (ndigits c + e - 50)); [lia | ].
  set (exp_min := Z.max (ndigits c + e - 50) (-999999 - 50 + 1)).
  destruct (Z.ltb_spec e exp_min) as [Hround | Hkeep]; [ | eauto].
  set (k := (exp_min - e)%Z).
  destruct (Z.ltb_spec 50 (ndigits (round_half_even c k))) as [Hbig | Hfit].
  - destruct (Z.ltb_spec (999999 - 50 + 1) (exp_min + 1)) as [Hov | ]; [ | eauto].
    exfalso.
    assert (Hk : k = (ndigits M + (eM - e) - 50)%Z) by (unfold k, exp_min in *; lia).
    assert (Hcoeff : (round_half_even c k <= M * pow10 (eM - e - k))%N).
    { apply round_half_even_le. rewrite <- N.mul_assoc, <- pow10_add by lia.
      now replace (eM - e - k + k)%Z with (eM - e)%Z by lia. }
    assert (Hlt : (M * pow10 (eM - e - k) < pow10 50)%N).
    { replace 50%Z with (ndigits M + (eM - e - k))%Z by lia.
      rewrite pow10_add by lia.
      apply N.mul_lt_mono_pos_r; [apply pow10_pos | apply ndigits_upper]. }
    assert (Hfin : (ndigits (round_half_even c k) <= 50)%Z)
      by (apply ndigits_le_of_lt; lia).
    lia.
  - destruct (Z.ltb_spec (999999 - 50 + 1) exp_min); [ | eauto].
    unfold exp_min in *. lia.
Qed.

(** The difference of two decimals of the context that are [>= 0] is
    there: no signal is raised. *)
Lemma Decimal_sub_in_context (a b : Decimal) :
  in_context a -> in_context b -> nonneg a -> nonneg b ->
  exists s c e, Decimal_sub a b = Ok (DFin s c e).
Proof.
  destruct a as [sa ca ea | | ]; try contradiction.
  destruct b as [sb cb eb | | ]; try contradiction.
  intros [_ Ha] [_ Hb] Hna Hnb. simpl in Hna, Hnb.
  unfold Decimal_sub, Decimal_add. simpl.
  assert (HposA := pow10_pos (ea - Z.min ea eb)).
  assert (HposB := pow10_pos (eb - Z.min ea eb)).
  assert (HfixA : forall s c, ca <> 0%N ->
            (c <= ca * pow10 (ea - Z.min ea eb))%N ->
            exists c' e', fix_ s c (Z.min ea eb) = Ok (DFin s c' e')).
  { intros s c Hne Hc. destruct (N.eqb_spec ca 0%N); [contradiction | ].
    apply (fix_bounded s c _ ca ea); (lia || tauto). }
  assert (HfixB : forall s c, cb <> 0%N ->
            (c <= cb * pow10 (eb - Z.min ea eb))%N ->
            exists c' e', fix_ s c (Z.min ea eb) = Ok (DFin s c' e')).
  { intros s c Hne Hc. destruct (N.eqb_spec cb 0%N); [contradiction | ].
    apply (fix_bounded s c _ cb eb); (lia || tauto). }
  set (e := Z.min ea eb) in *.
  set (xa := (ca * pow10 (ea - e))%N). set (xb := (cb * pow10 (eb - e))%N).
  assert (Hfix : forall s c, (c <= xa)%N \/ (c <= xb)%N ->
            exists c' e', fix_ s c e = Ok (DFin s c' e')).
  { intros s c Hc.
    destruct (N.eq_dec c 0%N) as [-> | Hc0]; [unfold fix_; simpl; eauto | ].
    destruct Hc as [Hc | Hc].
    - apply HfixA; [ | exact Hc]. intros ->. unfold xa in Hc. lia.
    - apply HfixB; [ | exact Hc]. intros ->. unfold xb in Hc. lia. }
  destruct ((ca =? 0)%N && (cb =? 0)%N).
  { destruct (Hfix (sa && negb sb) 0%N ltac:(lia)) as (c' & e' & ->). eauto. }
  destruct (eqb sa (negb sb)) eqn:Hs.
  { assert (Hsum : (xa + xb <= xa)%N \/ (xa + xb <= xb)%N).
    { destruct Hna as [-> | ->]; [ | right; unfold xa; lia].
      destruct Hnb as [-> | ->]; [discriminate Hs | left; unfold xb; lia]. }
    destruct (Hfix sa (xa + xb)%N Hsum) as (c' & e' & ->). eauto. }
  destruct (xa =? xb)%N.
  { destruct (Hfix false 0%N ltac:(lia)) as (c' & e' & ->). eauto. }
  destruct (xa <? xb)%N.
  - destruct (Hfix (negb sb) (xb - xa)%N ltac:(lia)) as (c' & e' & ->). eauto.
  - destruct (Hfix sa (xa - xb)%N ltac:(lia)) as (c' & e' & ->). eauto.
Qed.

Lemma to_bytes_in_context (unit_value : StorageUnit -> Decimal)
    (v : StorageValue) (b : Decimal) :
  positive_finite (unit_value (unit v)) ->
  finite (decimal_value v) -> nonneg (decimal_value v) ->
  to_bytes unit_value v = Ok b -> in_context b /\ nonneg b.
Proof.
  unfold to_bytes. intros (cu & eu & -> & Hcu).
  destruct (decimal_value v) as [s c e | | ]; try contradiction.
  intros _ Hn. unfold Decimal_mul. simpl. intros H.
  split; [exact (fix_in_context _ _ _ _ H) | ].
  destruct Hn as [-> | ->].
  - apply fix_sign in H as (c' & e' & ->). simpl. auto.
  - unfold fix_ in H. rewrite N.mul_0_l in H. simpl in H.
    injection H as <-. simpl. auto.
Qed.



(** ** Division *)

Lemma value_le_zero_non_positive (d : value) :
  non_positive d -> value_le_zero d = Ok true.
Proof.
  unfold non_positive, value_sign, value_le_zero.
  destruct d as [z | f | s | [s c e | s | g]].
  - intros H. f_equal. apply Z.leb_le.
    destruct H as [[= H] | [= H]];
      [rewrite Z.compare_lt_iff in H | rewrite Z.compare_eq_iff in H]; lia.
  - unfold float_le_zero, SFleb. now intros [-> | ->].
  - now intros [H | H].
  - unfold Decimal_le, Decimal_cmp, zero, Decimal_of_int. simpl.
    destruct (c =? 0)%N; [reflexivity | ].
    destruct s; [reflexivity | now intros [H | H]].
  - destruct s; [reflexivity | now intros [H | H]].
  - now intros [H | H].
Qed.

Lemma value_le_zero_positive (d : value) :
  positive_value d -> value_le_zero d = Ok false.
Proof.
  unfold positive_value, value_sign, value_le_zero.
  destruct d as [z | f | s | [s c e | s | g]]; try discriminate.
  - intros [= H]. f_equal. apply Z.leb_gt. rewrite Z.compare_gt_iff in H. lia.
  - unfold float_le_zero, SFleb. now intros ->.
  - unfold Decimal_le, Decimal_cmp, zero, Decimal_of_int. simpl.
    destruct (c =? 0)%N; [discriminate | ]. now destruct s.
  - now destruct s.
Qed.

Lemma divide_with_non_positive (op : Decimal -> Decimal -> result Decimal)
    (l : StorageValue) (d : value) :
  is_numeric d = true -> non_positive d ->
  divide_with op l d = Raise NonPositiveDivisor.
Proof.
  intros Hnum Hd. unfold divide_with.
  now rewrite Hnum, (value_le_zero_non_positive d Hd).
Qed.

Lemma fix_cases (s : bool) (c : N) (e : Z) :
  fix_ s c e = Raise (DecimalException Overflow) \/
  exists c' e', fix_ s c e = Ok (DFin s c' e') /\ (c = 0%N -> c' = 0%N).
Proof.
  unfold fix_. destruct (N.eqb_spec c 0%N) as [-> | Hne]; [right; eauto | ].
  destruct (_ <? _)%Z; [now left | ].
  destruct (_ <? _)%Z; [ | right; eauto].
  destruct (Context.prec <? _)%Z;
    (destruct (_ <? _)%Z; [now left | right; eexists _, _; split; [reflexivity | ]]);
    intros; contradiction.
Qed.

Lemma Decimal_truediv_cases (sa : bool) (ca : N) (ea : Z) (sb : bool) (cb : N) (eb : Z) :
  cb <> 0%N ->
  Decimal_truediv (DFin sa ca ea) (DFin sb cb eb) = Raise (DecimalException Overflow) \/
  exists c' e',
    Decimal_truediv (DFin sa ca ea) (DFin sb cb eb) = Ok (DFin (xorb sa sb) c' e') /\
    (ca = 0%N -> c' = 0%N).
Proof.
  intros Hb. unfold Decimal_truediv. simpl.
  destruct (N.eqb_spec cb 0%N); [contradiction | ].
  destruct (N.eqb_spec ca 0%N) as [-> | Hne].
  { destruct (fix_cases (xorb sa sb) 0 (ea - eb)) as [-> | (c' & e' & -> & Hc)];
      [now left | right; eauto]. }
  destruct (if (0 <=? _)%Z then _ else _) as [coeff remainder].
  destruct (remainder =? 0)%N.
  - destruct (to_ideal_exp _ _ _ _) as [coeff' e'].
    destruct (fix_cases (xorb sa sb) coeff' e') as [-> | (c' & e'' & -> & _)];
      [now left | right; eexists _, _; split; [reflexivity | intros; contradiction]].
  - destruct (fix_cases (xorb sa sb)
                (if (coeff mod 5 =? 0)%N then (coeff + 1)%N else coeff)
                (ea - eb - (ndigits cb - ndigits ca + Context.prec + 1)))
      as [-> | (c' & e'' & -> & _)];
      [now left | right; eexists _, _; split; [reflexivity | intros; contradiction]].
Qed.

Lemma divide_cases (sa : bool) (ca : N) (ea : Z) (sb : bool) (cb : N) (eb : Z) :
  divide_ sa ca ea sb cb eb = Raise (DecimalException InvalidOperation) \/
  exists q r e,
    divide_ sa ca ea sb cb eb = Ok (DFin (xorb sa sb) q 0, DFin sa r e) /\
    (ca = 0%N -> q = 0%N /\ r = 0%N).
Proof.
  unfold divide_.
  destruct (N.eqb_spec ca 0%N) as [-> | Hne]; simpl.
  { right. eexists _, _, _. split; [reflexivity | ]. now rewrite N.mul_0_l. }
  destruct (_ <=? -2)%Z.
  { right. eexists _, _, _. split; [reflexivity | intros; contradiction]. }
  destruct (_ <=? _)%Z; [ | now left].
  destruct (N.div_eucl _ _) as [q r].
  destruct (q <? _)%N; [ | now left].
  right. eexists _, _, _. split; [reflexivity | intros; contradiction].
Qed.

Lemma Decimal_floordiv_cases (sa : bool) (ca : N) (ea : Z) (sb : bool) (cb : N) (eb : Z) :
  cb <> 0%N ->
  Decimal_floordiv (DFin sa ca ea) (DFin sb cb eb)
    = Raise (DecimalException InvalidOperation) \/
  exists q,
    Decimal_floordiv (DFin sa ca ea) (DFin sb cb eb) = Ok (DFin (xorb sa sb) q 0) /\
    (ca = 0%N -> q = 0%N).
Proof.
  intros Hb. unfold Decimal_floordiv. simpl.
  destruct (N.eqb_spec cb 0%N); [contradiction | ].
  destruct (divide_cases sa ca ea sb cb eb) as [-> | (q & r & e & -> & H)];
    [now left | right].
  exists q. split; [reflexivity | ]. intros Hc. now apply H.
Qed.

Lemma Decimal_mod_cases (sa : bool) (ca : N) (ea : Z) (sb : bool) (cb : N) (eb : Z) :
  cb <> 0%N ->
  Decimal_mod (DFin sa ca ea) (DFin sb cb eb)
    = Raise (DecimalException InvalidOperation) \/
  Decimal_mod (DFin sa ca ea) (DFin sb cb eb)
    = Raise (DecimalException Overflow) \/
  exists c' e',
    Decimal_mod (DFin sa ca ea) (DFin sb cb eb) = Ok (DFin sa c' e') /\
    (ca = 0%N -> c' = 0%N).
Proof.
  intros Hb. unfold Decimal_mod. simpl.
  destruct (N.eqb_spec cb 0%N); [contradiction | ].
  destruct (divide_cases sa ca ea sb cb eb) as [-> | (q & r & e & -> & H)];
    [now left | right].
  rewrite bind_Ok. simpl snd.
  destruct (fix_cases sa r e) as [-> | (c' & e' & -> & Hc)]; [now left | right].
  exists c', e'. split; [reflexivity | ]. intros Hca. apply Hc. now apply H.
Qed.

Lemma divide_with_ok (op : Decimal -> Decimal -> result Decimal)
    (l : StorageValue) (d : value) (db r : Decimal) :
  is_numeric d = true -> value_le_zero d = Ok false -> to_decimal d = Ok db ->
  op (decimal_value l) db = Ok r -> nonneg r ->
  divide_with op l d = Ok (mkStorageValue r (unit l)).
Proof.
  intros Hnum Hle Hd Hop Hr. unfold divide_with.
  rewrite Hnum, Hle, Hd. simpl. rewrite Hop. simpl.
  now apply StorageValue_init_decimal_nonneg.
Qed.

Lemma divide_with_raise (op : Decimal -> Decimal -> result Decimal)
    (l : StorageValue) (d : value) (db : Decimal) (e : exn) :
  is_numeric d = true -> value_le_zero d = Ok false -> to_decimal d = Ok db ->
  op (decimal_value l) db = Raise e ->
  divide_with op l d = Raise e.
Proof.
  intros Hnum Hle Hd Hop. unfold divide_with.
  rewrite Hnum, Hle, Hd. simpl. now rewrite Hop.
Qed.

(** The decimal form of a number above zero has no sign. *)
Lemma to_decimal_positive (d : value) (s : bool) (c : N) (e : Z) :
  positive_value d -> to_decimal d = Ok (DFin s c e) -> s = false.
Proof.
  unfold positive_value, value_sign, to_decimal.
  destruct d as [z | f | str | [s' c' e' | s' | g]]; try discriminate.
  - intros [= H]. rewrite Z.compare_gt_iff in H. intros [= <- _ _].
    apply Z.ltb_ge. lia.
  - intros Hf Hd.
    destruct f as [s0 | s0 | | s0 m e0]; try discriminate.
    + destruct s0; vm_compute in Hd; discriminate.
    + destruct (Decimal_of_str_float_repr (S754_finite s0 m e0) eq_refl)
        as (c' & e' & Hd').
      rewrite Hd' in Hd. injection Hd as <- _ _. simpl.
      now destruct s0.
  - intros [= H] [= <- <- <-].
    destruct (c' =? 0)%N; [discriminate | ]. now destruct s'.
Qed.

(** C7, as the code has it. For a numeric divisor [d]: the three divisions
    raise NonPositiveDivisor whenever [d <= 0], zero and the negative
    numbers alike; whatever they return is a value in the unit of the left
    operand; and for [d > 0] (finite, and a left operand that is finite and
    [>= 0]) each of them returns such a value unless the decimal module
    signals: Overflow in [divide], InvalidOperation in [floor_divide] and
    either of the two in [modulo]. *)
Theorem division_sign_policy :
  forall (l : StorageValue) (d : value),
    is_numeric d = true ->
    (non_positive d ->
     divide l d = Raise NonPositiveDivisor /\
     floor_divide l d = Raise NonPositiveDivisor /\
     modulo l d = Raise NonPositiveDivisor) /\
    (forall x,
       divide l d = Ok x \/ floor_divide l d = Ok x \/ modulo l d = Ok x ->
       unit x = unit l) /\
    (forall s c e,
       positive_value d -> to_decimal d = Ok (DFin s c e) -> c <> 0%N ->
       finite (decimal_value l) -> nonneg (decimal_value l) ->
       (divide l d = Raise (DecimalException Overflow) \/
        exists x, divide l d = Ok x /\ unit x = unit l) /\
       (floor_divide l d = Raise (DecimalException InvalidOperation) \/
        exists x, floor_divide l d = Ok x /\ unit x = unit l) /\
       (modulo l d = Raise (DecimalException InvalidOperation) \/
        modulo l d = Raise (DecimalException Overflow) \/
        exists x, modulo l d = Ok x /\ unit x = unit l)) /\
    divide l (VInt (-1)) = Raise NonPositiveDivisor /\
    divide l (VInt 0) = Raise NonPositiveDivisor.
Proof.
  intros l d Hnum. split; [ | split; [ | split]].
  - intros Hd. unfold divide, floor_divide, modulo.
    now rewrite !divide_with_non_positive.
  - intros x [H | [H | H]]; now apply divide_with_nonneg in H.
  - intros s c e Hpos Hd Hc Hfin Hnn.
    assert (Hs : s = false) by exact (to_decimal_positive d s c e Hpos Hd).
    subst s.
    assert (Hle := value_le_zero_positive d Hpos).
    destruct (decimal_value l) as [sa ca ea | | ] eqn:Hl; try contradiction.
    assert (Hres : forall c' e', (ca = 0%N -> c' = 0%N) ->
              nonneg (DFin (xorb sa false) c' e')).
    { intros c' e' H0. simpl. destruct Hnn as [-> | ->]; [now left | right; auto]. }
    unfold divide, floor_divide, modulo. split; [ | split].
    + destruct (Decimal_truediv_cases sa ca ea false c e Hc)
        as [Hr | (c' & e' & Hr & H0)].
      * left. apply (divide_with_raise _ l d (DFin false c e)); try assumption.
        now rewrite Hl.
      * right. eexists (mkStorageValue _ (unit l)). split; [ | reflexivity].
        apply (divide_with_ok _ l d (DFin false c e)); try assumption;
          [rewrite Hl; exact Hr | now apply Hres].
    + destruct (Decimal_floordiv_cases sa ca ea false c e Hc)
        as [Hr | (q & Hr & H0)].
      * left. apply (divide_with_raise _ l d (DFin false c e)); try assumption.
        now rewrite Hl.
      * right. eexists (mkStorageValue _ (unit l)). split; [ | reflexivity].
        apply (divide_with_ok _ l d (DFin false c e)); try assumption;
          [rewrite Hl; exact Hr | now apply Hres].
    + destruct (Decimal_mod_cases sa ca ea false c e Hc)
        as [Hr | [Hr | (c' & e' & Hr & H0)]].
      * left. apply (divide_with_raise _ l d (DFin false c e)); try assumption.
        now rewrite Hl.
      * right; left.
        apply (divide_with_raise _ l d (DFin false c e)); try assumption.
        now rewrite Hl.
      * right; right. eexists (mkStorageValue _ (unit l)). split; [ | reflexivity].
        apply (divide_with_ok _ l d (DFin false c e)); try assumption;
          [rewrite Hl; exact Hr | ].
        specialize (Hres c' e' H0). now rewrite xorb_false_r in Hres.
  - split; reflexivity.
Qed.

Lemma division_sign_policy_witness :
  divide (mkStorageValue (Decimal_of_int 2) KIB) (VDecimal (DFin true 5 (-1)))
    = Raise NonPositiveDivisor /\
  (divide (mkStorageValue (Decimal_of_int 2) KIB) (VInt 2)
     = Raise (DecimalException Overflow) \/
   exists x, divide (mkStorageValue (Decimal_of_int 2) KIB) (VInt 2) = Ok x /\
             unit x = KIB).
Proof.
  split.
  - destruct (division_sign_policy (mkStorageValue (Decimal_of_int 2) KIB)
                (VDecimal (DFin true 5 (-1))) eq_refl) as (Hnp & _).
    apply Hnp. left. reflexivity.
  - destruct (division_sign_policy (mkStorageValue (Decimal_of_int 2) KIB)
                (VInt 2) eq_refl) as [_ [_ [Hp _]]].
    destruct (Hp false 2%N 0%Z) as [Hdiv _];
      [reflexivity | reflexivity | intros H; discriminate H | exact I
      | left; reflexivity | exact Hdiv].
Defined.

(** C7, as stated, fails: one is a positive divisor, and [floor_divide]
    does not return on a magnitude of 61 digits. *)
Lemma floor_divide_positive_divisor_raises :
  positive_value (VInt 1) /\
  floor_divide (mkStorageValue (Decimal_of_int (10 ^ 60)) BYTES) (VInt 1)
    = Raise (DecimalException InvalidOperation).
Proof. split; vm_compute; reflexivity. Qed.

(** ** Floats *)

(** C10. A finite float that is not below zero is stored through its
    string: the magnitude is the decimal that [Decimal] reads in [str(f)],
    which it always reads. So the float 0.1 is stored as the decimal 0.1,
    and not as the 55-place decimal that the float is exactly. *)
Theorem StorageValue_init_float :
  forall (f : float) (u : StorageUnit),
    isfinite f = true -> float_lt_zero f = false ->
    (exists d : Decimal,
       Decimal_of_str (float_repr f) = Ok d /\
       StorageValue_init (VFloat f) u = Ok (mkStorageValue d u)) /\
    float_repr one_tenth = "0.1" /\
    StorageValue_init (VFloat one_tenth) u
      = Ok (mkStorageValue (DFin false 1 (-1)) u) /\
    Decimal_from_float one_tenth
      = DFin false 1000000000000000055511151231257827021181583404541015625 (-55) /\
    Decimal_cmp (DFin false 1 (-1)) (Decimal_from_float one_tenth) = Lt.
Proof.
  intros f u Hfin Hlt. split; [ | repeat split; vm_compute; reflexivity].
  destruct (Decimal_of_str_float_repr f Hfin) as (c & e & Hd).
  exists (DFin (float_sign f) c e). split; [exact Hd | ].
  unfold StorageValue_init. simpl. now rewrite Hlt, Hfin, Hd.
Qed.

Lemma StorageValue_init_float_witness :
  exists d : Decimal,
    Decimal_of_str (float_repr one_tenth) = Ok d /\
    StorageValue_init (VFloat one_tenth) GB = Ok (mkStorageValue d GB).
Proof.
  apply (StorageValue_init_float one_tenth GB); reflexivity.
Defined.


(** ** The parser: the pattern *)

Lemma span_spec (p : ascii -> bool) (s a b : string) :
  span p s = (a, b) ->
  s = a ++ b /\ forallb_str p a = true /\
  match b with String c _ => p c = false | "" => True end.
Proof.
  revert a b. induction s as [| c r IH]; intros a b; simpl.
  - intros [= <- <-]. auto.
  - destruct (p c) eqn:Hc.
    + destruct (span p r) as [a' b'] eqn:Hs. intros [= <- <-].
      destruct (IH a' b' eq_refl) as (-> & Ha & Hb).
      simpl. rewrite Hc. auto.
    + intros [= <- <-]. simpl. auto.
Qed.

Lemma span_app (p : ascii -> bool) (a rest : string) :
  forallb_str p a = true ->
  match rest with String c _ => p c = false | "" => True end ->
  span p (a ++ rest) = (a, rest).
Proof.
  intros Ha Hrest. induction a as [| c r IH]; simpl in *.
  - destruct rest as [| c r]; [reflexivity | ]. simpl. now rewrite Hrest.
  - apply andb_true_iff in Ha as [Hc Hr]. now rewrite Hc, IH.
Qed.

Lemma is_empty_true (s : string) : is_empty s = true -> s = "".
Proof. now destruct s. Qed.

Lemma pattern_tail_sound (v rest v' u : string) :
  pattern_tail v rest = Some (v', u) ->
  v' = v /\
  exists ws tail,
    rest = ws ++ u ++ tail /\ forallb_str is_space ws = true /\
    forallb_str is_letter u = true /\ (tail = "" \/ tail = String "010" "").
Proof.
  unfold pattern_tail.
  destruct (span is_space rest) as [ws r1] eqn:H1.
  destruct (span is_letter r1) as [u0 r2] eqn:H2.
  destruct (span_spec _ _ _ _ H1) as (-> & Hws & _).
  destruct (span_spec _ _ _ _ H2) as (-> & Hu & _).
  destruct (is_empty r2 || (r2 =? String "010" ""))%string eqn:Hend;
    [ | discriminate].
  intros [= <- <-]. split; [reflexivity | ]. exists ws, r2.
  repeat split; try assumption.
  apply orb_true_iff in Hend as [He | He];
    [left; now apply is_empty_true | right; now apply String.eqb_eq].
Qed.

Lemma space_not_letter (c : ascii) : is_space c = true -> is_letter c = false.
Proof. by_ascii_cases c. Qed.

Lemma letter_not_space (c : ascii) : is_letter c = true -> is_space c = false.
Proof. by_ascii_cases c. Qed.

Lemma space_not_digit (c : ascii) : is_space c = true -> is_digit c = false.
Proof. by_ascii_cases c. Qed.

Lemma letter_not_digit (c : ascii) : is_letter c = true -> is_digit c = false.
Proof. by_ascii_cases c. Qed.

Lemma space_not_dot (c : ascii) : is_space c = true -> Ascii.eqb c "." = false.
Proof. by_ascii_cases c. Qed.

Lemma letter_not_dot (c : ascii) : is_letter c = true -> Ascii.eqb c "." = false.
Proof. by_ascii_cases c. Qed.

Lemma pattern_tail_complete (v ws u tail : string) :
  forallb_str is_space ws = true ->
  forallb_str is_letter u = true ->
  (tail = "" \/ tail = String "010" "") ->
  pattern_tail v (ws ++ u ++ tail) = Some (v, u).
Proof.
  intros Hws Hu Htail. unfold pattern_tail.
  destruct u as [| c r].
  - (* no unit: a final newline is white space *)
    assert (Hall : forallb_str is_space (ws ++ tail) = true).
    { rewrite forallb_str_app, Hws. now destruct Htail as [-> | ->]. }
    change ("" ++ tail) with tail.
    rewrite <- (str_app_nil_r (ws ++ tail)).
    now rewrite (span_app is_space (ws ++ tail) "" Hall I).
  - simpl in Hu. apply andb_true_iff in Hu as [Hc Hr].
    rewrite (span_app is_space ws (String c r ++ tail) Hws)
      by (simpl; now apply letter_not_space).
    rewrite (span_app is_letter (String c r) tail)
      by (simpl; try (now rewrite Hc, Hr); now destruct Htail as [-> | ->]).
    now destruct Htail as [-> | ->].
Qed.

(** The first character of what follows the number, if any, is no digit
    and no dot. *)
Lemma after_number (ws u tail : string) :
  forallb_str is_space ws = true ->
  forallb_str is_letter u = true ->
  (tail = "" \/ tail = String "010" "") ->
  match ws ++ u ++ tail with
  | String c _ => is_digit c = false /\ Ascii.eqb c "." = false
  | "" => True
  end.
Proof.
  intros Hws Hu Htail.
  destruct ws as [| c r]; simpl in *.
  - destruct u as [| c r]; simpl in *.
    + now destruct Htail as [-> | ->].
    + apply andb_true_iff in Hu as [Hc _].
      split; [now apply letter_not_digit | now apply letter_not_dot].
  - apply andb_true_iff in Hws as [Hc _].
    split; [now apply space_not_digit | now apply space_not_dot].
Qed.

(** The scanner and the pattern agree on what matches and on the groups. *)
Lemma pattern_match_sound (s v u : string) :
  pattern_match s = Some (v, u) -> matches_pattern s v u.
Proof.
  unfold pattern_match.
  destruct (span is_digit s) as [d1 r1] eqn:H1.
  destruct (span_spec _ _ _ _ H1) as (-> & Hd1 & Hr1).
  assert (Hno_dot : (if is_empty d1 then None else pattern_tail d1 r1) = Some (v, u) ->
            matches_pattern (d1 ++ r1) v u).
  { destruct (is_empty d1) eqn:He; [discriminate | ]. intros Ht.
    apply pattern_tail_sound in Ht as (-> & ws & tail & -> & Hws & Hu & Htail).
    exists "", "", d1, ws, tail. repeat split; auto. }
  destruct r1 as [| c r2]; [exact Hno_dot | ].
  destruct (Ascii.eqb_spec c ".") as [-> | _]; [ | exact Hno_dot].
  destruct (span is_digit r2) as [d2 r3] eqn:H2.
  destruct (span_spec _ _ _ _ H2) as (-> & Hd2 & _).
  destruct (is_empty d2) eqn:He; [discriminate | ]. intros Ht.
  apply pattern_tail_sound in Ht as (-> & ws & tail & -> & Hws & Hu & Htail).
  exists d1, ".", d2, ws, tail. repeat split; auto.
Qed.

Lemma pattern_match_complete (s v u : string) :
  matches_pattern s v u -> pattern_match s = Some (v, u).
Proof.
  intros (d1 & dot & d2 & ws & tail & -> & -> & Hd1 & Hdot & Hd2 & Hne & Hws &
          Hu & Htail).
  pose proof (after_number ws u tail Hws Hu Htail) as Hafter.
  assert (Hnd : match ws ++ u ++ tail with
                | String c _ => is_digit c = false
                | "" => True
                end)
    by (destruct (ws ++ u ++ tail); [exact I | apply Hafter]).
  unfold pattern_match. destruct Hdot as [-> | ->].
  - change ("" ++ d2 ++ ws ++ u ++ tail) with (d2 ++ ws ++ u ++ tail).
    change (d1 ++ "" ++ d2) with (d1 ++ d2).
    rewrite <- str_app_assoc.
    assert (Hdd : forallb_str is_digit (d1 ++ d2) = true)
      by (now rewrite forallb_str_app, Hd1, Hd2).
    rewrite (span_app is_digit (d1 ++ d2) (ws ++ u ++ tail) Hdd Hnd).
    assert (He : is_empty (d1 ++ d2) = false)
      by (destruct d1; [exact Hne | reflexivity]).
    rewrite He.
    destruct (ws ++ u ++ tail) as [| c r] eqn:Hrest.
    + rewrite <- Hrest. now apply pattern_tail_complete.
    + destruct Hafter as [_ ->]. rewrite <- Hrest.
      now apply pattern_tail_complete.
  - change ("." ++ d2 ++ ws ++ u ++ tail) with (String "." (d2 ++ ws ++ u ++ tail)).
    rewrite (span_app is_digit d1 (String "." (d2 ++ ws ++ u ++ tail)) Hd1 eq_refl).
    change (Ascii.eqb "." ".") with true. cbv iota.
    rewrite (span_app is_digit d2 (ws ++ u ++ tail) Hd2 Hnd).
    rewrite Hne. now apply pattern_tail_complete.
Qed.

Lemma pattern_match_None (s : string) :
  pattern_match s = None <-> ~ exists v u, matches_pattern s v u.
Proof.
  split.
  - intros Hn (v & u & Hm). apply pattern_match_complete in Hm. congruence.
  - intros Hn. destruct (pattern_match s) as [[v u] | ] eqn:Hp; [ | reflexivity].
    exfalso. apply Hn. exists v, u. now apply pattern_match_sound.
Qed.

(** [Decimal] reads group 1 of every match. *)
Lemma Decimal_of_str_group1 (d1 dot d2 : string) :
  forallb_str is_digit d1 = true -> (dot = "" \/ dot = ".") ->
  forallb_str is_digit d2 = true -> is_empty d2 = false ->
  exists (c : N) (e : Z), Decimal_of_str (d1 ++ dot ++ d2) = Ok (DFin false c e).
Proof.
  intros Hd1 [-> | ->] Hd2 Hne.
  - pose proof (Decimal_of_str_layout false (d1 ++ d2) "" false "" 0) as H.
    rewrite !str_app_nil_r in H. change ("" ++ d1 ++ d2) with (d1 ++ d2) in H.
    change (d1 ++ "" ++ d2) with (d1 ++ d2).
    assert (Hdd : forallb_str is_digit (d1 ++ d2) = true)
      by (now rewrite forallb_str_app, Hd1, Hd2).
    assert (Hne' : is_empty (d1 ++ d2) && is_empty "" = false)
      by (destruct d1; [change ("" ++ d2) with d2; now rewrite Hne | reflexivity]).
    rewrite (H Hdd eq_refl Hne' (fun _ => eq_refl) eq_refl
               (or_introl (conj eq_refl eq_refl))).
    eauto.
  - pose proof (Decimal_of_str_layout false d1 d2 true "" 0) as H.
    change (String "." d2 ++ "") with (String "." (d2 ++ "")) in H.
    rewrite !str_app_nil_r in H. change ("" ++ d1 ++ String "." d2)
      with (d1 ++ "." ++ d2) in H.
    assert (Hne' : is_empty d1 && is_empty d2 = false)
      by (rewrite Hne; apply andb_false_r).
    assert (Hdot : true = false -> d2 = "") by discriminate.
    rewrite (H Hd1 Hd2 Hne' Hdot eq_refl (or_introl (conj eq_refl eq_refl))).
    eauto.
Qed.

Lemma pattern_char_allowed (d1 dot d2 ws u tail : string) :
  forallb_str is_digit d1 = true -> (dot = "" \/ dot = ".") ->
  forallb_str is_digit d2 = true -> forallb_str is_space ws = true ->
  forallb_str is_letter u = true -> (tail = "" \/ tail = String "010" "") ->
  forallb_str pattern_char (d1 ++ dot ++ d2 ++ ws ++ u ++ tail) = true.
Proof.
  intros Hd1 Hdot Hd2 Hws Hu Htail. rewrite !forallb_str_app.
  rewrite (forallb_str_impl is_digit pattern_char d1) by
    (assumption || (unfold pattern_char; now intros c ->)).
  rewrite (forallb_str_impl is_digit pattern_char d2) by
    (assumption || (unfold pattern_char; now intros c ->)).
  rewrite (forallb_str_impl is_space pattern_char ws) by
    (assumption || (unfold pattern_char; intros c ->; now rewrite !orb_true_r)).
  rewrite (forallb_str_impl is_letter pattern_char u) by
    (assumption || (unfold pattern_char; intros c ->; now rewrite !orb_true_r)).
  destruct Hdot as [-> | ->]; destruct Htail as [-> | ->]; reflexivity.
Qed.

Lemma has_char_allowed (c : ascii) (s : string) :
  pattern_char c = false -> forallb_str pattern_char s = true ->
  has_char c s = false.
Proof.
  intros Hc. induction s as [| x r IH]; simpl; [reflexivity | ].
  intros [Hx Hr]%andb_true_iff. rewrite (IH Hr), orb_false_r.
  destruct (Ascii.eqb_spec x c) as [-> | _]; [congruence | reflexivity].
Qed.

Lemma has_char_lstrip (c : ascii) (s : string) :
  is_space c = false -> has_char c (lstrip s) = has_char c s.
Proof.
  intros Hc. induction s as [| x r IH]; simpl; [reflexivity | ].
  destruct (is_space x) eqn:Hx; [ | reflexivity].
  rewrite IH. destruct (Ascii.eqb_spec x c) as [-> | _]; [congruence | reflexivity].
Qed.

Lemma has_char_spaces (c : ascii) (s : string) :
  is_space c = false -> forallb_str is_space s = true -> has_char c s = false.
Proof.
  intros Hc. induction s as [| x r IH]; simpl; [reflexivity | ].
  intros [Hx Hr]%andb_true_iff. rewrite (IH Hr), orb_false_r.
  destruct (Ascii.eqb_spec x c) as [-> | _]; [congruence | reflexivity].
Qed.

Lemma has_char_rstrip (c : ascii) (s : string) :
  is_space c = false -> has_char c (rstrip s) = has_char c s.
Proof.
  intros Hc. induction s as [| x r IH]; simpl; [reflexivity | ].
  destruct (is_space x) eqn:Hx; simpl.
  - destruct (forallb_str is_space r) eqn:Hr; simpl.
    + rewrite (has_char_spaces c r Hc Hr).
      destruct (Ascii.eqb_spec x c) as [-> | _]; [congruence | reflexivity].
    + now rewrite IH.
  - now rewrite IH.
Qed.

Lemma has_minus_lower (s : string) : has_char "-" (lower s) = has_char "-" s.
Proof.
  induction s as [| x r IH]; simpl; [reflexivity | ]. rewrite IH. f_equal.
  by_ascii_cases x.
Qed.

Lemma has_minus_comma_to_dot (s : string) :
  has_char "-" (comma_to_dot s) = has_char "-" s.
Proof.
  induction s as [| x r IH]; simpl; [reflexivity | ]. rewrite IH. f_equal.
  by_ascii_cases x.
Qed.

(** C8. A string whose normal form matches the pattern parses to the
    decimal of group 1 and to the unit its token names, and to the default
    unit (BYTES when none is given) when the token names none; so ["500"]
    is 500 BYTES. [parse] raises exactly when the string is empty or white
    space, or does not match at all, and FormatError is all it raises; a
    string with a minus sign does not match. *)
Theorem parse_defaults_and_format_errors :
  forall (aliases : gmap string StorageUnit) (s : string)
         (du : option StorageUnit),
    let normalized := comma_to_dot (lower (strip s)) in
    (forall value_str unit_str,
       is_empty (strip s) = false ->
       matches_pattern normalized value_str unit_str ->
       exists d : Decimal,
         Decimal_of_str value_str = Ok d /\
         parse aliases s du
           = Ok (d, default (default BYTES du) (aliases !! lower unit_str)) /\
         (aliases !! lower unit_str = None ->
          parse aliases s du = Ok (d, default BYTES du))) /\
    ((exists e, parse aliases s du = Raise e) <->
     is_empty (strip s) = true \/
     ~ exists value_str unit_str, matches_pattern normalized value_str unit_str) /\
    (forall e, parse aliases s du = Raise e -> FormatError e) /\
    (has_char "-" s = true ->
     exists e, parse aliases s du = Raise e /\ FormatError e) /\
    (aliases !! "" = None ->
     parse aliases "500" None = Ok (Decimal_of_int 500, BYTES)).
Proof.
  intros aliases s du normalized.
  assert (Hok : forall value_str unit_str,
            is_empty (strip s) = false ->
            matches_pattern normalized value_str unit_str ->
            exists d : Decimal,
              Decimal_of_str value_str = Ok d /\
              parse aliases s du
                = Ok (d, default (default BYTES du) (aliases !! lower unit_str))).
  { intros v u Hne Hm. pose proof (pattern_match_complete _ _ _ Hm) as Hp.
    destruct Hm as (d1 & dot & d2 & ws & tail & _ & -> & Hd1 & Hdot & Hd2 &
                    Hne2 & _).
    destruct (Decimal_of_str_group1 d1 dot d2 Hd1 Hdot Hd2 Hne2) as (c & e & Hd).
    exists (DFin false c e). split; [exact Hd | ].
    now apply (parse_matched aliases s du (d1 ++ dot ++ d2) u). }
  assert (Hraise : forall e, parse aliases s du = Raise e ->
            FormatError e /\
            (is_empty (strip s) = true \/
             ~ exists v u, matches_pattern normalized v u)).
  { intros e. unfold parse.
    destruct (is_empty (strip s)) eqn:He.
    { intros [= <-]. split; [now left | now left]. }
    fold normalized.
    destruct (pattern_match normalized) as [[v u] | ] eqn:Hp.
    - apply pattern_match_sound in Hp.
      destruct (Hok v u eq_refl Hp) as (d & -> & _). discriminate.
    - intros [= <-]. split; [now right | right]. now apply pattern_match_None. }
  split; [ | split; [ | split; [ | split]]].
  - intros v u Hne Hm. destruct (Hok v u Hne Hm) as (d & Hd & Hp).
    exists d. split; [exact Hd | split; [exact Hp | ]].
    intros Hnone. now rewrite Hp, Hnone.
  - split.
    + intros [e He]. now apply Hraise in He.
    + intros [He | Hno]; unfold parse.
      * rewrite He. eauto.
      * destruct (is_empty (strip s)); [eauto | ]. fold normalized.
        apply pattern_match_None in Hno. rewrite Hno. eauto.
  - intros e He. now apply Hraise in He.
  - intros Hminus.
    assert (Hfail : exists e, parse aliases s du = Raise e).
    { unfold parse. destruct (is_empty (strip s)); [eauto | ]. fold normalized.
      destruct (pattern_match normalized) as [[v u] | ] eqn:Hp; [ | eauto].
      exfalso. apply pattern_match_sound in Hp.
      destruct Hp as (d1 & dot & d2 & ws & tail & Heq & _ & Hd1 & Hdot & Hd2 &
                      _ & Hws & Hu & Htail).
      pose proof (pattern_char_allowed d1 dot d2 ws u tail Hd1 Hdot Hd2 Hws Hu Htail)
        as Hall.
      rewrite <- Heq in Hall.
      apply (has_char_allowed "-") in Hall; [ | reflexivity].
      unfold normalized, strip in Hall.
      rewrite has_minus_comma_to_dot, has_minus_lower in Hall.
      rewrite has_char_rstrip, has_char_lstrip in Hall by reflexivity.
      congruence. }
    destruct Hfail as [e He]. exists e. split; [exact He | ].
    now apply Hraise in He.
  - intros Hnone.
    rewrite (parse_matched aliases "500" None "500" "" (Decimal_of_int 500));
      try reflexivity.
    change (lower "") with "". now rewrite Hnone.
Qed.

Lemma parse_defaults_and_format_errors_witness :
  parse spec_unit_aliases "12 furlongs" (Some GB) = Ok (DFin false 12 0, GB) /\
  parse spec_unit_aliases "500" None = Ok (Decimal_of_int 500, BYTES) /\
  exists e, parse spec_unit_aliases "-1 MB" None = Raise e /\ FormatError e.
Proof.
  destruct (parse_defaults_and_format_errors spec_unit_aliases "12 furlongs" (Some GB))
    as [Hmatch [_ [_ [_ H500]]]].
  destruct (parse_defaults_and_format_errors spec_unit_aliases "-1 MB" None)
    as [_ [_ [_ [Hminus _]]]].
  split; [ | split].
  - destruct (Hmatch "12" "furlongs" eq_refl) as (d & Hd & _ & Hp).
    + exists "", "", "12", " ", "". repeat split; auto.
    + vm_compute in Hd. injection Hd as <-.
      apply Hp. vm_compute. reflexivity.
  - apply H500. vm_compute. reflexivity.
  - apply Hminus. reflexivity.
Defined.

(** ** The number a decimal stands for *)

Lemma Q10_pos (e : Z) : (0 < Q10 e)%Q.
Proof. unfold Q10. now apply Qpower_0_lt. Qed.

Lemma Q10_add (a b : Z) : (Q10 (a + b) == Q10 a * Q10 b)%Q.
Proof. unfold Q10. now apply Qpower_plus. Qed.

Lemma Q10_pow10 (k : Z) : (0 <= k)%Z -> (inject_Z (Z.of_N (pow10 k)) == Q10 k)%Q.
Proof.
  intros Hk. unfold Q10, pow10. rewrite <- Zpower_Qpower by exact Hk.
  rewrite N2Z.inj_pow, Z2N.id by exact Hk. reflexivity.
Qed.

Lemma inject_N_mul (a b : N) :
  (inject_Z (Z.of_N (a * b)) == inject_Z (Z.of_N a) * inject_Z (Z.of_N b))%Q.
Proof. rewrite N2Z.inj_mul, inject_Z_mult. reflexivity. Qed.

Lemma inject_N_inj (a b : N) :
  (inject_Z (Z.of_N a) == inject_Z (Z.of_N b))%Q -> a = b.
Proof. intros H. apply -> inject_Z_injective in H. lia. Qed.

(** Scaling the coefficient up and the exponent down does not change the
    number. *)
Lemma scale_value (c : N) (e j : Z) :
  (0 <= j)%Z ->
  (inject_Z (Z.of_N (c * pow10 j)) * Q10 (e - j) == inject_Z (Z.of_N c) * Q10 e)%Q.
Proof.
  intros Hj. rewrite inject_N_mul, (Q10_pow10 j Hj).
  replace e with ((e - j) + j)%Z at 2 by lia. rewrite Q10_add. ring.
Qed.

Lemma same_number_value (c : N) (e : Z) (c0 : N) (e0 : Z) :
  same_number c e c0 e0 <->
  (inject_Z (Z.of_N c) * Q10 e == inject_Z (Z.of_N c0) * Q10 e0)%Q.
Proof.
  unfold same_number.
  set (m := Z.min e e0).
  assert (H1 := scale_value c e (e - m) ltac:(lia)).
  assert (H2 := scale_value c0 e0 (e0 - m) ltac:(lia)).
  replace (e - (e - m))%Z with m in H1 by lia.
  replace (e0 - (e0 - m))%Z with m in H2 by lia.
  rewrite <- H1, <- H2.
  assert (Hm := Q10_pos m).
  assert (Hcancel : forall a b : N,
            (inject_Z (Z.of_N a) * Q10 m == inject_Z (Z.of_N b) * Q10 m)%Q <-> a = b).
  { intros a b. split; [ | now intros ->].
    intros H. apply inject_N_inj.
    apply (Qmult_inj_r _ _ (Q10 m)); [ | exact H].
    intros H0. rewrite H0 in Hm. now apply Qlt_irrefl in Hm. }
  rewrite Hcancel.
  destruct (Z.le_ge_cases e e0) as [Hle | Hge].
  - replace (e - m)%Z with 0%Z by lia. replace (e0 - m)%Z with (e0 - e)%Z by lia.
    rewrite (pow10_nonpos (e - e0)) by lia. rewrite pow10_0. reflexivity.
  - replace (e0 - m)%Z with 0%Z by lia. replace (e - m)%Z with (e - e0)%Z by lia.
    rewrite (pow10_nonpos (e0 - e)) by lia. rewrite pow10_0. reflexivity.
Qed.

Lemma same_number_dval (s : bool) (c : N) (e : Z) (c0 : N) (e0 : Z) :
  same_number c e c0 e0 -> (dval (DFin s c e) == dval (DFin s c0 e0))%Q.
Proof.
  intros H. apply same_number_value in H. unfold dval.
  rewrite <- !Qmult_assoc. now rewrite H.
Qed.

Lemma dval_same_number (s : bool) (c : N) (e : Z) (c0 : N) (e0 : Z) :
  (dval (DFin s c e) == dval (DFin s c0 e0))%Q -> same_number c e c0 e0.
Proof.
  intros H. apply same_number_value. unfold dval in H.
  rewrite <- !Qmult_assoc in H.
  apply (Qmult_inj_l _ _ (if s then inject_Z (-1) else inject_Z 1)); [ | exact H].
  now destruct s.
Qed.

Lemma dval_mul (sa : bool) (ca : N) (ea : Z) (sb : bool) (cb : N) (eb : Z) :
  (dval (DFin (xorb sa sb) (ca * cb) (ea + eb))
   == dval (DFin sa ca ea) * dval (DFin sb cb eb))%Q.
Proof.
  unfold dval. rewrite inject_N_mul, Q10_add.
  destruct sa, sb; simpl xorb; cbv iota; ring.
Qed.

(** ** Exact results *)

(** A result that is a decimal of the context under another coefficient
    and exponent is rounded to that number. *)
Lemma fix_representable (s : bool) (c : N) (e : Z) (c0 : N) (e0 : Z) :
  same_number c e c0 e0 -> in_context (DFin s c0 e0) ->
  exists c1 e1, fix_ s c e = Ok (DFin s c1 e1) /\ same_number c1 e1 c0 e0.
Proof.
  unfold same_number. intros Hsame [Hlo Hctx].
  pose proof (pow10_pos (e - e0)) as Hp1. pose proof (pow10_pos (e0 - e)) as Hp2.
  destruct (N.eq_dec c 0%N) as [-> | Hne].
  { assert (c0 = 0%N) by nia. subst c0.
    unfold fix_. simpl. eexists _, _. split; [reflexivity | ].
    now rewrite !N.mul_0_l. }
  assert (Hne0 : c0 <> 0%N) by (intros ->; nia).
  destruct (N.eqb_spec c0 0%N) as [ | _]; [contradiction | ].
  destruct Hctx as [Hnd Hadj]. unfold adjusted in Hadj.
  destruct (Z.le_gt_cases e0 e) as [Hle | Hgt].
  - (* the result has the larger exponent: it is a decimal of the context *)
    rewrite (pow10_nonpos (e0 - e)), N.mul_1_r in Hsame by lia.
    assert (Hndc : ndigits c0 = (ndigits c + (e - e0))%Z)
      by (rewrite <- Hsame; apply ndigits_mul_pow10; [assumption | lia]).
    exists c, e. split.
    + apply fix_in_context_id. unfold in_context, adjusted.
      destruct (N.eqb_spec c 0%N); [contradiction | ].
      pose proof (ndigits_pos c). unfold_context. lia.
    + rewrite (pow10_nonpos (e0 - e)), N.mul_1_r by lia. exact Hsame.
  - rewrite (pow10_nonpos (e - e0)), N.mul_1_r in Hsame by lia.
    set (j := (e0 - e)%Z) in *.
    assert (Hndc : ndigits c = (ndigits c0 + j)%Z)
      by (rewrite Hsame; apply ndigits_mul_pow10; [assumption | lia]).
    pose proof (ndigits_pos c0) as Hpos0.
    unfold fix_. destruct (N.eqb_spec c 0%N); [contradiction | ].
    unfold_context.
    destruct (Z.ltb_spec (999999 - 50 + 1) (ndigits c + e - 50)); [lia | ].
    set (exp_min := Z.max (ndigits c + e - 50) (-999999 - 50 + 1)).
    destruct (Z.ltb_spec e exp_min) as [Hround | Hkeep].
    2: { exists c, e. split; [reflexivity | ].
         rewrite (pow10_nonpos (e - e0)), N.mul_1_r by lia. exact Hsame. }
    set (k := (exp_min - e)%Z).
    assert (Hk : (0 < k <= j)%Z) by (unfold k, exp_min, j in *; lia).
    assert (Hc : c = (c0 * pow10 (j - k) * pow10 k)%N).
    { rewrite <- N.mul_assoc, <- pow10_add by lia.
      now replace (j - k + k)%Z with j by lia. }
    assert (Hr : round_half_even c k = (c0 * pow10 (j - k))%N).
    { pose proof (pow10_pos k).
      rewrite round_half_even_exact; rewrite Hc;
        [apply N.div_mul | apply N.Div0.mod_mul]; lia. }
    rewrite Hr.
    assert (Hnd1 : ndigits (c0 * pow10 (j - k)) = (ndigits c0 + (j - k))%Z)
      by (apply ndigits_mul_pow10; [assumption | lia]).
    destruct (Z.ltb_spec 50 (ndigits (c0 * pow10 (j - k))));
      [unfold k, exp_min in *; lia | ].
    destruct (Z.ltb_spec (999999 - 50 + 1) exp_min); [unfold exp_min in *; lia | ].
    eexists _, _. split; [reflexivity | ].
    rewrite (pow10_nonpos (exp_min - e0)), N.mul_1_r by (unfold exp_min, j in *; lia).
    f_equal. f_equal. unfold k, j. lia.
Qed.

Lemma same_number_refl (c : N) (e : Z) : same_number c e c e.
Proof. unfold same_number. now rewrite Z.sub_diag. Qed.

Lemma same_number_sym (c : N) (e : Z) (c0 : N) (e0 : Z) :
  same_number c e c0 e0 -> same_number c0 e0 c e.
Proof. unfold same_number. now intros ->. Qed.

Lemma same_number_trans (c1 : N) (e1 : Z) (c2 : N) (e2 : Z) (c3 : N) (e3 : Z) :
  same_number c1 e1 c2 e2 -> same_number c2 e2 c3 e3 -> same_number c1 e1 c3 e3.
Proof.
  rewrite !same_number_value. intros H1 H2. now rewrite H1.
Qed.

Lemma same_number_zero (c : N) (e : Z) (e0 : Z) :
  same_number c e 0 e0 -> c = 0%N.
Proof.
  unfold same_number. rewrite N.mul_0_l. pose proof (pow10_pos (e - e0)). nia.
Qed.

(** An exact product. *)
Lemma Decimal_mul_exact (sa : bool) (ca : N) (ea : Z) (sb : bool) (cb : N) (eb : Z)
    (c0 : N) (e0 : Z) :
  same_number (ca * cb) (ea + eb) c0 e0 -> in_context (DFin (xorb sa sb) c0 e0) ->
  exists c1 e1,
    Decimal_mul (DFin sa ca ea) (DFin sb cb eb) = Ok (DFin (xorb sa sb) c1 e1) /\
    same_number c1 e1 c0 e0.
Proof. intros Hs Hc. unfold Decimal_mul. simpl. now apply fix_representable. Qed.

Lemma ndigits_mul_le (a b : N) : (ndigits (a * b) <= ndigits a + ndigits b)%Z.
Proof.
  pose proof (ndigits_pos a). pose proof (ndigits_pos b).
  apply ndigits_le_of_lt; [lia | ].
  rewrite pow10_add by lia.
  pose proof (ndigits_upper a). pose proof (ndigits_upper b).
  apply N.mul_lt_mono; assumption.
Qed.

Lemma to_ideal_exp_spec (fuel : nat) :
  forall (coeff : N) (e ideal : Z) (c' : N) (e' : Z),
    to_ideal_exp fuel coeff e ideal = (c', e') ->
    (e <= e')%Z /\ coeff = (c' * pow10 (e' - e))%N.
Proof.
  induction fuel as [| fuel IH]; intros coeff e ideal c' e'; simpl.
  - intros [= <- <-]. rewrite Z.sub_diag, pow10_0. split; lia.
  - destruct ((e <? ideal)%Z && (coeff mod 10 =? 0)%N) eqn:Hc.
    + intros H. apply IH in H as [Hle Hq].
      apply andb_true_iff in Hc as [_ Hm]. apply N.eqb_eq in Hm.
      split; [lia | ].
      replace (e' - e)%Z with ((e' - (e + 1)) + 1)%Z by lia.
      rewrite pow10_succ by lia.
      pose proof (N.Div0.div_mod coeff 10) as Hd. rewrite Hm in Hd.
      rewrite N.mul_assoc, (N.mul_comm c' 10), <- N.mul_assoc, <- Hq. lia.
    + intros [= <- <-]. rewrite Z.sub_diag, pow10_0. split; lia.
Qed.

Lemma div_eucl_exact (a b q : N) :
  b <> 0%N -> a = (q * b)%N -> N.div_eucl a b = (q, 0%N).
Proof.
  intros Hb ->. destruct (N.div_eucl (q * b) b) as [q' r'] eqn:E.
  assert (Hq : q' = (q * b / b)%N) by (unfold N.div; now rewrite E).
  assert (Hr : r' = ((q * b) mod b)%N) by (unfold N.modulo; now rewrite E).
  now rewrite Hq, Hr, N.div_mul, N.Div0.mod_mul.
Qed.

(** An exact quotient. *)
Lemma Decimal_truediv_exact (sa : bool) (ca : N) (ea : Z) (sb : bool) (cb : N)
    (eb : Z) (c0 : N) (e0 : Z) :
  cb <> 0%N ->
  same_number (c0 * cb) (e0 + eb) ca ea ->
  in_context (DFin (xorb sa sb) c0 e0) ->
  exists c1 e1,
    Decimal_truediv (DFin sa ca ea) (DFin sb cb eb) = Ok (DFin (xorb sa sb) c1 e1) /\
    same_number c1 e1 c0 e0.
Proof.
  intros Hb Hsame Hctx. unfold Decimal_truediv. simpl.
  destruct (N.eqb_spec cb 0%N); [contradiction | ].
  destruct (N.eqb_spec ca 0%N) as [-> | Ha].
  { apply same_number_zero in Hsame.
    assert (c0 = 0%N) by nia. subst c0.
    unfold fix_. simpl. eexists _, _. split; [reflexivity | ].
    unfold same_number. now rewrite !N.mul_0_l. }
  assert (H0 : c0 <> 0%N).
  { intros ->. rewrite N.mul_0_l in Hsame.
    apply same_number_sym, same_number_zero in Hsame. contradiction. }
  set (shift := (ndigits cb - ndigits ca + Context.prec + 1)%Z).
  set (t := (ea - eb - e0)%Z).
  assert (Hnd0 : (ndigits c0 <= 50)%Z).
  { destruct Hctx as [_ Hc]. destruct (N.eqb_spec c0 0%N); [contradiction | ].
    unfold_context. tauto. }
  pose proof (ndigits_mul_le c0 cb) as Hmul.
  assert (Hc0b : (c0 * cb)%N <> 0%N) by nia.
  unfold same_number in Hsame.
  replace (e0 + eb - ea)%Z with (- t)%Z in Hsame by (unfold t; lia).
  replace (ea - (e0 + eb))%Z with t in Hsame by (unfold t; lia).
  assert (Ht : (t < shift)%Z).
  { unfold shift. unfold_context.
    destruct (Z.le_gt_cases 0 t) as [Hpos | Hneg].
    - rewrite (pow10_nonpos (- t)), N.mul_1_r in Hsame by lia.
      assert (ndigits (c0 * cb) = (ndigits ca + t)%Z)
        by (rewrite Hsame; apply ndigits_mul_pow10; [assumption | lia]).
      lia.
    - rewrite (pow10_nonpos t), N.mul_1_r in Hsame by lia.
      assert (ndigits ca = (ndigits (c0 * cb) + - t)%Z)
        by (rewrite <- Hsame; apply ndigits_mul_pow10; [assumption | lia]).
      lia. }
  set (q := (c0 * pow10 (shift - t))%N).
  assert (Hdiv : (if (0 <=? shift)%Z
                  then N.div_eucl (ca * pow10 shift) cb
                  else N.div_eucl ca (cb * pow10 (- shift))) = (q, 0%N)).
  { destruct (Z.leb_spec 0 shift) as [Hs | Hs].
    - apply div_eucl_exact; [assumption | ]. unfold q.
      destruct (Z.le_gt_cases 0 t) as [Hpos | Hneg].
      + rewrite (pow10_nonpos (- t)), N.mul_1_r in Hsame by lia.
        replace shift with (t + (shift - t))%Z at 1 by lia.
        rewrite pow10_add by lia. rewrite N.mul_assoc, <- Hsame. lia.
      + rewrite (pow10_nonpos t), N.mul_1_r in Hsame by lia.
        replace (shift - t)%Z with (- t + shift)%Z by lia.
        rewrite pow10_add by lia. rewrite <- Hsame. lia.
    - apply div_eucl_exact.
      { pose proof (pow10_pos (- shift)). nia. }
      unfold q. rewrite (pow10_nonpos t), N.mul_1_r in Hsame by lia.
      rewrite <- Hsame.
      replace (- t)%Z with ((shift - t) + - shift)%Z by lia.
      rewrite pow10_add by lia. lia. }
  fold shift. rewrite Hdiv. simpl N.eqb. cbv iota.
  destruct (to_ideal_exp (N.size_nat q) q (ea - eb - shift) (ea - eb))
    as [c' e'] eqn:Hideal.
  apply to_ideal_exp_spec in Hideal as [Hle Hq].
  apply fix_representable; [ | exact Hctx].
  apply (same_number_trans _ _ q (ea - eb - shift)).
  - unfold same_number.
    rewrite (pow10_nonpos (ea - eb - shift - e')), N.mul_1_r by lia.
    now rewrite Hq.
  - unfold same_number, q.
    rewrite (pow10_nonpos (ea - eb - shift - e0)), N.mul_1_r by (unfold t in *; lia).
    f_equal. f_equal. unfold t. lia.
Qed.

Lemma inject_N_nonneg (c : N) : (0 <= inject_Z (Z.of_N c))%Q.
Proof. change 0%Q with (inject_Z 0). rewrite <- Zle_Qle. lia. Qed.

Lemma magnitude_nonneg (c : N) (e : Z) : (0 <= inject_Z (Z.of_N c) * Q10 e)%Q.
Proof.
  apply Qmult_le_0_compat; [apply inject_N_nonneg | apply Qlt_le_weak, Q10_pos].
Qed.

Lemma magnitude_zero (c : N) (e : Z) :
  (inject_Z (Z.of_N c) * Q10 e == 0)%Q -> c = 0%N.
Proof.
  intros H. apply (same_number_zero c e 0). apply same_number_value.
  rewrite H. simpl. ring.
Qed.

Lemma dval_magnitude (s : bool) (c : N) (e : Z) :
  nonneg (DFin s c e) -> (dval (DFin s c e) == inject_Z (Z.of_N c) * Q10 e)%Q.
Proof.
  simpl. intros [-> | ->]; [ring | ]. destruct s; simpl; ring.
Qed.

(** Two finite decimals that stand for one number. *)
Lemma dval_eq_same_number (s1 : bool) (c1 : N) (e1 : Z) (s2 : bool) (c2 : N) (e2 : Z) :
  (dval (DFin s1 c1 e1) == dval (DFin s2 c2 e2))%Q -> same_number c1 e1 c2 e2.
Proof.
  intros H. destruct (Bool.bool_dec s1 s2) as [<- | Hs];
    [now apply (dval_same_number s1) | ].
  pose proof (magnitude_nonneg c1 e1) as H1.
  pose proof (magnitude_nonneg c2 e2) as H2.
  unfold dval in H. rewrite <- !Qmult_assoc in H.
  set (x := (inject_Z (Z.of_N c1) * Q10 e1)%Q) in *.
  set (y := (inject_Z (Z.of_N c2) * Q10 e2)%Q) in *.
  assert (Hx : (x == 0)%Q /\ (y == 0)%Q).
  { destruct s1, s2; try contradiction;
      change (inject_Z (-1)) with (-1 # 1)%Q in H;
      change (inject_Z 1) with (1 # 1)%Q in H; split; lra. }
  destruct Hx as [Hx Hy]. apply magnitude_zero in Hx, Hy. subst c1 c2.
  unfold same_number. now rewrite !N.mul_0_l.
Qed.

Lemma same_number_scale (c : N) (e : Z) (c0 : N) (e0 : Z) (k : N) (j : Z) :
  same_number c e c0 e0 -> same_number (c * k) (e + j) (c0 * k) (e0 + j).
Proof.
  unfold same_number. intros H.
  replace (e + j - (e0 + j))%Z with (e - e0)%Z by lia.
  replace (e0 + j - (e + j))%Z with (e0 - e)%Z by lia.
  rewrite <- !N.mul_assoc, !(N.mul_comm k), !N.mul_assoc. now rewrite H.
Qed.

Lemma positive_finite_dval (u : Decimal) : positive_finite u -> (0 < dval u)%Q.
Proof.
  intros (c & e & -> & Hc). rewrite dval_magnitude by (simpl; auto).
  pose proof (magnitude_nonneg c e) as H0.
  destruct (Qle_lt_or_eq _ _ H0) as [Hlt | Heq]; [exact Hlt | ].
  symmetry in Heq. now apply magnitude_zero in Heq.
Qed.

(** The sign of a decimal that stands for a number [>= 0] does not
    matter. *)
Lemma dval_abs (s : bool) (c : N) (e : Z) (x : Q) :
  (0 <= x)%Q -> (dval (DFin s c e) == x)%Q ->
  (inject_Z (Z.of_N c) * Q10 e == x)%Q.
Proof.
  intros Hx H. pose proof (magnitude_nonneg c e) as Hm.
  unfold dval in H. rewrite <- Qmult_assoc in H.
  set (y := (inject_Z (Z.of_N c) * Q10 e)%Q) in *.
  destruct s;
    [change (inject_Z (-1)) with (-1 # 1)%Q in H
    | change (inject_Z 1) with (1 # 1)%Q in H]; lra.
Qed.

(** A product whose exact value is a decimal of the context. *)
Lemma Decimal_mul_dval (sa : bool) (ca : N) (ea : Z) (u b : Decimal) :
  positive_finite u -> in_context b ->
  (dval b == dval (DFin sa ca ea) * dval u)%Q ->
  exists c e,
    Decimal_mul (DFin sa ca ea) u = Ok (DFin sa c e) /\
    (dval (DFin sa c e) == dval (DFin sa ca ea) * dval u)%Q /\
    (ca = 0%N -> c = 0%N).
Proof.
  intros (cu & eu & -> & Hcu) Hb Hval.
  destruct b as [sb cb eb | | ]; try contradiction.
  rewrite <- dval_mul in Hval. apply dval_eq_same_number, same_number_sym in Hval.
  destruct (Decimal_mul_exact sa ca ea false cu eu cb eb Hval Hb)
    as (c1 & e1 & Hmul & Hsame).
  rewrite Bool.xorb_false_r in Hmul.
  exists c1, e1. split; [exact Hmul | split].
  - rewrite <- dval_mul, Bool.xorb_false_r. apply same_number_dval.
    eapply same_number_trans; [exact Hsame | now apply same_number_sym].
  - intros ->. rewrite N.mul_0_l in Hval.
    apply same_number_sym, same_number_zero in Hval. subst cb.
    now apply same_number_zero in Hsame.
Qed.

(** A quotient whose exact value is a decimal of the context. *)
Lemma Decimal_truediv_dval (sa : bool) (ca : N) (ea : Z) (u q : Decimal) :
  positive_finite u -> in_context q ->
  (dval q * dval u == dval (DFin sa ca ea))%Q ->
  exists c e,
    Decimal_truediv (DFin sa ca ea) u = Ok (DFin sa c e) /\
    (dval (DFin sa c e) * dval u == dval (DFin sa ca ea))%Q /\
    (ca = 0%N -> c = 0%N).
Proof.
  intros (cu & eu & -> & Hcu) Hq Hval.
  destruct q as [sq cq eq | | ]; try contradiction.
  rewrite <- dval_mul in Hval. apply dval_eq_same_number in Hval.
  destruct (Decimal_truediv_exact sa ca ea false cu eu cq eq Hcu Hval Hq)
    as (c1 & e1 & Hdiv & Hsame).
  rewrite Bool.xorb_false_r in Hdiv.
  exists c1, e1. split; [exact Hdiv | split].
  - rewrite <- dval_mul, Bool.xorb_false_r. apply same_number_dval.
    eapply same_number_trans; [ | exact Hval].
    now apply same_number_scale.
  - intros ->. apply same_number_zero in Hval.
    assert (cq = 0%N) as -> by lia.
    now apply same_number_zero in Hsame.
Qed.

(** The two coefficients at the smaller exponent add up to the sum. *)
Lemma aligned_sum_value (ca : N) (ea : Z) (cb : N) (eb : Z) :
  (inject_Z (Z.of_N (ca * pow10 (ea - Z.min ea eb) + cb * pow10 (eb - Z.min ea eb)))
   * Q10 (Z.min ea eb)
   == inject_Z (Z.of_N ca) * Q10 ea + inject_Z (Z.of_N cb) * Q10 eb)%Q.
Proof.
  set (e := Z.min ea eb).
  rewrite N2Z.inj_add, inject_Z_plus, Qmult_plus_distr_l.
  pose proof (scale_value ca ea (ea - e) ltac:(lia)) as Ha.
  pose proof (scale_value cb eb (eb - e) ltac:(lia)) as Hb.
  replace (ea - (ea - e))%Z with e in Ha by lia.
  replace (eb - (eb - e))%Z with e in Hb by lia.
  now rewrite Ha, Hb.
Qed.

(** A sum of two decimals [>= 0] whose exact value is a decimal of the
    context. *)
Lemma Decimal_add_dval (a b total : Decimal) :
  finite a -> nonneg a -> finite b -> nonneg b -> in_context total ->
  (dval total == dval a + dval b)%Q ->
  exists s c e,
    Decimal_add a b = Ok (DFin s c e) /\ nonneg (DFin s c e) /\
    (dval (DFin s c e) == dval a + dval b)%Q.
Proof.
  destruct a as [sa ca ea | | ]; try contradiction.
  destruct b as [sb cb eb | | ]; try contradiction.
  destruct total as [st c0 e0 | | ]; try contradiction.
  intros _ Hna _ Hnb Hctx Hval.
  assert (Hsum : (dval (DFin sa ca ea) + dval (DFin sb cb eb)
                  == inject_Z (Z.of_N (ca * pow10 (ea - Z.min ea eb)
                                       + cb * pow10 (eb - Z.min ea eb)))
                     * Q10 (Z.min ea eb))%Q).
  { rewrite (dval_magnitude sa ca ea Hna), (dval_magnitude sb cb eb Hnb).
    now rewrite aligned_sum_value. }
  rewrite Hsum in Hval.
  apply dval_abs in Hval; [ | apply magnitude_nonneg].
  apply same_number_value, same_number_sym in Hval.
  unfold Decimal_add. simpl check_nans. cbv iota. cbv zeta.
  set (e := Z.min ea eb) in *.
  pose proof (pow10_pos (ea - e)) as Hpa. pose proof (pow10_pos (eb - e)) as Hpb.
  set (xa := (ca * pow10 (ea - e))%N) in *.
  set (xb := (cb * pow10 (eb - e))%N) in *.
  assert (Hfix : forall s : bool, s = false \/ (xa + xb = 0)%N ->
            exists s' c e',
              fix_ s (xa + xb) e = Ok (DFin s' c e') /\ nonneg (DFin s' c e') /\
              (dval (DFin s' c e')
               == dval (DFin sa ca ea) + dval (DFin sb cb eb))%Q).
  { intros s Hs.
    destruct (fix_representable s (xa + xb) e c0 e0 Hval Hctx)
      as (c1 & e1 & Hf & Hsame).
    assert (Hn : nonneg (DFin s c1 e1)).
    { simpl. destruct Hs as [Hs | Hs]; [now left | right].
      rewrite Hs in Hval. apply same_number_sym, same_number_zero in Hval.
      subst c0. now apply same_number_zero in Hsame. }
    exists s, c1, e1. split; [exact Hf | split; [exact Hn | ]].
    rewrite Hsum, (dval_magnitude _ _ _ Hn). apply same_number_value.
    eapply same_number_trans; [exact Hsame | now apply same_number_sym]. }
  simpl in Hna, Hnb.
  destruct (N.eqb_spec ca 0%N) as [Ha | Ha]; destruct (N.eqb_spec cb 0%N) as [Hb | Hb];
    simpl andb; cbv iota.
  - assert (Hz : (xa + xb = 0)%N) by (unfold xa, xb; subst ca cb; lia).
    specialize (Hfix (sa && sb) (or_intror Hz)). now rewrite Hz in Hfix.
  - assert (sb = false) as -> by (destruct Hnb; congruence).
    assert (Hxa : xa = 0%N) by (unfold xa; subst ca; lia).
    assert (Hxb : xb <> 0%N) by (unfold xb; lia).
    specialize (Hfix false (or_introl eq_refl)).
    destruct sa; simpl eqb; cbv iota; [ | exact Hfix].
    rewrite Hxa in *. rewrite N.add_0_l in Hfix.
    destruct (N.eqb_spec 0%N xb) as [Heq | _]; [congruence | ].
    destruct (N.ltb_spec 0%N xb) as [_ | Hge]; [ | lia].
    now rewrite N.sub_0_r.
  - assert (sa = false) as -> by (destruct Hna; congruence).
    assert (Hxb : xb = 0%N) by (unfold xb; subst cb; lia).
    assert (Hxa : xa <> 0%N) by (unfold xa; lia).
    specialize (Hfix false (or_introl eq_refl)).
    destruct sb; simpl eqb; cbv iota; [ | exact Hfix].
    rewrite Hxb in *. rewrite N.add_0_r in Hfix.
    destruct (N.eqb_spec xa 0%N) as [Heq | _]; [congruence | ].
    destruct (N.ltb_spec xa 0%N) as [Hlt | _]; [lia | ].
    now rewrite N.sub_0_r.
  - assert (sa = false) as -> by (destruct Hna; congruence).
    assert (sb = false) as -> by (destruct Hnb; congruence).
    simpl eqb. cbv iota. apply Hfix. now left.
Qed.

(** Whatever [Decimal.__add__] returns for finite operands is a decimal of
    the context. *)
Lemma Decimal_add_in_context (a b d : Decimal) :
  finite a -> finite b -> Decimal_add a b = Ok d -> in_context d.
Proof.
  destruct a as [sa ca ea | | ]; try contradiction.
  destruct b as [sb cb eb | | ]; try contradiction.
  intros _ _. unfold Decimal_add. simpl check_nans. cbv iota. cbv zeta.
  destruct (_ && _); [apply fix_in_context | ].
  destruct (eqb sa sb); [apply fix_in_context | ].
  destruct (_ =? _)%N; [apply fix_in_context | ].
  destruct (_ <? _)%N; apply fix_in_context.
Qed.

(** ** Addition *)

(** The byte count of a value, when it is a decimal of the context. *)
Lemma to_bytes_dval (unit_value : StorageUnit -> Decimal) (v : StorageValue)
    (b : Decimal) :
  positive_finite (unit_value (unit v)) ->
  finite (decimal_value v) -> nonneg (decimal_value v) -> in_context b ->
  (dval b == dval (decimal_value v) * dval (unit_value (unit v)))%Q ->
  exists s c e,
    to_bytes unit_value v = Ok (DFin s c e) /\ nonneg (DFin s c e) /\
    (dval (DFin s c e) == dval (decimal_value v) * dval (unit_value (unit v)))%Q.
Proof.
  intros Hu Hfin Hnn Hb Hval. unfold to_bytes.
  destruct (decimal_value v) as [s c e | | ]; try contradiction.
  destruct (Decimal_mul_dval s c e _ b Hu Hb Hval) as (c1 & e1 & Hmul & Hv & Hz).
  exists s, c1, e1. split; [exact Hmul | split; [ | exact Hv]].
  simpl in *. destruct Hnn as [Hs | Hc]; [now left | right; auto].
Qed.

Lemma add_in_context (unit_value : StorageUnit -> Decimal) (l r x : StorageValue) :
  finite (decimal_value l) -> finite (decimal_value r) ->
  (forall u, positive_finite (unit_value u)) ->
  add unit_value l r = Ok x ->
  unit x = (if decide (unit l = unit r) then unit l else BYTES) /\
  in_context (decimal_value x).
Proof.
  intros Hl Hr Hu. unfold add. destruct (decide _) as [Heq | Hne]; intros H.
  - bind_inv H. apply StorageValue_init_decimal in H as [-> _]. simpl.
    split; [reflexivity | ]. exact (Decimal_add_in_context _ _ _ Hl Hr Ha).
  - do 3 bind_inv H. apply StorageValue_init_decimal in H as [-> _]. simpl.
    split; [reflexivity | ].
    assert (Hfin : forall v b, finite (decimal_value v) ->
              to_bytes unit_value v = Ok b -> finite b).
    { intros v b Hv. unfold to_bytes.
      destruct (Hu (unit v)) as (cu & eu & -> & _).
      destruct (decimal_value v) as [s c e | | ]; try contradiction.
      unfold Decimal_mul. simpl. intros Hf.
      apply fix_sign in Hf as (c' & e' & ->). exact I. }
    exact (Decimal_add_in_context _ _ _ (Hfin _ _ Hl Ha) (Hfin _ _ Hr Ha0) Ha1).
Qed.

(** C5, as the code has it. For two values with finite magnitudes [>= 0]
    (and a unit table of positive multipliers): whatever [add] returns is in
    the unit of the operands when they share it and in BYTES otherwise, and
    its magnitude is a decimal of the 50-digit context.  When the operands
    share their unit and the exact sum of the magnitudes is a decimal of the
    context, [add] returns that sum; when the units differ and both byte
    counts and their sum are decimals of the context, [add] returns the sum
    of the byte counts.  So 1.1 + 2.2 of one unit is 3.3, and
    1 KIB + 512 BYTES is 1536 BYTES. *)
Theorem add_exact_in_context :
  forall (unit_value : StorageUnit -> Decimal) (l r : StorageValue),
    (forall u, positive_finite (unit_value u)) ->
    finite (decimal_value l) -> nonneg (decimal_value l) ->
    finite (decimal_value r) -> nonneg (decimal_value r) ->
    (forall x,
       add unit_value l r = Ok x ->
       unit x = (if decide (unit l = unit r) then unit l else BYTES) /\
       in_context (decimal_value x)) /\
    (forall total,
       unit l = unit r -> in_context total ->
       (dval total == dval (decimal_value l) + dval (decimal_value r))%Q ->
       exists x,
         add unit_value l r = Ok x /\ unit x = unit l /\
         (dval (decimal_value x)
          == dval (decimal_value l) + dval (decimal_value r))%Q) /\
    (forall left_bytes right_bytes total,
       unit l <> unit r ->
       in_context left_bytes -> in_context right_bytes -> in_context total ->
       (dval left_bytes
        == dval (decimal_value l) * dval (unit_value (unit l)))%Q ->
       (dval right_bytes
        == dval (decimal_value r) * dval (unit_value (unit r)))%Q ->
       (dval total == dval left_bytes + dval right_bytes)%Q ->
       exists x,
         add unit_value l r = Ok x /\ unit x = BYTES /\
         (dval (decimal_value x)
          == dval (decimal_value l) * dval (unit_value (unit l))
             + dval (decimal_value r) * dval (unit_value (unit r)))%Q) /\
    add spec_unit_value (mkStorageValue (DFin false 11 (-1)) MB)
      (mkStorageValue (DFin false 22 (-1)) MB)
    = Ok (mkStorageValue (DFin false 33 (-1)) MB) /\
    add spec_unit_value (mkStorageValue (Decimal_of_int 1) KIB)
      (mkStorageValue (Decimal_of_int 512) BYTES)
    = Ok (mkStorageValue (Decimal_of_int 1536) BYTES).
Proof.
  intros unit_value l r Hu Hfl Hnl Hfr Hnr.
  split; [ | split; [ | split; [ | split]]].
  - intros x. now apply add_in_context.
  - intros total Heq Hctx Hval.
    destruct (Decimal_add_dval _ _ total Hfl Hnl Hfr Hnr Hctx Hval)
      as (s & c & e & Hadd & Hnn & Hv).
    exists (mkStorageValue (DFin s c e) (unit l)).
    unfold add. destruct (decide _) as [_ | Hne]; [ | contradiction].
    rewrite Hadd, bind_Ok, (StorageValue_init_decimal_nonneg _ _ Hnn).
    simpl decimal_value. simpl unit. auto.
  - intros bl br total Hne Hbl Hbr Hctx Hvl Hvr Hval.
    destruct (to_bytes_dval unit_value l bl (Hu _) Hfl Hnl Hbl Hvl)
      as (sl & cl & el & Hl & Hnbl & Hdl).
    destruct (to_bytes_dval unit_value r br (Hu _) Hfr Hnr Hbr Hvr)
      as (sr & cr & er & Hr & Hnbr & Hdr).
    rewrite Hvl, Hvr, <- Hdl, <- Hdr in Hval.
    destruct (Decimal_add_dval (DFin sl cl el) (DFin sr cr er) total
                I Hnbl I Hnbr Hctx Hval)
      as (s & c & e & Hadd & Hnn & Hv).
    exists (mkStorageValue (DFin s c e) BYTES).
    unfold add. destruct (decide _) as [Heq | _]; [contradiction | ].
    rewrite Hl, bind_Ok, Hr, bind_Ok, Hadd, bind_Ok.
    rewrite (StorageValue_init_decimal_nonneg _ _ Hnn).
    simpl decimal_value. simpl unit. rewrite Hv, Hdl, Hdr. auto with qarith.
  - vm_compute. reflexivity.
  - vm_compute. reflexivity.
Qed.

Lemma add_exact_in_context_witness :
  exists x,
    add spec_unit_value (mkStorageValue (DFin false 11 (-1)) MB)
      (mkStorageValue (DFin false 22 (-1)) MB) = Ok x /\
    unit x = MB /\ (dval (decimal_value x) == 33 # 10)%Q.
Proof.
  assert (Hu : forall u, positive_finite (spec_unit_value u)).
  { intros u. destruct u; vm_compute; eexists _, _;
      (split; [reflexivity | intros H; discriminate H]). }
  destruct (add_exact_in_context spec_unit_value
              (mkStorageValue (DFin false 11 (-1)) MB)
              (mkStorageValue (DFin false 22 (-1)) MB)
              Hu I (or_introl eq_refl) I (or_introl eq_refl))
    as (_ & Hsame & _).
  destruct (Hsame (DFin false 33 (-1)) eq_refl) as (x & Hx & Hunit & Hval).
  - vm_compute. repeat split; intros H; discriminate H.
  - vm_compute. reflexivity.
  - exists x. split; [exact Hx | split; [exact Hunit | ]].
    rewrite Hval. vm_compute. reflexivity.
Defined.

(** C5, as stated, fails: the sum of 10^50 bytes and 1 byte has 51 digits,
    and [add] returns it rounded to the 50 digits of the context. *)
Lemma add_rounds_to_context :
  exists l r x,
    StorageValue_init (VInt (10 ^ 50)) BYTES = Ok l /\
    StorageValue_init (VInt 1) BYTES = Ok r /\
    add spec_unit_value l r = Ok x /\
    decimal_value x = DFin false (10 ^ 49) 1 /\
    ~ (dval (decimal_value x)
       == dval (decimal_value l) + dval (decimal_value r))%Q.
Proof.
  eexists _, _, _.
  split; [vm_compute; reflexivity | ].
  split; [vm_compute; reflexivity | ].
  split; [vm_compute; reflexivity | ].
  split; [vm_compute; reflexivity | ].
  intros H. vm_compute in H. discriminate H.
Qed.

(** ** Round trips *)

(** One conversion whose byte count and result are decimals of the
    context. *)
Lemma convert_to_dval (unit_value : StorageUnit -> Decimal) (v : StorageValue)
    (t : StorageUnit) (b q : Decimal) :
  positive_finite (unit_value (unit v)) -> positive_finite (unit_value t) ->
  finite (decimal_value v) -> nonneg (decimal_value v) ->
  in_context b -> in_context q ->
  (dval b == dval (decimal_value v) * dval (unit_value (unit v)))%Q ->
  (dval q * dval (unit_value t) == dval b)%Q ->
  exists r,
    fst (convert_to unit_value (ConversionEngine_init v) t) = Ok r /\
    unit r = t /\ finite (decimal_value r) /\ nonneg (decimal_value r) /\
    (dval (decimal_value r) == dval q)%Q.
Proof.
  intros Hu Ht Hfin Hnn Hb Hq Hvb Hvq.
  assert (Hcancel : forall x : Q,
            (x * dval (unit_value t) == dval q * dval (unit_value t))%Q ->
            (x == dval q)%Q).
  { intros x Hx. apply (Qmult_inj_r _ _ (dval (unit_value t))); [ | exact Hx].
    apply positive_finite_dval in Ht. intros H0. rewrite H0 in Ht.
    now apply Qlt_irrefl in Ht. }
  unfold convert_to, ConversionEngine_init. simpl storage_value.
  destruct (decide (unit v = t)) as [<- | Hne].
  { exists v. simpl. repeat split; try assumption.
    apply Hcancel. now rewrite Hvq, Hvb. }
  simpl conversion_cache. rewrite lookup_empty.
  unfold to_bytes.
  destruct (decimal_value v) as [s c e | | ] eqn:Hm; try contradiction.
  destruct (Decimal_mul_dval s c e _ b Hu Hb Hvb) as (c1 & e1 & Hmul & Hv1 & Hz1).
  rewrite Hmul, bind_Ok.
  assert (Hvq1 : (dval q * dval (unit_value t) == dval (DFin s c1 e1))%Q)
    by now rewrite Hvq, Hv1.
  destruct (Decimal_truediv_dval s c1 e1 _ q Ht Hq Hvq1)
    as (c2 & e2 & Hdiv & Hv2 & Hz2).
  rewrite Hdiv, bind_Ok.
  assert (Hn2 : nonneg (DFin s c2 e2)).
  { simpl in *. destruct Hnn as [Hs | Hc]; [now left | right; auto]. }
  rewrite (StorageValue_init_decimal_nonneg _ _ Hn2).
  exists (mkStorageValue (DFin s c2 e2) t). simpl.
  repeat split; try assumption.
  apply Hcancel. now rewrite Hv2, Hvq1.
Qed.

(** C4, as the code has it. For a magnitude [>= 0] of the 50-digit context
    and a unit table of positive multipliers: when the byte count of the
    value and its magnitude in the target unit are decimals of the context
    too, converting to the target unit returns that magnitude, and
    converting the result back returns a value of the first unit that
    stands for the first magnitude.  So 1024 BYTES is 1 KIB, and 1 KIB is
    1024 BYTES again. *)
Theorem round_trip_exact_in_context :
  forall (unit_value : StorageUnit -> Decimal) (v : StorageValue)
         (t : StorageUnit) (bytes_value target_value : Decimal),
    (forall u, positive_finite (unit_value u)) ->
    nonneg (decimal_value v) -> in_context (decimal_value v) ->
    in_context bytes_value -> in_context target_value ->
    (dval bytes_value
     == dval (decimal_value v) * dval (unit_value (unit v)))%Q ->
    (dval target_value * dval (unit_value t) == dval bytes_value)%Q ->
    (exists there back,
       fst (convert_to unit_value (ConversionEngine_init v) t) = Ok there /\
       unit there = t /\
       (dval (decimal_value there) == dval target_value)%Q /\
       fst (convert_to unit_value (ConversionEngine_init there) (unit v))
       = Ok back /\
       unit back = unit v /\ finite (decimal_value back) /\
       (dval (decimal_value back) == dval (decimal_value v))%Q) /\
    fst (convert_to spec_unit_value
           (ConversionEngine_init (mkStorageValue (Decimal_of_int 1024) BYTES))
           KIB)
    = Ok (mkStorageValue (Decimal_of_int 1) KIB) /\
    fst (convert_to spec_unit_value
           (ConversionEngine_init (mkStorageValue (Decimal_of_int 1) KIB))
           BYTES)
    = Ok (mkStorageValue (Decimal_of_int 1024) BYTES).
Proof.
  intros unit_value v t b q Hu Hnn Hctx Hb Hq Hvb Hvq.
  split; [ | split; vm_compute; reflexivity].
  assert (Hfin : finite (decimal_value v))
    by (destruct (decimal_value v); [exact I | contradiction | contradiction]).
  destruct (convert_to_dval unit_value v t b q (Hu _) (Hu _) Hfin Hnn Hb Hq Hvb Hvq)
    as (r1 & Hr1 & Hunit1 & Hfin1 & Hnn1 & Hv1).
  assert (Hvb' : (dval b
                  == dval (decimal_value r1) * dval (unit_value (unit r1)))%Q)
    by now rewrite Hunit1, Hv1, Hvq.
  assert (Hvq' : (dval (decimal_value v) * dval (unit_value (unit v)) == dval b)%Q)
    by now rewrite Hvb.
  destruct (convert_to_dval unit_value r1 (unit v) b (decimal_value v)
              (Hu _) (Hu _) Hfin1 Hnn1 Hb Hctx Hvb' Hvq')
    as (r2 & Hr2 & Hunit2 & Hfin2 & _ & Hv2).
  exists r1, r2. repeat split; assumption.
Qed.

Lemma round_trip_exact_in_context_witness :
  exists there back,
    fst (convert_to spec_unit_value
           (ConversionEngine_init (mkStorageValue (DFin false 15 (-1)) KIB)) BYTES)
    = Ok there /\
    (dval (decimal_value there) == 1536 # 1)%Q /\
    fst (convert_to spec_unit_value (ConversionEngine_init there) KIB) = Ok back /\
    unit back = KIB /\ (dval (decimal_value back) == 15 # 10)%Q.
Proof.
  assert (Hu : forall u, positive_finite (spec_unit_value u)).
  { intros u. destruct u; vm_compute; eexists _, _;
      (split; [reflexivity | intros H; discriminate H]). }
  destruct (round_trip_exact_in_context spec_unit_value
              (mkStorageValue (DFin false 15 (-1)) KIB) BYTES
              (DFin false 1536 0) (DFin false 1536 0) Hu)
    as [(there & back & Ht & _ & Hvt & Hb & Hub & _ & Hvb) _].
  - left. reflexivity.
  - vm_compute. repeat split; intros H; discriminate H.
  - vm_compute. repeat split; intros H; discriminate H.
  - vm_compute. repeat split; intros H; discriminate H.
  - vm_compute. reflexivity.
  - vm_compute. reflexivity.
  - exists there, back. split; [exact Ht | split]; [ | split; [exact Hb | split]].
    + rewrite Hvt. vm_compute. reflexivity.
    + exact Hub.
    + rewrite Hvb. vm_compute. reflexivity.
Defined.

(** C4, as stated, fails: 10^50 - 21 bytes is a magnitude of the context,
    its magnitude in KIB has 57 digits and is rounded to 50, and the way
    back returns 10^50 - 22 bytes. *)
Lemma round_trip_drifts :
  exists v there back,
    StorageValue_init (VInt (10 ^ 50 - 21)) BYTES = Ok v /\
    fst (convert_to spec_unit_value (ConversionEngine_init v) KIB) = Ok there /\
    fst (convert_to spec_unit_value (ConversionEngine_init there) BYTES)
    = Ok back /\
    decimal_value back = Decimal_of_int (10 ^ 50 - 22) /\
    ~ (dval (decimal_value back) == dval (decimal_value v))%Q.
Proof.
  eexists _, _, _.
  split; [vm_compute; reflexivity | ].
  split; [vm_compute; reflexivity | ].
  split; [vm_compute; reflexivity | ].
  split; [vm_compute; reflexivity | ].
  intros H. vm_compute in H. discriminate H.
Qed.

(** * The other methods of [core.py] *)

(** ** The parser's other entry points *)

(** The three ways [parse] ends. *)
Lemma parse_cases (aliases : gmap string StorageUnit) (s : string)
    (du : option StorageUnit) :
  let normalized := comma_to_dot (lower (strip s)) in
  (is_empty (strip s) = true /\
   parse aliases s du = Raise (ValueError EmptyInput)) \/
  (is_empty (strip s) = false /\ pattern_match normalized = None /\
   parse aliases s du = Raise (ValueError InvalidFormat)) \/
  (exists value_str unit_str c e,
     is_empty (strip s) = false /\
     pattern_match normalized = Some (value_str, unit_str) /\
     Decimal_of_str value_str = Ok (DFin false c e) /\
     parse aliases s du
     = Ok (DFin false c e,
           default (default BYTES du) (aliases !! lower unit_str))).
Proof.
  intros normalized. unfold parse. fold normalized.
  destruct (is_empty (strip s)) eqn:He; [now left | right].
  destruct (pattern_match normalized) as [[v u] | ] eqn:Hp; [right | now left].
  pose proof (pattern_match_sound _ _ _ Hp)
    as (d1 & dot & d2 & ws & tail & _ & -> & Hd1 & Hdot & Hd2 & Hne & _).
  destruct (Decimal_of_str_group1 d1 dot d2 Hd1 Hdot Hd2 Hne) as (c & e & Hd).
  exists (d1 ++ dot ++ d2), u, c, e. now rewrite Hd.
Qed.

Lemma is_space_lower_char (c : ascii) : is_space (lower_char c) = is_space c.
Proof. by_ascii_cases c. Qed.

Lemma lower_char_idem (c : ascii) : lower_char (lower_char c) = lower_char c.
Proof. by_ascii_cases c. Qed.

Lemma lower_idem (s : string) : lower (lower s) = lower s.
Proof.
  induction s as [| c r IH]; simpl; [reflexivity | ].
  now rewrite lower_char_idem, IH.
Qed.

Lemma forallb_space_lower (s : string) :
  forallb_str is_space (lower s) = forallb_str is_space s.
Proof.
  induction s as [| c r IH]; simpl; [reflexivity | ].
  now rewrite is_space_lower_char, IH.
Qed.

Lemma lstrip_lower (s : string) : lstrip (lower s) = lower (lstrip s).
Proof.
  induction s as [| c r IH]; simpl; [reflexivity | ].
  rewrite is_space_lower_char. now destruct (is_space c).
Qed.

Lemma rstrip_lower (s : string) : rstrip (lower s) = lower (rstrip s).
Proof.
  induction s as [| c r IH]; simpl; [reflexivity | ].
  rewrite is_space_lower_char, forallb_space_lower.
  destruct (is_space c && forallb_str is_space r); simpl; [reflexivity | ].
  now rewrite IH.
Qed.

Lemma strip_lower (s : string) : strip (lower s) = lower (strip s).
Proof. unfold strip. now rewrite lstrip_lower, rstrip_lower. Qed.

Lemma forallb_space_rstrip (s : string) :
  forallb_str is_space (rstrip s) = forallb_str is_space s.
Proof.
  induction s as [| c r IH]; simpl; [reflexivity | ].
  destruct (is_space c && forallb_str is_space r) eqn:H; simpl; [reflexivity | ].
  now rewrite IH.
Qed.

Lemma rstrip_idem (s : string) : rstrip (rstrip s) = rstrip s.
Proof.
  induction s as [| c r IH]; simpl; [reflexivity | ].
  destruct (is_space c && forallb_str is_space r) eqn:H; simpl; [reflexivity | ].
  now rewrite forallb_space_rstrip, H, IH.
Qed.

(** What [lstrip] leaves does not start with white space. *)
Lemma lstrip_head (s : string) :
  match lstrip s with String c _ => is_space c = false | "" => True end.
Proof.
  induction s as [| c r IH]; simpl; [exact I | ].
  destruct (is_space c) eqn:H; [exact IH | exact H].
Qed.

Lemma lstrip_rstrip_lstrip (s : string) :
  lstrip (rstrip (lstrip s)) = rstrip (lstrip s).
Proof.
  pose proof (lstrip_head s) as H.
  destruct (lstrip s) as [| c r]; simpl; [reflexivity | ].
  rewrite H. simpl. now rewrite H.
Qed.

Lemma strip_idem (s : string) : strip (strip s) = strip s.
Proof. unfold strip. now rewrite lstrip_rstrip_lstrip, rstrip_idem. Qed.

Lemma is_empty_lower (s : string) : is_empty (lower s) = is_empty s.
Proof. now destruct s. Qed.

(** What the normal form keeps of the three steps. *)
Lemma normalized_fixed (s : string) :
  let n := comma_to_dot (lower (strip s)) in
  strip n = n /\ lower n = n /\ comma_to_dot n = n.
Proof.
  simpl. split; [ | split].
  - now rewrite strip_comma_to_dot, strip_lower, strip_idem.
  - now rewrite lower_comma_to_dot, lower_idem.
  - apply comma_to_dot_idem.
Qed.

Lemma parse_to_storage_value_Ok (aliases : gmap string StorageUnit) (s : string)
    (du : option StorageUnit) (c : N) (e : Z) (u : StorageUnit) :
  parse aliases s du = Ok (DFin false c e, u) ->
  parse_to_storage_value aliases s du = Ok (mkStorageValue (DFin false c e) u).
Proof.
  intros H. unfold parse_to_storage_value. rewrite H, bind_Ok.
  apply StorageValue_init_decimal_nonneg. now left.
Qed.

(** [parse_to_storage_value] returns the decimal [parse] reads in the unit
    [parse] finds, and raises only what [parse] raises, which is
    FormatError: the constructor never rejects a parsed magnitude, which is
    finite and [>= 0]. *)
Theorem parse_to_storage_value_as_parse :
  forall (aliases : gmap string StorageUnit) (s : string)
         (du : option StorageUnit),
    match parse aliases s du with
    | Ok (v, u) =>
        parse_to_storage_value aliases s du = Ok (mkStorageValue v u) /\
        finite v /\ nonneg v
    | Raise e => parse_to_storage_value aliases s du = Raise e /\ FormatError e
    end.
Proof.
  intros aliases s du.
  destruct (parse_cases aliases s du)
    as [[_ H] | [(_ & _ & H) | (v & u & c & e & _ & _ & _ & H)]].
  - unfold parse_to_storage_value. rewrite H.
    split; [reflexivity | now left].
  - unfold parse_to_storage_value. rewrite H.
    split; [reflexivity | now right].
  - rewrite (parse_to_storage_value_Ok _ _ _ _ _ _ H), H.
    split; [reflexivity | split; [exact I | now left]].
Qed.

(** [is_valid_format] never raises. It answers [True] exactly on the
    strings that are not blank and whose normal form matches the pattern,
    and these are the strings [parse_to_storage_value] accepts, whatever
    the default unit. *)
Theorem is_valid_format_decides :
  forall (aliases : gmap string StorageUnit) (s : string),
  exists b : bool,
    is_valid_format aliases s = Ok b /\
    (b = true <->
     is_empty (strip s) = false /\
     exists v u, matches_pattern (get_normalized_string s) v u) /\
    (forall du,
       b = true <-> exists sv, parse_to_storage_value aliases s du = Ok sv).
Proof.
  intros aliases s. unfold is_valid_format, get_normalized_string.
  assert (Hdu : forall du,
            is_ok (parse_to_storage_value aliases s du)
            = is_ok (parse aliases s None)).
  { intros du.
    destruct (parse_cases aliases s du)
      as [[He Hp] | [(He & Hm & Hp) | (v & u & c & e & He & Hm & Hd & Hp)]];
      destruct (parse_cases aliases s None)
        as [[He' Hp'] | [(He' & Hm' & Hp') | (v' & u' & c' & e' & He' & Hm' & _ & Hp')]];
      rewrite Hp'; try congruence;
      try (rewrite (parse_to_storage_value_Ok _ _ _ _ _ _ Hp); reflexivity);
      unfold parse_to_storage_value; rewrite Hp; reflexivity. }
  destruct (parse_cases aliases s None)
    as [[He Hp] | [(He & Hm & Hp) | (v & u & c & e & He & Hm & Hd & Hp)]];
    rewrite Hp in *.
  - exists false. split; [reflexivity | split].
    + split; [discriminate | ]. intros [H _]. congruence.
    + intros du. specialize (Hdu du). split; [discriminate | ].
      intros [sv Hsv]. rewrite Hsv in Hdu. discriminate.
  - exists false. split; [reflexivity | split].
    + split; [discriminate | ]. intros [_ H].
      apply pattern_match_None in Hm. contradiction.
    + intros du. specialize (Hdu du). split; [discriminate | ].
      intros [sv Hsv]. rewrite Hsv in Hdu. discriminate.
  - exists true. split; [reflexivity | split].
    + split; [ | reflexivity]. intros _. split; [exact He | ].
      exists v, u. now apply pattern_match_sound.
    + intros du. specialize (Hdu du). split; [ | reflexivity]. intros _.
      destruct (parse_to_storage_value aliases s du) as [sv | ]; [eauto | ].
      discriminate.
Qed.

Lemma has_comma_comma_to_dot (s : string) : has_char "," (comma_to_dot s) = false.
Proof.
  induction s as [| c r IH]; simpl; [reflexivity | ].
  now rewrite comma_to_dot_char_idem, IH.
Qed.

(** [get_normalized_string] returns a normal form: normalizing it again
    changes nothing, it has no comma, no white space at its ends and no
    letter that [lower] would change; and [parse] reads a string and its
    normal form alike, results and errors. *)
Theorem get_normalized_string_normal_form :
  forall (aliases : gmap string StorageUnit) (s : string)
         (du : option StorageUnit),
    let n := get_normalized_string s in
    get_normalized_string n = n /\
    strip n = n /\ lower n = n /\ has_char "," n = false /\
    parse aliases n du = parse aliases s du.
Proof.
  intros aliases s du. unfold get_normalized_string.
  destruct (normalized_fixed s) as (Hs & Hl & Hc). cbv zeta in *.
  split; [ | split; [ | split; [ | split]]].
  - now rewrite Hs, Hl, Hc.
  - exact Hs.
  - exact Hl.
  - apply has_comma_comma_to_dot.
  - unfold parse. rewrite Hs, Hl, Hc.
    now rewrite is_empty_comma_to_dot, is_empty_lower.
Qed.

(** ** The conversion cache *)

Lemma unit_name_inj (t t' : StorageUnit) : unit_name t = unit_name t' -> t = t'.
Proof. destruct t, t'; simpl; intros H; (reflexivity || discriminate H). Qed.

Lemma str_app_inv_head (p a b : string) : p ++ a = p ++ b -> a = b.
Proof. induction p as [| c r IH]; simpl; [auto | ]. intros [= H]. auto. Qed.

Lemma cache_key_inj (u t t' : StorageUnit) :
  cache_key u t = cache_key u t' -> t = t'.
Proof.
  unfold cache_key. intros H.
  apply str_app_inv_head, str_app_inv_head in H. now apply unit_name_inj.
Qed.

(** The three ways through [convert_to]. *)
Lemma convert_to_same (unit_value : StorageUnit -> Decimal)
    (eng : ConversionEngine) (t : StorageUnit) :
  unit (storage_value eng) = t ->
  convert_to unit_value eng t = (Ok (storage_value eng), eng).
Proof. intros H. unfold convert_to. now destruct (decide _). Qed.

Lemma convert_to_hit (unit_value : StorageUnit -> Decimal)
    (eng : ConversionEngine) (t : StorageUnit) (cached : StorageValue) :
  unit (storage_value eng) <> t ->
  conversion_cache eng !! cache_key (unit (storage_value eng)) t = Some cached ->
  convert_to unit_value eng t = (Ok cached, eng).
Proof.
  intros Hne Hc. unfold convert_to. destruct (decide _); [contradiction | ].
  unfold cache_key in Hc. now rewrite Hc.
Qed.

Lemma convert_to_miss (unit_value : StorageUnit -> Decimal)
    (eng : ConversionEngine) (t : StorageUnit) :
  unit (storage_value eng) <> t ->
  conversion_cache eng !! cache_key (unit (storage_value eng)) t = None ->
  convert_to unit_value eng t
  = match converted unit_value (storage_value eng) t with
    | Ok r =>
        (Ok r,
         mkConversionEngine (storage_value eng)
           (<[cache_key (unit (storage_value eng)) t := r]>
              (conversion_cache eng)))
    | Raise e => (Raise e, eng)
    end.
Proof.
  intros Hne Hc. unfold convert_to. destruct (decide _); [contradiction | ].
  unfold cache_key in Hc. now rewrite Hc.
Qed.

Lemma convert_to_new (unit_value : StorageUnit -> Decimal) (v : StorageValue)
    (t : StorageUnit) :
  unit v <> t ->
  fst (convert_to unit_value (ConversionEngine_init v) t)
  = converted unit_value v t.
Proof.
  intros Hne. rewrite convert_to_miss; [ | exact Hne | apply lookup_empty].
  simpl. now destruct (converted unit_value v t).
Qed.

(** Every entry of the cache is the value a new engine computes. *)
Lemma engine_of_cache (unit_value : StorageUnit -> Decimal) (v : StorageValue)
    (eng : ConversionEngine) :
  engine_of unit_value v eng ->
  storage_value eng = v /\
  forall t r,
    conversion_cache eng !! cache_key (unit v) t = Some r ->
    converted unit_value v t = Ok r.
Proof.
  induction 1 as [ | eng t _ [Hsv IH] | eng _ [Hsv _]].
  - split; [reflexivity | ]. intros t r. simpl. now rewrite lookup_empty.
  - destruct (decide (unit (storage_value eng) = t)) as [Heq | Hne];
      [rewrite (convert_to_same _ _ _ Heq); now split | ].
    destruct (conversion_cache eng !! cache_key (unit (storage_value eng)) t)
      as [cached | ] eqn:Hc;
      [rewrite (convert_to_hit _ _ _ _ Hne Hc); now split | ].
    rewrite (convert_to_miss _ _ _ Hne Hc).
    destruct (converted unit_value (storage_value eng) t) as [x | e] eqn:Hx;
      [ | now split].
    simpl. split; [exact Hsv | ]. intros t' r Hr. rewrite Hsv in *.
    apply lookup_insert_Some in Hr as [[Hk <-] | [_ Hr]]; [ | now apply IH].
    apply cache_key_inj in Hk. now subst t'.
  - split; [exact Hsv | ]. intros t r. simpl. now rewrite lookup_empty.
Qed.

(** What an engine answers, whatever it has been through. *)
Lemma convert_to_fst (unit_value : StorageUnit -> Decimal) (v : StorageValue)
    (eng : ConversionEngine) (t : StorageUnit) :
  engine_of unit_value v eng ->
  fst (convert_to unit_value eng t)
  = if decide (unit v = t) then Ok v else converted unit_value v t.
Proof.
  intros Heng.
  destruct (engine_of_cache unit_value v eng Heng) as [Hsv Hcache].
  rewrite <- Hsv in *.
  destruct (decide (unit (storage_value eng) = t)) as [Heq | Hne];
    [now rewrite (convert_to_same _ eng t Heq) | ].
  destruct (conversion_cache eng !! cache_key (unit (storage_value eng)) t)
    as [cached | ] eqn:Hc.
  - rewrite (convert_to_hit _ _ _ _ Hne Hc). simpl. now rewrite (Hcache _ _ Hc).
  - rewrite (convert_to_miss _ _ _ Hne Hc).
    now destruct (converted unit_value (storage_value eng) t).
Qed.

(** The cache of [convert_to] cannot be observed: whatever conversions and
    [clear_cache] calls an engine has been through, it still holds the
    value it was made for, [convert_to] answers as a new engine would, the
    results and the errors, and a call repeated at once changes nothing
    more. *)
Theorem conversion_cache_transparent :
  forall (unit_value : StorageUnit -> Decimal) (v : StorageValue)
         (eng : ConversionEngine) (t : StorageUnit),
    engine_of unit_value v eng ->
    storage_value eng = v /\
    fst (convert_to unit_value eng t)
    = fst (convert_to unit_value (ConversionEngine_init v) t) /\
    convert_to unit_value (snd (convert_to unit_value eng t)) t
    = (fst (convert_to unit_value eng t), snd (convert_to unit_value eng t)).
Proof.
  intros unit_value v eng t Heng.
  destruct (engine_of_cache unit_value v eng Heng) as [Hsv Hcache].
  split; [exact Hsv | split].
  { rewrite (convert_to_fst _ v eng t Heng).
    now rewrite (convert_to_fst _ v _ t (engine_new _ v)). }
  destruct (decide (unit (storage_value eng) = t)) as [Heq | Hne].
  { rewrite (convert_to_same _ eng t Heq). simpl.
    now rewrite (convert_to_same _ eng t Heq). }
  destruct (conversion_cache eng !! cache_key (unit (storage_value eng)) t)
    as [cached | ] eqn:Hc.
  { rewrite (convert_to_hit _ _ _ _ Hne Hc). simpl.
    now rewrite (convert_to_hit _ _ _ _ Hne Hc). }
  rewrite (convert_to_miss _ _ _ Hne Hc).
  destruct (converted unit_value (storage_value eng) t) as [x | e] eqn:Hx; simpl.
  - apply convert_to_hit; simpl; [exact Hne | apply lookup_insert_eq].
  - now rewrite (convert_to_miss _ _ _ Hne Hc), Hx.
Qed.

Lemma conversion_cache_transparent_witness :
  let v := mkStorageValue (Decimal_of_int 1024) BYTES in
  let eng := clear_cache (snd (convert_to spec_unit_value
                                 (snd (convert_to spec_unit_value
                                         (ConversionEngine_init v) MB)) KIB)) in
  fst (convert_to spec_unit_value eng KIB)
  = Ok (mkStorageValue (Decimal_of_int 1) KIB).
Proof.
  intros v eng.
  destruct (conversion_cache_transparent spec_unit_value v eng KIB) as (_ & -> & _).
  - apply engine_clear, engine_convert, engine_convert, engine_new.
  - vm_compute. reflexivity.
Defined.

(** A conversion of a finite magnitude [>= 0] between units of positive
    multipliers. *)
Lemma converted_cases (unit_value : StorageUnit -> Decimal) (v : StorageValue)
    (t : StorageUnit) :
  (forall u, positive_finite (unit_value u)) ->
  finite (decimal_value v) -> nonneg (decimal_value v) -> unit v <> t ->
  (exists r,
     converted unit_value v t = Ok r /\ unit r = t /\
     to_unit unit_value v t = Ok (decimal_value r) /\
     finite (decimal_value r) /\ nonneg (decimal_value r)) \/
  (converted unit_value v t = Raise (DecimalException Overflow) /\
   to_unit unit_value v t = Raise (DecimalException Overflow)).
Proof.
  intros Hu Hfin Hnn Hne. unfold converted, to_unit, to_bytes.
  destruct (decide (unit v = t)); [contradiction | ].
  destruct (Hu (unit v)) as (cu & eu & -> & Hcu).
  destruct (Hu t) as (ct & et & -> & Hct).
  destruct (decimal_value v) as [s c e | | ]; try contradiction.
  unfold Decimal_mul. simpl check_nans. cbv iota. rewrite Bool.xorb_false_r.
  destruct (fix_cases s (c * cu) (e + eu)) as [-> | (c1 & e1 & -> & Hz1)];
    [now right | ].
  rewrite !bind_Ok.
  destruct (Decimal_truediv_cases s c1 e1 false ct et Hct)
    as [-> | (c2 & e2 & -> & Hz2)]; [now right | left].
  rewrite Bool.xorb_false_r, bind_Ok.
  assert (Hn2 : nonneg (DFin s c2 e2)).
  { simpl in *. destruct Hnn as [Hs | Hc]; [now left | right].
    apply Hz2, Hz1. subst c. apply N.mul_0_l. }
  rewrite (StorageValue_init_decimal_nonneg _ _ Hn2).
  exists (mkStorageValue (DFin s c2 e2) t). simpl. auto.
Qed.

(** [convert_to] and [StorageValue.to_unit] agree, and overflow is all that
    can go wrong: on an engine made for a finite magnitude [>= 0], with
    positive multipliers, [convert_to] returns a value in the target unit
    whose magnitude is the decimal [to_unit] returns, and is [>= 0], or
    both raise the decimal signal Overflow.  It never raises a
    ValueError. *)
Theorem convert_to_agrees_with_to_unit :
  forall (unit_value : StorageUnit -> Decimal) (v : StorageValue)
         (eng : ConversionEngine) (t : StorageUnit),
    (forall u, positive_finite (unit_value u)) ->
    finite (decimal_value v) -> nonneg (decimal_value v) ->
    engine_of unit_value v eng ->
    (exists r,
       fst (convert_to unit_value eng t) = Ok r /\ unit r = t /\
       to_unit unit_value v t = Ok (decimal_value r) /\
       finite (decimal_value r) /\ nonneg (decimal_value r)) \/
    (fst (convert_to unit_value eng t) = Raise (DecimalException Overflow) /\
     to_unit unit_value v t = Raise (DecimalException Overflow)).
Proof.
  intros unit_value v eng t Hu Hfin Hnn Heng.
  rewrite (convert_to_fst _ v eng t Heng).
  destruct (decide (unit v = t)) as [Heq | Hne].
  - left. exists v. unfold to_unit.
    destruct (decide (unit v = t)); [auto | contradiction].
  - now apply converted_cases.
Qed.

Lemma convert_to_agrees_with_to_unit_witness :
  let v := mkStorageValue (DFin false 15 (-1)) KIB in
  exists r,
    fst (convert_to spec_unit_value (ConversionEngine_init v) BYTES) = Ok r /\
    to_unit spec_unit_value v BYTES = Ok (decimal_value r).
Proof.
  intros v.
  assert (Hu : forall u, positive_finite (spec_unit_value u)).
  { intros u. destruct u; vm_compute; eexists _, _;
      (split; [reflexivity | intros H; discriminate H]). }
  destruct (convert_to_agrees_with_to_unit spec_unit_value v
              (ConversionEngine_init v) BYTES Hu I (or_introl eq_refl)
              (engine_new _ v))
    as [(r & Hr & _ & Ht & _) | [Hr _]].
  - exists r. split; [exact Hr | exact Ht].
  - vm_compute in Hr. discriminate Hr.
Defined.

(** ** The ratio of two values *)

Lemma spec_unit_value_positive (u : StorageUnit) :
  positive_finite (spec_unit_value u).
Proof.
  destruct u; vm_compute; eexists _, _;
    (split; [reflexivity | intros H; discriminate H]).
Qed.

Lemma Decimal_eq_zero (s : bool) (c : N) (e : Z) :
  Decimal_eq (DFin s c e) zero = Ok (c =? 0)%N.
Proof.
  unfold Decimal_eq. simpl. destruct (c =? 0)%N; [reflexivity | ].
  now destruct s.
Qed.

(** A decimal that stands for a positive number is positive and finite. *)
Lemma dval_positive (s : bool) (c : N) (e : Z) :
  nonneg (DFin s c e) -> (0 < dval (DFin s c e))%Q ->
  positive_finite (DFin s c e).
Proof.
  intros Hn Hpos. rewrite (dval_magnitude _ _ _ Hn) in Hpos.
  assert (Hc : c <> 0%N).
  { intros ->. simpl in Hpos. rewrite Qmult_0_l in Hpos.
    now apply Qlt_irrefl in Hpos. }
  exists c, e. split; [ | exact Hc]. simpl in Hn. destruct Hn; congruence.
Qed.

(** [divide_by_storage] compares byte counts. A divisor whose magnitude is
    zero, in any unit and whatever the exponent of the zero, is refused
    with the ValueError of the method, before anything is computed. For
    finite magnitudes [>= 0] and positive multipliers, when both byte
    counts and their ratio are decimals of the context the ratio is what
    is returned; so the ratio of a value to itself is 1. *)
Theorem divide_by_storage_ratio :
  forall (unit_value : StorageUnit -> Decimal) (l r : StorageValue),
    (forall u, positive_finite (unit_value u)) ->
    finite (decimal_value l) -> nonneg (decimal_value l) ->
    finite (decimal_value r) -> nonneg (decimal_value r) ->
    (is_zero (decimal_value r) = true ->
     divide_by_storage unit_value l r = Raise (ValueError ZeroStorageDivisor)) /\
    (forall left_bytes right_bytes ratio,
       is_zero (decimal_value r) = false ->
       in_context left_bytes -> in_context right_bytes -> in_context ratio ->
       (dval left_bytes
        == dval (decimal_value l) * dval (unit_value (unit l)))%Q ->
       (dval right_bytes
        == dval (decimal_value r) * dval (unit_value (unit r)))%Q ->
       (dval ratio * dval right_bytes == dval left_bytes)%Q ->
       exists d,
         divide_by_storage unit_value l r = Ok d /\ finite d /\
         (dval d == dval ratio)%Q) /\
    (forall bytes_value,
       is_zero (decimal_value r) = false -> in_context bytes_value ->
       (dval bytes_value
        == dval (decimal_value r) * dval (unit_value (unit r)))%Q ->
       exists d,
         divide_by_storage unit_value r r = Ok d /\ finite d /\
         (dval d == 1)%Q).
Proof.
  intros unit_value l r Hu Hfl Hnl Hfr Hnr.
  assert (Hratio : forall l', finite (decimal_value l') ->
            nonneg (decimal_value l') ->
            forall bl br q,
              is_zero (decimal_value r) = false ->
              in_context bl -> in_context br -> in_context q ->
              (dval bl == dval (decimal_value l') * dval (unit_value (unit l')))%Q ->
              (dval br == dval (decimal_value r) * dval (unit_value (unit r)))%Q ->
              (dval q * dval br == dval bl)%Q ->
              exists d,
                divide_by_storage unit_value l' r = Ok d /\ finite d /\
                (dval d == dval q)%Q).
  { intros l' Hfl' Hnl' bl br q Hz Hbl Hbr Hq Hvl Hvr Hvq.
    unfold divide_by_storage.
    destruct (to_bytes_dval unit_value l' bl (Hu _) Hfl' Hnl' Hbl Hvl)
      as (sl & cl & el & Hl & Hnbl & Hdl).
    destruct (to_bytes_dval unit_value r br (Hu _) Hfr Hnr Hbr Hvr)
      as (sr & cr & er & Hr & Hnbr & Hdr).
    destruct (decimal_value r) as [s c e | | ] eqn:Hm; try contradiction.
    simpl in Hz. rewrite Decimal_eq_zero, Hz, bind_Ok, Hl, bind_Ok, Hr, bind_Ok.
    assert (Hpos : positive_finite (DFin sr cr er)).
    { apply dval_positive; [exact Hnbr | ]. rewrite Hdr.
      apply Qmult_lt_0_compat; [ | now apply positive_finite_dval].
      apply positive_finite_dval. exists c, e.
      apply N.eqb_neq in Hz. split; [ | exact Hz].
      simpl in Hnr. destruct Hnr; congruence. }
    assert (Hvq' : (dval q * dval (DFin sr cr er) == dval (DFin sl cl el))%Q)
      by now rewrite Hdr, Hdl, <- Hvr, <- Hvl.
    destruct (Decimal_truediv_dval sl cl el _ q Hpos Hq Hvq')
      as (c2 & e2 & Hdiv & Hv2 & _).
    exists (DFin sl c2 e2). split; [exact Hdiv | split; [exact I | ]].
    apply (Qmult_inj_r _ _ (dval (DFin sr cr er))); [ | now rewrite Hv2, Hvq'].
    apply positive_finite_dval in Hpos. intros H0. rewrite H0 in Hpos.
    now apply Qlt_irrefl in Hpos. }
  split; [ | split].
  - intros Hz. unfold divide_by_storage.
    destruct (decimal_value r) as [s c e | | ]; try discriminate.
    simpl in Hz. now rewrite Decimal_eq_zero, Hz.
  - now apply Hratio.
  - intros b Hz Hb Hvb.
    apply (Hratio r Hfr Hnr b b (DFin false 1 0) Hz Hb Hb); try assumption.
    + vm_compute. repeat split; intros H; discriminate H.
    + assert (H1 : (dval (DFin false 1 0) == 1)%Q) by (vm_compute; reflexivity).
      rewrite H1. ring.
Qed.

Lemma divide_by_storage_ratio_witness :
  exists d,
    divide_by_storage spec_unit_value
      (mkStorageValue (Decimal_of_int 2) KIB)
      (mkStorageValue (Decimal_of_int 1024) BYTES) = Ok d /\
    (dval d == 2 # 1)%Q.
Proof.
  destruct (divide_by_storage_ratio spec_unit_value
              (mkStorageValue (Decimal_of_int 2) KIB)
              (mkStorageValue (Decimal_of_int 1024) BYTES)
              spec_unit_value_positive I (or_introl eq_refl) I (or_introl eq_refl))
    as (_ & Hratio & _).
  destruct (Hratio (Decimal_of_int 2048) (Decimal_of_int 1024) (Decimal_of_int 2))
    as (d & Hd & _ & Hv).
  - reflexivity.
  - vm_compute. repeat split; intros H; discriminate H.
  - vm_compute. repeat split; intros H; discriminate H.
  - vm_compute. repeat split; intros H; discriminate H.
  - vm_compute. reflexivity.
  - vm_compute. reflexivity.
  - vm_compute. reflexivity.
  - exists d. split; [exact Hd | ]. rewrite Hv. vm_compute. reflexivity.
Defined.

(** ** The statistics of the decimal cache *)

Section DictLength.
Context {V : Type}.
Implicit Types (d : dict V) (k : string) (v : V).

Lemma dict_set_length k v d : (length (dict_set k v d) <= S (length d))%nat.
Proof.
  induction d as [| [k' v'] r IH]; simpl; [lia | ].
  destruct (String.eqb k' k); simpl; lia.
Qed.

Lemma dict_del_length k d : (length (dict_del k d) <= length d)%nat.
Proof.
  induction d as [| [k' v'] r IH]; simpl; [lia | ].
  destruct (String.eqb k' k); simpl; lia.
Qed.
End DictLength.

(** One call: a hit or a miss is counted, whether the call returns or
    raises, and a miss adds at most one entry. *)
Lemma get_cached_decimal_counts (pm : PerformanceManager) (s : string) :
  let pm' := snd (get_cached_decimal pm s) in
  match dict_get s (decimal_cache pm) with
  | Some _ =>
      decimal_cache_hits (stats pm') = decimal_cache_hits (stats pm) + 1 /\
      decimal_cache_misses (stats pm') = decimal_cache_misses (stats pm) /\
      decimal_cache pm' = decimal_cache pm
  | None =>
      decimal_cache_hits (stats pm') = decimal_cache_hits (stats pm) /\
      decimal_cache_misses (stats pm') = decimal_cache_misses (stats pm) + 1 /\
      (length (decimal_cache pm') <= S (length (decimal_cache pm)))%nat
  end /\
  conversion_cache_hits (stats pm') = conversion_cache_hits (stats pm) /\
  conversion_cache_misses (stats pm') = conversion_cache_misses (stats pm).
Proof.
  unfold get_cached_decimal.
  destruct (dict_get s (decimal_cache pm)) as [d | ]; [simpl; auto | ].
  destruct (Decimal_of_str s) as [d | e]; [ | simpl; auto].
  destruct (_ <=? _)%Z.
  - destruct (decimal_cache pm) as [| [k v] r]; [simpl; auto | ].
    cbn [first_key snd stats decimal_cache_hits decimal_cache_misses
         conversion_cache_hits conversion_cache_misses record_miss decimal_cache].
    repeat split; try reflexivity.
    etransitivity; [apply dict_set_length | ].
    apply le_n_S. apply (dict_del_length k ((k, v) :: r)).
  - cbn [snd stats decimal_cache_hits decimal_cache_misses
         conversion_cache_hits conversion_cache_misses record_miss decimal_cache].
    repeat split; try reflexivity. apply dict_set_length.
Qed.

(** The counters play no part in what a call returns or stores. *)
Lemma get_cached_decimal_ignores_stats (pm : PerformanceManager) (st : Stats)
    (s : string) :
  let pm0 := mkPerformanceManager (max_cache_size pm) (decimal_cache pm) st in
  fst (get_cached_decimal pm0 s) = fst (get_cached_decimal pm s) /\
  decimal_cache (snd (get_cached_decimal pm0 s))
  = decimal_cache (snd (get_cached_decimal pm s)) /\
  max_cache_size (snd (get_cached_decimal pm0 s))
  = max_cache_size (snd (get_cached_decimal pm s)).
Proof.
  unfold get_cached_decimal. simpl.
  destruct (dict_get s (decimal_cache pm)); [auto | ].
  destruct (Decimal_of_str s); [ | auto].
  destruct (_ <=? _)%Z; [ | auto].
  destruct (first_key (decimal_cache pm)); auto.
Qed.

Lemma run_cache_ignores_stats (ls : list string) (pm : PerformanceManager)
    (st : Stats) :
  let pm0 := mkPerformanceManager (max_cache_size pm) (decimal_cache pm) st in
  decimal_cache (run_cache pm0 ls) = decimal_cache (run_cache pm ls) /\
  max_cache_size (run_cache pm0 ls) = max_cache_size (run_cache pm ls).
Proof.
  revert pm st. induction ls as [| s ls IH]; intros pm st; [now split | ].
  cbv zeta. unfold run_cache. simpl fold_left.
  fold (run_cache (snd (get_cached_decimal
                          (mkPerformanceManager (max_cache_size pm)
                             (decimal_cache pm) st) s)) ls).
  fold (run_cache (snd (get_cached_decimal pm s)) ls).
  destruct (get_cached_decimal_ignores_stats pm st s) as (_ & Hc & Hm).
  cbv zeta in Hc, Hm.
  set (a := snd (get_cached_decimal
                   (mkPerformanceManager (max_cache_size pm) (decimal_cache pm) st)
                   s)) in *.
  set (b := snd (get_cached_decimal pm s)) in *.
  pose proof (IH b (stats a)) as Hb. cbv zeta in Hb.
  rewrite <- Hc, <- Hm in Hb. now destruct a.
Qed.

(** The statistics of the decimal cache add up. Over any run of
    [get_cached_decimal] calls, each call is counted once, as a hit or as a
    miss, the calls that raise among them; the conversion counters are not
    touched; and a cache with no more entries than misses stays so. The
    counters play no part in what is cached: after [reset_stats] the same
    run leaves the same cache, and its counters count that run alone. *)
Theorem decimal_cache_statistics :
  forall (pm : PerformanceManager) (literals : list string),
    let pm' := run_cache pm literals in
    let fresh := run_cache (reset_stats pm) literals in
    decimal_cache_hits (stats pm') + decimal_cache_misses (stats pm')
    = decimal_cache_hits (stats pm) + decimal_cache_misses (stats pm)
      + Z.of_nat (length literals) /\
    decimal_cache_hits (stats pm) <= decimal_cache_hits (stats pm') /\
    decimal_cache_misses (stats pm) <= decimal_cache_misses (stats pm') /\
    conversion_cache_hits (stats pm') = conversion_cache_hits (stats pm) /\
    conversion_cache_misses (stats pm') = conversion_cache_misses (stats pm) /\
    (Z.of_nat (length (decimal_cache pm)) <= decimal_cache_misses (stats pm) ->
     Z.of_nat (length (decimal_cache pm')) <= decimal_cache_misses (stats pm')) /\
    decimal_cache fresh = decimal_cache pm' /\
    decimal_cache_hits (stats fresh) + decimal_cache_misses (stats fresh)
    = Z.of_nat (length literals).
Proof.
  intros pm ls.
  assert (Hrun : forall ls pm,
            let pm' := run_cache pm ls in
            decimal_cache_hits (stats pm') + decimal_cache_misses (stats pm')
            = decimal_cache_hits (stats pm) + decimal_cache_misses (stats pm)
              + Z.of_nat (length ls) /\
            decimal_cache_hits (stats pm) <= decimal_cache_hits (stats pm') /\
            decimal_cache_misses (stats pm) <= decimal_cache_misses (stats pm') /\
            conversion_cache_hits (stats pm') = conversion_cache_hits (stats pm) /\
            conversion_cache_misses (stats pm') = conversion_cache_misses (stats pm) /\
            (Z.of_nat (length (decimal_cache pm)) <= decimal_cache_misses (stats pm) ->
             Z.of_nat (length (decimal_cache pm'))
             <= decimal_cache_misses (stats pm'))).
  { clear pm ls. induction ls as [| s ls IH]; intros pm.
    { cbv zeta. unfold run_cache. simpl. repeat split; lia. }
    cbv zeta. unfold run_cache. simpl fold_left.
    fold (run_cache (snd (get_cached_decimal pm s)) ls).
    pose proof (get_cached_decimal_counts pm s) as Hstep. cbv zeta in Hstep.
    specialize (IH (snd (get_cached_decimal pm s))). cbv zeta in IH.
    set (pm1 := snd (get_cached_decimal pm s)) in *.
    destruct IH as (Hsum & Hh & Hm & Hch & Hcm & Hlen).
    destruct Hstep as (Hcase & Hch1 & Hcm1).
    rewrite Hsum, Hch, Hcm. simpl length. rewrite Nat2Z.inj_succ.
    destruct (dict_get s (decimal_cache pm)).
    - destruct Hcase as (Hh1 & Hm1 & Hc1).
      split; [lia | split; [lia | split; [lia | split; [lia | split; [lia | ]]]]].
      intros Hinv. apply Hlen. rewrite Hc1. lia.
    - destruct Hcase as (Hh1 & Hm1 & Hc1).
      split; [lia | split; [lia | split; [lia | split; [lia | split; [lia | ]]]]].
      intros Hinv. apply Hlen. lia. }
  cbv zeta.
  destruct (Hrun ls pm) as (Hsum & Hh & Hm & Hch & Hcm & Hlen). cbv zeta in *.
  destruct (Hrun ls (reset_stats pm)) as (Hsum0 & _).
  destruct (run_cache_ignores_stats ls pm (mkStats 0 0 0 0)) as [Hcache _].
  split; [exact Hsum | split; [exact Hh | split; [exact Hm | ]]].
  split; [exact Hch | split; [exact Hcm | split; [exact Hlen | ]]].
  split; [exact Hcache | ]. simpl in Hsum0. lia.
Qed.

Lemma decimal_cache_statistics_witness :
  let pm := run_cache (PerformanceManager_init 2) ["1"; "x"; "2"; "1"; "3"; "3"] in
  decimal_cache_hits (stats pm) + decimal_cache_misses (stats pm) = 6 /\
  Z.of_nat (length (decimal_cache pm)) <= decimal_cache_misses (stats pm).
Proof.
  destruct (decimal_cache_statistics (PerformanceManager_init 2)
              ["1"; "x"; "2"; "1"; "3"; "3"])
    as (Hsum & _ & _ & _ & _ & Hlen & _).
  split; [exact Hsum | ]. apply Hlen. simpl. lia.
Defined.

(** ** The sign of a difference *)

(** Rounding a result whose exponent the context has does not lose it. *)
Lemma fix_nonzero (s : bool) (c : N) (e : Z) (s' : bool) (c' : N) (e' : Z) :
  (Context.Etiny <= e)%Z -> c <> 0%N ->
  fix_ s c e = Ok (DFin s' c' e') -> s' = s /\ c' <> 0%N.
Proof.
  intros He Hc. unfold fix_.
  destruct (N.eqb_spec c 0%N); [contradiction | ].
  pose proof (ndigits_pos c) as Hpos. pose proof (ndigits_lower c Hc) as Hlo.
  unfold_context.
  destruct (_ <? _)%Z; [discriminate | ].
  destruct (Z.ltb_spec e (Z.max (ndigits c + e - 50) (-999999 - 50 + 1)))
    as [Hround | _]; [ | intros [= <- <- <-]; auto].
  replace (Z.max (ndigits c + e - 50) (-999999 - 50 + 1))
    with (ndigits c + e - 50)%Z in * by lia.
  replace (ndigits c + e - 50 - e)%Z with (ndigits c - 50)%Z by lia.
  set (k := (ndigits c - 50)%Z) in *.
  pose proof (round_half_even_bounds c k) as [Hq _].
  assert (Hbig : (pow10 49 <= c / pow10 k)%N).
  { apply N.div_le_lower_bound; [pose proof (pow10_pos k); lia | ].
    rewrite N.mul_comm, <- pow10_add by lia.
    replace (49 + k)%Z with (ndigits c - 1)%Z by lia. exact Hlo. }
  assert (H49 : (10 <= pow10 49)%N) by (vm_compute; discriminate).
  destruct (_ <? _)%Z;
    (destruct (_ <? _)%Z; [discriminate | intros [= <- <- <-]]);
    (split; [reflexivity | ]).
  - intros H0. apply N.div_small_iff in H0; lia.
  - lia.
Qed.

(** Two magnitudes compare as their coefficients do at the smaller
    exponent. *)
Lemma aligned_lt (ca : N) (ea : Z) (cb : N) (eb : Z) :
  (inject_Z (Z.of_N ca) * Q10 ea < inject_Z (Z.of_N cb) * Q10 eb)%Q <->
  (ca * pow10 (ea - Z.min ea eb) < cb * pow10 (eb - Z.min ea eb))%N.
Proof.
  set (e := Z.min ea eb).
  pose proof (scale_value ca ea (ea - e) ltac:(lia)) as Ha.
  pose proof (scale_value cb eb (eb - e) ltac:(lia)) as Hb.
  replace (ea - (ea - e))%Z with e in Ha by lia.
  replace (eb - (eb - e))%Z with e in Hb by lia.
  rewrite <- Ha, <- Hb.
  rewrite Qmult_lt_r by apply Q10_pos. rewrite <- Zlt_Qlt. lia.
Qed.

(** The difference of two decimals of the context that are [>= 0] is below
    zero exactly when the first is the smaller. *)
Lemma Decimal_sub_sign (a b : Decimal) :
  in_context a -> in_context b -> nonneg a -> nonneg b ->
  exists s c e,
    Decimal_sub a b = Ok (DFin s c e) /\
    (s && negb (c =? 0)%N = true <-> (dval a < dval b)%Q).
Proof.
  intros Ha Hb Hna Hnb.
  destruct (Decimal_sub_in_context a b Ha Hb Hna Hnb) as (s & c & e & Hsub).
  exists s, c, e. split; [exact Hsub | ].
  destruct a as [sa ca ea | | ]; try contradiction.
  destruct b as [sb cb eb | | ]; try contradiction.
  rewrite (dval_magnitude sa ca ea Hna), (dval_magnitude sb cb eb Hnb).
  rewrite aligned_lt.
  destruct Ha as [Hea _]. destruct Hb as [Heb _].
  assert (He : (Context.Etiny <= Z.min ea eb)%Z) by lia.
  revert Hsub. unfold Decimal_sub, Decimal_add. simpl check_nans. cbv iota.
  simpl copy_negate. cbv iota zeta.
  pose proof (pow10_pos (ea - Z.min ea eb)) as Hpa.
  pose proof (pow10_pos (eb - Z.min ea eb)) as Hpb.
  set (m := Z.min ea eb) in *.
  set (xa := (ca * pow10 (ea - m))%N). set (xb := (cb * pow10 (eb - m))%N).
  assert (Hxa : xa = 0%N <-> ca = 0%N) by (unfold xa; nia).
  assert (Hxb : xb = 0%N <-> cb = 0%N) by (unfold xb; nia).
  assert (Hzero : forall s0, fix_ s0 0 m = Ok (DFin s c e) ->
            s && negb (c =? 0)%N = false).
  { intros s0. unfold fix_. simpl. intros [= <- <- <-].
    apply Bool.andb_false_r. }
  assert (Hsign : forall s0 x, x <> 0%N -> fix_ s0 x m = Ok (DFin s c e) ->
            s && negb (c =? 0)%N = s0).
  { intros s0 x Hx Hf. destruct (fix_nonzero _ _ _ _ _ _ He Hx Hf) as [-> Hc].
    destruct (N.eqb_spec c 0%N); [contradiction | apply Bool.andb_true_r]. }
  simpl in Hna, Hnb.
  destruct (N.eqb_spec ca 0%N) as [Hca | Hca];
    destruct (N.eqb_spec cb 0%N) as [Hcb | Hcb]; simpl andb; cbv iota.
  - intros Hf. rewrite (Hzero _ Hf). split; [discriminate | lia].
  - assert (sb = false) as -> by (destruct Hnb; congruence). simpl negb.
    destruct sa; simpl eqb; cbv iota.
    + intros Hf. rewrite (Hsign true (xa + xb)%N ltac:(lia) Hf). split; [lia | auto].
    + destruct (N.eqb_spec xa xb); [lia | ].
      destruct (N.ltb_spec xa xb); [ | lia].
      intros Hf. rewrite (Hsign true (xb - xa)%N ltac:(lia) Hf). split; [lia | auto].
  - assert (sa = false) as -> by (destruct Hna; congruence).
    destruct sb; simpl negb; simpl eqb; cbv iota.
    + intros Hf. rewrite (Hsign false (xa + xb)%N ltac:(lia) Hf).
      split; [discriminate | lia].
    + destruct (N.eqb_spec xa xb); [lia | ].
      destruct (N.ltb_spec xa xb); [lia | ].
      intros Hf. rewrite (Hsign false (xa - xb)%N ltac:(lia) Hf).
      split; [discriminate | lia].
  - assert (sa = false) as -> by (destruct Hna; congruence).
    assert (sb = false) as -> by (destruct Hnb; congruence).
    simpl negb. simpl eqb. cbv iota.
    destruct (N.eqb_spec xa xb) as [Heq | Hneq].
    { intros Hf. rewrite (Hzero _ Hf). split; [discriminate | lia]. }
    destruct (N.ltb_spec xa xb) as [Hlt | Hge]; intros Hf.
    + rewrite (Hsign true (xb - xa)%N ltac:(lia) Hf). split; [lia | auto].
    + rewrite (Hsign false (xa - xb)%N ltac:(lia) Hf).
      split; [discriminate | lia].
Qed.

(** [subtract] raises NegativeResult exactly when the left operand is the
    smaller one. On valid operands, with positive multipliers, the two
    numbers it subtracts are there (the magnitudes when the units agree,
    the byte counts when they do not); it raises NegativeResult if and only
    if the first is below the second, and otherwise returns a value in the
    unit of the operands, or in BYTES when their units differ. Rounding to
    the context never turns a negative difference into zero. *)
Theorem subtract_raises_iff_smaller :
  forall (unit_value : StorageUnit -> Decimal) (l r : StorageValue),
    (forall u, positive_finite (unit_value u)) ->
    valid_operands unit_value l r ->
    exists a b,
      subtracted unit_value l r = Ok (a, b) /\
      (subtract unit_value l r = Raise NegativeResult <-> (dval a < dval b)%Q) /\
      (~ (dval a < dval b)%Q ->
       exists x,
         subtract unit_value l r = Ok x /\
         unit x = (if decide (unit l = unit r) then unit l else BYTES) /\
         nonneg (decimal_value x)).
Proof.
  intros unit_value l r Hu (Hnl & Hnr & Hfl & Hfr & Hv).
  assert (Hfinish : forall (a b : Decimal) (u : StorageUnit),
            in_context a -> in_context b -> nonneg a -> nonneg b ->
            let body :=
              result_value <-- Decimal_sub a b ;;
              negative <-- Decimal_lt result_value zero ;;
              if (negative : bool) then Raise (ValueError NegativeDifference)
              else StorageValue_init (VDecimal result_value) u in
            (body = Raise NegativeResult <-> (dval a < dval b)%Q) /\
            (~ (dval a < dval b)%Q ->
             exists x, body = Ok x /\ unit x = u /\ nonneg (decimal_value x))).
  { intros a b u Ha Hb Hna Hnb. cbv zeta.
    destruct (Decimal_sub_sign a b Ha Hb Hna Hnb) as (s & c & e & -> & Hs).
    rewrite bind_Ok, Decimal_lt_zero, bind_Ok.
    destruct (s && negb (c =? 0)%N) eqn:Hneg.
    - split; [split; [intros _; now apply Hs | reflexivity] | ].
      intros Hno. exfalso. now apply Hno, Hs.
    - assert (Hn : nonneg (DFin s c e)).
      { simpl. destruct s; [right | now left].
        destruct (N.eqb_spec c 0%N); [assumption | discriminate]. }
      rewrite (StorageValue_init_decimal_nonneg _ u Hn).
      split; [split; [discriminate | ] | ].
      + intros Hlt. apply Hs in Hlt. discriminate.
      + intros _. eexists. split; [reflexivity | now split]. }
  unfold subtracted, subtract.
  destruct (decide (unit l = unit r)) as [Heq | Hne].
  - destruct Hv as [Hcl Hcr]. exists (decimal_value l), (decimal_value r).
    split; [reflexivity | ]. now apply Hfinish.
  - destruct Hv as [Hbl Hbr].
    destruct (to_bytes unit_value l) as [bl | ] eqn:Hl; [ | discriminate].
    destruct (to_bytes unit_value r) as [br | ] eqn:Hr; [ | discriminate].
    destruct (to_bytes_in_context _ _ _ (Hu _) Hfl Hnl Hl) as [Hcl Hnbl].
    destruct (to_bytes_in_context _ _ _ (Hu _) Hfr Hnr Hr) as [Hcr Hnbr].
    exists bl, br. rewrite !bind_Ok. split; [reflexivity | ].
    now apply Hfinish.
Qed.

Lemma subtract_raises_iff_smaller_witness :
  subtract spec_unit_value (mkStorageValue (Decimal_of_int 1) KB)
    (mkStorageValue (Decimal_of_int 1) KIB) = Raise NegativeResult.
Proof.
  destruct (subtract_raises_iff_smaller spec_unit_value
              (mkStorageValue (Decimal_of_int 1) KB)
              (mkStorageValue (Decimal_of_int 1) KIB)
              spec_unit_value_positive)
    as (a & b & Hab & Hiff & _).
  - vm_compute. repeat split; auto.
  - vm_compute in Hab. injection Hab as <- <-.
    apply Hiff. vm_compute. reflexivity.
Defined.

(** ** The order of the operands of [add] *)

Lemma Decimal_add_comm (a b : Decimal) :
  finite a -> finite b -> Decimal_add a b = Decimal_add b a.
Proof.
  destruct a as [sa ca ea | | ]; try contradiction.
  destruct b as [sb cb eb | | ]; try contradiction.
  intros _ _. unfold Decimal_add. simpl check_nans. cbv iota zeta.
  rewrite (Z.min_comm eb ea), (Bool.andb_comm (cb =? 0)%N), (Bool.andb_comm sb).
  destruct ((ca =? 0)%N && (cb =? 0)%N); [reflexivity | ].
  set (xa := (ca * pow10 (ea - Z.min ea eb))%N).
  set (xb := (cb * pow10 (eb - Z.min ea eb))%N).
  rewrite (N.add_comm xb xa).
  destruct sa, sb; simpl eqb; cbv iota; try reflexivity;
    destruct (N.eqb_spec xa xb) as [Heq | Hne];
    destruct (N.eqb_spec xb xa) as [Heq' | Hne']; try congruence; try reflexivity;
    destruct (N.ltb_spec xa xb); destruct (N.ltb_spec xb xa);
    try reflexivity; lia.
Qed.

(** The byte count of a finite magnitude is a finite decimal, or the
    product overflows. *)
Lemma to_bytes_cases (unit_value : StorageUnit -> Decimal) (v : StorageValue) :
  positive_finite (unit_value (unit v)) -> finite (decimal_value v) ->
  to_bytes unit_value v = Raise (DecimalException Overflow) \/
  exists s c e, to_bytes unit_value v = Ok (DFin s c e).
Proof.
  intros (cu & eu & Hu & _) Hfin. unfold to_bytes. rewrite Hu.
  destruct (decimal_value v) as [s c e | | ]; try contradiction.
  unfold Decimal_mul. simpl check_nans. cbv iota.
  destruct (fix_cases (xorb s false) (c * cu) (e + eu))
    as [-> | (c' & e' & -> & _)]; [now left | right; eauto].
Qed.

(** [add] does not depend on the order of its operands: for finite
    magnitudes and positive multipliers, [add l r] and [add r l] are the
    same, the value returned and the exception raised alike. *)
Theorem add_commutative :
  forall (unit_value : StorageUnit -> Decimal) (l r : StorageValue),
    (forall u, positive_finite (unit_value u)) ->
    finite (decimal_value l) -> finite (decimal_value r) ->
    add unit_value l r = add unit_value r l.
Proof.
  intros unit_value l r Hu Hfl Hfr. unfold add.
  destruct (decide (unit l = unit r)) as [Heq | Hne];
    destruct (decide (unit r = unit l)) as [Heq' | Hne']; try congruence.
  - now rewrite (Decimal_add_comm _ _ Hfl Hfr), Heq.
  - destruct (to_bytes_cases unit_value l (Hu _) Hfl) as [-> | (sl & cl & el & ->)];
      destruct (to_bytes_cases unit_value r (Hu _) Hfr) as [-> | (sr & cr & er & ->)];
      try reflexivity.
    rewrite !bind_Ok. now rewrite (Decimal_add_comm (DFin sl cl el) (DFin sr cr er)).
Qed.

Lemma add_commutative_witness :
  add spec_unit_value (mkStorageValue (Decimal_of_int 512) BYTES)
    (mkStorageValue (Decimal_of_int 1) KIB)
  = Ok (mkStorageValue (Decimal_of_int 1536) BYTES).
Proof.
  rewrite (add_commutative spec_unit_value
             (mkStorageValue (Decimal_of_int 512) BYTES)
             (mkStorageValue (Decimal_of_int 1) KIB)
             spec_unit_value_positive I I).
  vm_compute. reflexivity.
Defined.

(** ** Multiplying and dividing by the same number *)

Lemma value_lt_zero_positive (d : value) :
  positive_value d -> value_lt_zero d = Ok false.
Proof.
  unfold positive_value, value_sign, value_lt_zero.
  destruct d as [z | f | s | [s c e | s | g]]; try discriminate.
  - intros [= H]. f_equal. apply Z.ltb_ge. rewrite Z.compare_gt_iff in H. lia.
  - unfold float_lt_zero, SFltb. now intros ->.
  - rewrite Decimal_lt_zero. destruct (c =? 0)%N; [discriminate | ].
    now destruct s.
  - rewrite Decimal_lt_zero. now destruct s.
Qed.

(** [multiply] and [divide] undo each other where the context has the
    product. For a positive number [d] that [multiply] reads as the finite
    decimal [k], and a magnitude [>= 0] of the context: when the exact
    product is a decimal of the context, [multiply] returns it in the same
    unit, and [divide] by [d] then returns a value of that unit that stands
    for the first magnitude. *)
Theorem multiply_divide_round_trip :
  forall (v : StorageValue) (d : value) (k product : Decimal),
    is_numeric d = true -> positive_value d -> to_decimal d = Ok k ->
    finite k -> is_zero k = false ->
    nonneg (decimal_value v) -> in_context (decimal_value v) ->
    in_context product ->
    (dval product == dval (decimal_value v) * dval k)%Q ->
    exists w x,
      multiply v d = Ok w /\ unit w = unit v /\
      (dval (decimal_value w) == dval (decimal_value v) * dval k)%Q /\
      divide w d = Ok x /\ unit x = unit v /\ finite (decimal_value x) /\
      (dval (decimal_value x) == dval (decimal_value v))%Q.
Proof.
  intros v d k p Hnum Hpos Hk Hfk Hzk Hnn Hctx Hp Hval.
  destruct k as [sk ck ek | | ]; try contradiction.
  assert (sk = false) as -> by exact (to_decimal_positive d sk ck ek Hpos Hk).
  assert (Hkpos : positive_finite (DFin false ck ek)).
  { exists ck, ek. split; [reflexivity | ]. simpl in Hzk. now apply N.eqb_neq. }
  destruct (decimal_value v) as [s c e | | ] eqn:Hm; try contradiction.
  destruct (Decimal_mul_dval s c e _ p Hkpos Hp Hval) as (c1 & e1 & Hmul & Hv1 & Hz1).
  assert (Hn1 : nonneg (DFin s c1 e1)).
  { simpl in *. destruct Hnn as [Hs | Hc]; [now left | right; auto]. }
  assert (Hq : (dval (DFin s c e) * dval (DFin false ck ek) == dval (DFin s c1 e1))%Q)
    by now rewrite Hv1.
  assert (Hctx' : in_context (DFin s c e)) by exact Hctx.
  destruct (Decimal_truediv_dval s c1 e1 _ (DFin s c e) Hkpos Hctx' Hq)
    as (c2 & e2 & Hdiv & Hv2 & Hz2).
  assert (Hn2 : nonneg (DFin s c2 e2)).
  { simpl in *. destruct Hn1 as [Hs | Hc]; [now left | right; auto]. }
  exists (mkStorageValue (DFin s c1 e1) (unit v)),
         (mkStorageValue (DFin s c2 e2) (unit v)).
  split; [ | split; [reflexivity | split; [exact Hv1 | ]]].
  { unfold multiply. rewrite Hnum, (value_lt_zero_positive d Hpos). simpl negb.
    cbv iota. rewrite bind_Ok. cbv iota. rewrite Hk, bind_Ok, Hm, Hmul, bind_Ok.
    now apply StorageValue_init_decimal_nonneg. }
  split; [ | split; [reflexivity | split; [exact I | ]]].
  { apply (divide_with_ok Decimal_truediv
             (mkStorageValue (DFin s c1 e1) (unit v)) d (DFin false ck ek));
      [exact Hnum | now apply value_le_zero_positive | exact Hk | exact Hdiv
      | exact Hn2]. }
  simpl decimal_value.
  apply (Qmult_inj_r _ _ (dval (DFin false ck ek))); [ | now rewrite Hv2, Hq].
  apply positive_finite_dval in Hkpos. intros H0. rewrite H0 in Hkpos.
  now apply Qlt_irrefl in Hkpos.
Qed.

Lemma multiply_divide_round_trip_witness :
  exists w x,
    multiply (mkStorageValue (DFin false 15 (-1)) MB) (VInt 3) = Ok w /\
    (dval (decimal_value w) == 45 # 10)%Q /\
    divide w (VInt 3) = Ok x /\ unit x = MB /\
    (dval (decimal_value x) == 15 # 10)%Q.
Proof.
  destruct (multiply_divide_round_trip (mkStorageValue (DFin false 15 (-1)) MB)
              (VInt 3) (Decimal_of_int 3) (DFin false 45 (-1)))
    as (w & x & Hw & _ & Hvw & Hx & Hux & _ & Hvx).
  - reflexivity.
  - reflexivity.
  - reflexivity.
  - exact I.
  - reflexivity.
  - left. reflexivity.
  - vm_compute. repeat split; intros H; discriminate H.
  - vm_compute. repeat split; intros H; discriminate H.
  - vm_compute. reflexivity.
  - exists w, x. split; [exact Hw | split; [ | split; [exact Hx | split; [exact Hux | ]]]].
    + rewrite Hvw. vm_compute. reflexivity.
    + rewrite Hvx. vm_compute. reflexivity.
Defined.

(** ** Floor division and remainder *)

(** [Decimal._divide] on two decimals of the context: the quotient is an
    integer, the remainder is a decimal of the context at the smaller
    exponent and is below the divisor, and the two make up the dividend. *)
Lemma divide_exact (sa : bool) (ca : N) (ea : Z) (sb : bool) (cb : N) (eb : Z) :
  cb <> 0%N -> in_context (DFin sa ca ea) -> in_context (DFin sb cb eb) ->
  divide_ sa ca ea sb cb eb = Raise (DecimalException InvalidOperation) \/
  exists q r,
    divide_ sa ca ea sb cb eb
    = Ok (DFin (xorb sa sb) q 0, DFin sa r (Z.min ea eb)) /\
    (ca * pow10 (ea - Z.min ea eb)
     = q * (cb * pow10 (eb - Z.min ea eb)) + r)%N /\
    (r < cb * pow10 (eb - Z.min ea eb))%N /\
    in_context (DFin sa r (Z.min ea eb)) /\
    (ca = 0%N -> q = 0%N /\ r = 0%N).
Proof.
  intros Hcb [Hea Ha] [Heb Hb].
  destruct (N.eqb_spec cb 0%N) as [ | _]; [contradiction | ].
  destruct Hb as [Hndb Hadjb].
  unfold divide_, in_context, adjusted in *.
  set (m := Z.min ea eb).
  pose proof (pow10_pos (ea - m)) as Hpa. pose proof (pow10_pos (eb - m)) as Hpb.
  pose proof (ndigits_pos ca) as Hnda1. pose proof (ndigits_pos cb) as Hndb1.
  assert (Hxa : (ca * pow10 (ea - eb) = ca * pow10 (ea - m))%N).
  { destruct (Z.le_ge_cases eb ea); [now replace m with eb by lia | ].
    rewrite (pow10_nonpos (ea - eb)), (pow10_nonpos (ea - m)) by lia.
    reflexivity. }
  assert (Hxb : (cb * pow10 (eb - ea) = cb * pow10 (eb - m))%N).
  { destruct (Z.le_ge_cases ea eb); [now replace m with ea by lia | ].
    rewrite (pow10_nonpos (eb - ea)), (pow10_nonpos (eb - m)) by lia.
    reflexivity. }
  rewrite Hxa, Hxb. clear Hxa Hxb.
  set (xa := (ca * pow10 (ea - m))%N). set (xb := (cb * pow10 (eb - m))%N).
  assert (Hxb0 : xb <> 0%N) by (unfold xb; lia).
  assert (Hndxb : ndigits xb = (ndigits cb + (eb - m))%Z)
    by (apply ndigits_mul_pow10; [exact Hcb | lia]).
  assert (Hctx : forall r, (r <= xa)%N -> (r < xb)%N ->
            (Context.Etiny <= m)%Z /\
            (if (r =? 0)%N then (m <= Context.Emax)%Z
             else (ndigits r <= Context.prec)%Z /\
                  (m + ndigits r - 1 <= Context.Emax)%Z)).
  { intros r Hra Hrb. split; [lia | ].
    destruct (N.eqb_spec r 0%N) as [-> | Hr].
    - destruct (N.eqb_spec ca 0%N); lia.
    - assert (Hca : ca <> 0%N) by (intros ->; unfold xa in Hra; lia).
      destruct (N.eqb_spec ca 0%N); [contradiction | ].
      assert (Hndxa : ndigits xa = (ndigits ca + (ea - m))%Z)
        by (apply ndigits_mul_pow10; [exact Hca | lia]).
      pose proof (ndigits_mono r xa Hra) as H1.
      pose proof (ndigits_mono r xb ltac:(lia)) as H2.
      destruct (Z.le_ge_cases ea eb); lia. }
  destruct (N.eqb_spec ca 0%N) as [Hca | Hca]; simpl orb; cbv iota.
  { right. exists 0%N, xa.
    assert (Hxa0 : xa = 0%N) by (unfold xa; subst ca; apply N.mul_0_l).
    assert (Hlt : (xa < xb)%N) by lia.
    split; [reflexivity | split; [lia | split; [exact Hlt | split]]].
    - exact (Hctx xa (N.le_refl xa) Hlt).
    - intros _. now split. }
  assert (Hndxa : ndigits xa = (ndigits ca + (ea - m))%Z)
    by (apply ndigits_mul_pow10; [exact Hca | lia]).
  destruct (Z.leb_spec (ea + ndigits ca - 1 - (eb + ndigits cb - 1)) (-2))
    as [Hsmall | Hnot].
  { right. exists 0%N, xa.
    assert (Hlt : (xa < xb)%N).
    { pose proof (ndigits_upper xa) as Hup.
      pose proof (ndigits_lower xb Hxb0) as Hlo.
      assert (Hle : (pow10 (ndigits xa) <= pow10 (ndigits xb - 1))%N)
        by (apply pow10_le; lia).
      lia. }
    split; [reflexivity | split; [lia | split; [exact Hlt | split]]].
    - exact (Hctx xa (N.le_refl xa) Hlt).
    - intros H0. contradiction. }
  destruct (_ <=? Context.prec)%Z; [ | now left].
  destruct (N.div_eucl xa xb) as [q r] eqn:Hqr.
  assert (Hq : q = (xa / xb)%N) by (unfold N.div; now rewrite Hqr).
  assert (Hr : r = (xa mod xb)%N) by (unfold N.modulo; now rewrite Hqr).
  destruct (_ <? _)%N; [right | now left].
  pose proof (N.Div0.div_mod xa xb) as Hdm. rewrite <- Hq, <- Hr in Hdm.
  pose proof (N.mod_lt xa xb Hxb0) as Hlt. rewrite <- Hr in Hlt.
  pose proof (N.Div0.mod_le xa xb) as Hle. rewrite <- Hr in Hle.
  exists q, r. split; [reflexivity | split; [lia | split; [exact Hlt | split]]].
  - exact (Hctx r Hle Hlt).
  - intros H0. contradiction.
Qed.

(** [floor_divide] and [modulo] divide with remainder. For a magnitude
    [>= 0] of the context and a positive divisor that is read as a decimal
    [k] of the context: either the integer quotient needs more than the 50
    digits of the context, and both raise the decimal signal
    InvalidOperation, or [floor_divide] returns an integer [q] and [modulo]
    a remainder [r], both in the unit of the value, with
    [q * k + r] the magnitude and [0 <= r < k], nothing rounded. *)
Theorem floor_divide_modulo_identity :
  forall (v : StorageValue) (d : value) (k : Decimal),
    is_numeric d = true -> positive_value d -> to_decimal d = Ok k ->
    in_context k -> is_zero k = false ->
    nonneg (decimal_value v) -> in_context (decimal_value v) ->
    (floor_divide v d = Raise (DecimalException InvalidOperation) /\
     modulo v d = Raise (DecimalException InvalidOperation)) \/
    exists q r,
      floor_divide v d = Ok q /\ modulo v d = Ok r /\
      unit q = unit v /\ unit r = unit v /\
      (exists s n, decimal_value q = DFin s n 0) /\
      (dval (decimal_value q) * dval k + dval (decimal_value r)
       == dval (decimal_value v))%Q /\
      (0 <= dval (decimal_value r))%Q /\ (dval (decimal_value r) < dval k)%Q.
Proof.
  intros v d k Hnum Hpos Hk Hkctx Hzk Hnn Hctx.
  destruct k as [sk ck ek | | ]; try contradiction.
  assert (sk = false) as -> by exact (to_decimal_positive d sk ck ek Hpos Hk).
  assert (Hck : ck <> 0%N) by (simpl in Hzk; now apply N.eqb_neq).
  destruct (decimal_value v) as [s c e | | ] eqn:Hm; try contradiction.
  pose proof (value_le_zero_positive d Hpos) as Hle.
  assert (Hfloor : Decimal_floordiv (DFin s c e) (DFin false ck ek)
                   = (qr <-- divide_ s c e false ck ek ;; Ok (fst qr))).
  { unfold Decimal_floordiv. simpl check_nans. cbv iota.
    destruct (N.eqb_spec ck 0%N); [contradiction | reflexivity]. }
  assert (Hmod : Decimal_mod (DFin s c e) (DFin false ck ek)
                 = (qr <-- divide_ s c e false ck ek ;;
                    match snd qr with
                    | DFin s0 c0 e0 => fix_ s0 c0 e0
                    | d0 => Ok d0
                    end)).
  { unfold Decimal_mod. simpl check_nans. cbv iota.
    destruct (N.eqb_spec ck 0%N); [contradiction | reflexivity]. }
  destruct (divide_exact s c e false ck ek Hck Hctx Hkctx)
    as [Hdiv | (q & r & Hdiv & Heq & Hlt & Hrctx & Hz)];
    rewrite Hdiv in Hfloor, Hmod.
  { left. split.
    - apply (divide_with_raise Decimal_floordiv v d (DFin false ck ek));
        [exact Hnum | exact Hle | exact Hk | now rewrite Hm].
    - apply (divide_with_raise Decimal_mod v d (DFin false ck ek));
        [exact Hnum | exact Hle | exact Hk | now rewrite Hm]. }
  right. rewrite bind_Ok in Hfloor, Hmod. simpl fst in Hfloor. simpl snd in Hmod.
  cbv iota in Hmod.
  rewrite (fix_in_context_id _ _ _ Hrctx) in Hmod.
  rewrite Bool.xorb_false_r in Hfloor.
  assert (Hnq : nonneg (DFin s q 0)).
  { simpl in *. destruct Hnn as [Hs | Hc]; [now left | right; now apply Hz]. }
  assert (Hnr : nonneg (DFin s r (Z.min e ek))).
  { simpl in *. destruct Hnn as [Hs | Hc]; [now left | right; now apply Hz]. }
  exists (mkStorageValue (DFin s q 0) (unit v)),
         (mkStorageValue (DFin s r (Z.min e ek)) (unit v)).
  split; [ | split].
  { apply (divide_with_ok Decimal_floordiv v d (DFin false ck ek));
      [exact Hnum | exact Hle | exact Hk | now rewrite Hm | exact Hnq]. }
  { apply (divide_with_ok Decimal_mod v d (DFin false ck ek));
      [exact Hnum | exact Hle | exact Hk | now rewrite Hm | exact Hnr]. }
  simpl unit. simpl decimal_value.
  split; [reflexivity | split; [reflexivity | split; [eauto | ]]].
  rewrite (dval_magnitude _ _ _ Hnq), (dval_magnitude _ _ _ Hnr).
  rewrite (dval_magnitude s c e Hnn).
  rewrite (dval_magnitude false ck ek (or_introl eq_refl)).
  set (m := Z.min e ek) in *.
  pose proof (scale_value c e (e - m) ltac:(lia)) as Ha.
  pose proof (scale_value ck ek (ek - m) ltac:(lia)) as Hb.
  replace (e - (e - m))%Z with m in Ha by lia.
  replace (ek - (ek - m))%Z with m in Hb by lia.
  rewrite <- Ha, <- Hb, Heq.
  set (xb := (ck * pow10 (ek - m))%N) in *.
  assert (Hinj : (inject_Z (Z.of_N (q * xb + r))
                  == inject_Z (Z.of_N q) * inject_Z (Z.of_N xb)
                     + inject_Z (Z.of_N r))%Q)
    by (rewrite N2Z.inj_add, N2Z.inj_mul, inject_Z_plus, inject_Z_mult;
        reflexivity).
  assert (H0 : (Q10 0 == 1)%Q) by reflexivity.
  split; [ | split].
  - rewrite Hinj, H0. ring.
  - apply magnitude_nonneg.
  - rewrite Qmult_lt_r by apply Q10_pos. rewrite <- Zlt_Qlt. lia.
Qed.

Lemma floor_divide_modulo_identity_witness :
  floor_divide (mkStorageValue (Decimal_of_int 7) KB) (VInt 2)
  = Ok (mkStorageValue (Decimal_of_int 3) KB) /\
  modulo (mkStorageValue (Decimal_of_int 7) KB) (VInt 2)
  = Ok (mkStorageValue (Decimal_of_int 1) KB).
Proof.
  destruct (floor_divide_modulo_identity (mkStorageValue (Decimal_of_int 7) KB)
              (VInt 2) (Decimal_of_int 2))
    as [[Hq _] | (q & r & Hq & Hr & _)].
  - reflexivity.
  - reflexivity.
  - reflexivity.
  - vm_compute. repeat split; intros H; discriminate H.
  - reflexivity.
  - left. reflexivity.
  - vm_compute. repeat split; intros H; discriminate H.
  - vm_compute in Hq. discriminate Hq.
  - split; vm_compute; reflexivity.
Defined.

(** ** Trimming the decimal cache *)

Section DictKeys.
Context {V : Type}.
Implicit Types (d : dict V) (k : string) (v : V).

Lemma dict_get_None k d : k ∉ keys d -> dict_get k d = None.
Proof.
  induction d as [| [k' v'] r IH]; simpl; [reflexivity | ].
  intros Hk. apply not_elem_of_cons in Hk as [Hne Hk].
  destruct (String.eqb_spec k' k); [congruence | now apply IH].
Qed.

Lemma dict_get_Some k v d : NoDup (keys d) -> (k, v) ∈ d -> dict_get k d = Some v.
Proof.
  induction d as [| [k' v'] r IH]; simpl; intros Hnd Hin.
  - now apply elem_of_nil in Hin.
  - apply NoDup_cons in Hnd as [Hk' Hnd].
    apply elem_of_cons in Hin as [[= <- <-] | Hin].
    + now rewrite String.eqb_refl.
    + destruct (String.eqb_spec k' k) as [-> | _]; [ | now apply IH].
      exfalso. apply Hk'. unfold keys. apply list_elem_of_fmap.
      now exists (k, v).
Qed.

Lemma keys_dict_set k v d :
  keys (dict_set k v d)
  = match dict_get k d with
    | Some _ => keys d
    | None => (keys d ++ [k])%list
    end.
Proof.
  induction d as [| [k' v'] r IH]; simpl; [reflexivity | ].
  destruct (String.eqb k' k); simpl; [reflexivity | ].
  rewrite IH. now destruct (dict_get k r).
Qed.

Lemma dict_get_keys k d : dict_get k d = None -> k ∉ keys d.
Proof.
  induction d as [| [k' v'] r IH]; simpl; [intros _; apply not_elem_of_nil | ].
  destruct (String.eqb_spec k' k) as [ | Hne]; [discriminate | ].
  intros H. apply not_elem_of_cons. split; [congruence | now apply IH].
Qed.

Lemma dict_set_NoDup k v d : NoDup (keys d) -> NoDup (keys (dict_set k v d)).
Proof.
  intros Hnd. rewrite keys_dict_set.
  destruct (dict_get k d) eqn:Hg; [exact Hnd | ].
  apply NoDup_app. split; [exact Hnd | split; [ | apply NoDup_singleton]].
  intros x Hx Hk. apply list_elem_of_singleton in Hk. subst x.
  now apply dict_get_keys in Hg.
Qed.

Lemma keys_dict_del k d : keys (dict_del k d) `sublist_of` keys d.
Proof.
  induction d as [| [k' v'] r IH]; simpl; [constructor | ].
  destruct (String.eqb k' k); simpl.
  - apply sublist_cons, reflexivity.
  - now apply sublist_skip.
Qed.

Lemma dict_del_NoDup k d : NoDup (keys d) -> NoDup (keys (dict_del k d)).
Proof. intros H. eapply sublist_NoDup; [exact H | apply keys_dict_del]. Qed.

(** Putting the items of a dict back one by one gives the dict again. *)
Lemma dict_rebuild (items acc : dict V) :
  NoDup (keys (acc ++ items)%list) ->
  fold_left (fun d kv => dict_set (fst kv) (snd kv) d) items acc
  = (acc ++ items)%list.
Proof.
  revert acc. induction items as [| [k v] r IH]; intros acc Hnd; simpl.
  - now rewrite app_nil_r.
  - assert (Hk : dict_get k acc = None).
    { apply dict_get_None. unfold keys in *. rewrite fmap_app in Hnd.
      apply NoDup_app in Hnd as (_ & Hdis & _). intros Hin.
      apply (Hdis k Hin). simpl. apply list_elem_of_here. }
    rewrite (dict_set_fresh k v acc Hk), IH; [now rewrite <- app_assoc | ].
    now rewrite <- app_assoc.
Qed.
End DictKeys.

Lemma get_cached_decimal_NoDup (pm : PerformanceManager) (s : string) :
  NoDup (keys (decimal_cache pm)) ->
  NoDup (keys (decimal_cache (snd (get_cached_decimal pm s)))).
Proof.
  intros Hnd. unfold get_cached_decimal.
  destruct (dict_get s (decimal_cache pm)); [exact Hnd | ].
  destruct (Decimal_of_str s); [ | exact Hnd].
  destruct (_ <=? _)%Z; [ | now apply dict_set_NoDup].
  destruct (first_key (decimal_cache pm)); [ | exact Hnd].
  now apply dict_set_NoDup, dict_del_NoDup.
Qed.

Lemma run_cache_NoDup (ls : list string) (pm : PerformanceManager) :
  NoDup (keys (decimal_cache pm)) ->
  NoDup (keys (decimal_cache (run_cache pm ls))).
Proof.
  revert pm. induction ls as [| s ls IH]; intros pm Hnd; [exact Hnd | ].
  apply (IH (snd (get_cached_decimal pm s))). now apply get_cached_decimal_NoDup.
Qed.

(** An [int] is above a float that is not below zero exactly when it is
    above its integer part. *)
Lemma int_gt_float_floor (n : Z) (x : float) (a : Z) :
  float_floor x = Some a -> int_gt_float n x = (a <? n)%Z.
Proof.
  destruct x as [s | s | | s m e]; try discriminate.
  - intros [= <-]. reflexivity.
  - destruct s; [discriminate | ]. simpl.
    destruct (Z.leb_spec 0 e); intros [= <-]; [reflexivity | ].
    assert (Hp : (0 < 2 ^ (- e))%Z) by (apply Z.pow_pos_nonneg; lia).
    set (p := (2 ^ (- e))%Z) in *. clearbody p.
    pose proof (Z.div_mod (Z.pos m) p ltac:(lia)) as Hdm.
    pose proof (Z.mod_pos_bound (Z.pos m) p Hp) as Hmod.
    destruct (Z.ltb_spec (Z.pos m) (n * p)); destruct (Z.ltb_spec (Z.pos m / p) n);
      try reflexivity; nia.
Qed.

Lemma four_fifths_floor (n len : Z) : (4 * n / 5 <? len)%Z = (4 * n <? 5 * len)%Z.
Proof.
  pose proof (Z.div_mod (4 * n) 5 ltac:(lia)) as Hdm.
  pose proof (Z.mod_pos_bound (4 * n) 5 ltac:(lia)) as Hmod.
  destruct (Z.ltb_spec (4 * n / 5) len); destruct (Z.ltb_spec (4 * n) (5 * len));
    try reflexivity; lia.
Qed.

Lemma trims_at_range (n : Z) : (0 <= n <= 4096)%Z -> trims_at n = true.
Proof.
  intros Hn.
  assert (Hall : forallb trims_at (seqZ 0 4097) = true) by (vm_compute; reflexivity).
  rewrite forallb_forall in Hall. apply Hall.
  apply list_elem_of_In, elem_of_seqZ. lia.
Qed.

Lemma last_items_all {A : Type} (items : list A) : last_items 0 items = items.
Proof.
  unfold last_items. simpl. rewrite Z.min_l by lia. reflexivity.
Qed.

Lemma last_items_drop {A : Type} (k : Z) (items : list A) :
  exists n, last_items k items = drop n items.
Proof. unfold last_items. eauto. Qed.

(** [optimize_memory_usage] keeps the newest entries. On a cache with one
    entry per key, whatever the capacity: when the call returns, the
    capacity and the counters are as before and the cache is a final
    segment of the old one, the entries in their order and with their
    decimals. For a capacity [N] from 0 to 4096 the call does return; it
    trims exactly when the cache has more than four fifths of [N] entries,
    and then keeps the last [N // 2] of them, so a cache filled to between
    four fifths and all of a capacity of 2 or more comes out with [N // 2]
    entries. With a capacity of 0 or 1 nothing is removed: [N // 2] is 0,
    and the slice [[-0:]] is the whole list. *)
Theorem optimize_memory_usage_keeps_newest :
  forall pm : PerformanceManager,
    NoDup (keys (decimal_cache pm)) ->
    let N := max_cache_size pm in
    let cache := decimal_cache pm in
    let size := Z.of_nat (length cache) in
    (forall pm',
       optimize_memory_usage pm = inl pm' ->
       max_cache_size pm' = N /\ stats pm' = stats pm /\
       (exists n, decimal_cache pm' = drop n cache) /\
       NoDup (keys (decimal_cache pm')) /\
       (forall k d,
          dict_get k (decimal_cache pm') = Some d -> dict_get k cache = Some d)) /\
    ((0 <= N <= 4096)%Z ->
     optimize_memory_usage pm
     = inl (if (4 * N <? 5 * size)%Z
            then mkPerformanceManager N (last_items (N / 2) cache) (stats pm)
            else pm)) /\
    ((0 <= N <= 1)%Z -> optimize_memory_usage pm = inl pm) /\
    ((2 <= N <= 4096)%Z -> (4 * N < 5 * size)%Z -> (size <= N)%Z ->
     exists pm',
       optimize_memory_usage pm = inl pm' /\
       decimal_cache pm' = drop (Z.to_nat (size - N / 2)) cache /\
       Z.of_nat (length (decimal_cache pm')) = (N / 2)%Z).
Proof.
  intros pm Hnd N cache size.
  assert (Hsuffix : forall n, NoDup (keys (drop n cache))).
  { intros n. eapply sublist_NoDup; [exact Hnd | ].
    unfold keys. apply fmap_sublist, sublist_drop. }
  assert (Hrebuild : forall k,
            fold_left (fun d kv => dict_set (fst kv) (snd kv) d)
              (last_items k cache) []
            = last_items k cache).
  { intros k. destruct (last_items_drop k cache) as [n ->].
    apply (dict_rebuild (drop n cache) []). apply Hsuffix. }
  assert (Hrange : (0 <= N <= 4096)%Z ->
            optimize_memory_usage pm
            = inl (if (4 * N <? 5 * size)%Z
                   then mkPerformanceManager N (last_items (N / 2) cache) (stats pm)
                   else pm)).
  { intros HN. pose proof (trims_at_range N HN) as Ht.
    unfold trims_at in Ht. unfold optimize_memory_usage. fold N cache.
    destruct (int_times_float N four_fifths) as [x | ]; [ | discriminate].
    destruct (int_times_float N one_half) as [h | ]; [ | discriminate].
    destruct (float_floor x) as [a | ] eqn:Hx; [ | discriminate].
    destruct (int_of_float h) as [b | ]; [ | discriminate].
    apply andb_prop in Ht as [Ha Hb].
    apply Z.eqb_eq in Ha, Hb. subst a b.
    rewrite (int_gt_float_floor _ x _ Hx). fold size.
    rewrite four_fifths_floor.
    destruct (4 * N <? 5 * size)%Z; [ | reflexivity].
    now rewrite Hrebuild. }
  split; [ | split; [exact Hrange | split]].
  - intros pm'. unfold optimize_memory_usage. fold N cache.
    destruct (int_times_float N four_fifths) as [x | ]; [ | discriminate].
    destruct (int_gt_float _ x).
    + destruct (int_times_float N one_half) as [h | ]; [ | discriminate].
      destruct (int_of_float h) as [keep_count | ]; [ | discriminate].
      rewrite Hrebuild. intros [= <-]. simpl.
      destruct (last_items_drop keep_count cache) as [n Hn]. rewrite Hn.
      split; [reflexivity | split; [reflexivity | split; [eauto | split]]].
      * apply Hsuffix.
      * intros k d Hk. apply dict_get_Some; [exact Hnd | ].
        apply dict_get_elem_of in Hk.
        eapply elem_of_sublist; [exact Hk | apply sublist_drop].
    + intros [= <-]. fold cache.
      split; [reflexivity | split; [reflexivity | split; [ | split]]].
      * now exists 0%nat.
      * exact Hnd.
      * auto.
  - intros HN. rewrite Hrange by lia.
    replace (N / 2)%Z with 0%Z
      by (destruct (Z.eq_dec N 0) as [-> | ]; [reflexivity | ];
          replace N with 1%Z by lia; reflexivity).
    rewrite last_items_all. destruct pm. now destruct (_ <? _)%Z.
  - intros HN Htrim Hsize. rewrite Hrange by lia.
    destruct (Z.ltb_spec (4 * N) (5 * size)) as [_ | ]; [ | lia].
    eexists. split; [reflexivity | ]. simpl decimal_cache.
    assert (Hhalf : (1 <= N / 2 <= size)%Z).
    { pose proof (Z.div_mod N 2 ltac:(lia)).
      pose proof (Z.mod_pos_bound N 2 ltac:(lia)). lia. }
    unfold last_items. fold size.
    destruct (Z.ltb_spec 0 (N / 2)); [ | lia].
    rewrite Z.max_l by lia. split; [reflexivity | ].
    rewrite length_drop. fold cache. unfold size in *. lia.
Qed.

Lemma optimize_memory_usage_keeps_newest_witness :
  let pm := run_cache (PerformanceManager_init 4) ["1"; "2"; "3"; "4"] in
  exists pm',
    optimize_memory_usage pm = inl pm' /\
    keys (decimal_cache pm') = ["3"; "4"].
Proof.
  intros pm.
  destruct (optimize_memory_usage_keeps_newest pm) as (_ & _ & _ & Htrim).
  - apply run_cache_NoDup. apply NoDup_nil_2.
  - destruct Htrim as (pm' & Hopt & Hcache & _).
    + vm_compute. split; intros H; discriminate H.
    + vm_compute. reflexivity.
    + vm_compute. intros H; discriminate H.
    + exists pm'. split; [exact Hopt | ]. rewrite Hcache. vm_compute. reflexivity.
Defined.

(** ** Doubling *)

Lemma Decimal_add_twice (m : Decimal) :
  Decimal_add m m = Decimal_mul m (Decimal_of_int 2).
Proof.
  change (Decimal_of_int 2) with (DFin false 2 0).
  destruct m as [s c e | s | [ | ]]; try reflexivity.
  - unfold Decimal_add, Decimal_mul. simpl check_nans. cbv iota zeta.
    rewrite Z.min_id, Z.sub_diag, pow10_0, N.mul_1_r, Bool.andb_diag.
    rewrite Bool.xorb_false_r, Z.add_0_r.
    replace (c * 2)%N with (c + c)%N by lia.
    destruct (N.eqb_spec c 0%N) as [-> | Hc]; simpl andb; cbv iota;
      now destruct s.
  - unfold Decimal_add, Decimal_mul. simpl. now destruct s.
Qed.

(** Adding a value to itself and multiplying it by 2 are the same call:
    [add v v] and [multiply v 2] return the same value or raise the same
    exception, whatever the magnitude, and the rounding of the context
    with it. *)
Theorem add_self_is_multiply_by_two :
  forall (unit_value : StorageUnit -> Decimal) (v : StorageValue),
    add unit_value v v = multiply v (VInt 2).
Proof.
  intros unit_value v. unfold add, multiply.
  destruct (decide (unit v = unit v)) as [_ | Hne]; [ | contradiction].
  simpl. now rewrite Decimal_add_twice.
Qed.

(** ** Adding and taking away *)

(** A difference of two decimals [>= 0], the second not the larger, whose
    exact value is a decimal of the context. *)
Lemma Decimal_sub_dval (a b total : Decimal) :
  finite a -> nonneg a -> finite b -> nonneg b -> in_context total ->
  (dval b <= dval a)%Q -> (dval total == dval a - dval b)%Q ->
  exists s c e,
    Decimal_sub a b = Ok (DFin s c e) /\ nonneg (DFin s c e) /\
    (dval (DFin s c e) == dval a - dval b)%Q.
Proof.
  destruct a as [sa ca ea | | ]; try contradiction.
  destruct b as [sb cb eb | | ]; try contradiction.
  destruct total as [st c0 e0 | | ]; try contradiction.
  intros _ Hna _ Hnb Hctx Hle Hval.
  set (m := Z.min ea eb).
  set (xa := (ca * pow10 (ea - m))%N). set (xb := (cb * pow10 (eb - m))%N).
  pose proof (pow10_pos (ea - m)) as Hpa. pose proof (pow10_pos (eb - m)) as Hpb.
  assert (Hge : (xb <= xa)%N).
  { destruct (N.le_gt_cases xb xa) as [H | H]; [exact H | exfalso].
    apply aligned_lt in H.
    rewrite (dval_magnitude sa ca ea Hna), (dval_magnitude sb cb eb Hnb) in Hle.
    now apply Qle_not_lt in Hle. }
  assert (Hdiff : (dval (DFin sa ca ea) - dval (DFin sb cb eb)
                   == inject_Z (Z.of_N (xa - xb)) * Q10 m)%Q).
  { rewrite (dval_magnitude sa ca ea Hna), (dval_magnitude sb cb eb Hnb).
    pose proof (scale_value ca ea (ea - m) ltac:(lia)) as Ha.
    pose proof (scale_value cb eb (eb - m) ltac:(lia)) as Hb.
    replace (ea - (ea - m))%Z with m in Ha by lia.
    replace (eb - (eb - m))%Z with m in Hb by lia.
    rewrite <- Ha, <- Hb. fold xa xb.
    rewrite N2Z.inj_sub by exact Hge.
    replace (Z.of_N xa - Z.of_N xb)%Z with (Z.of_N xa + - Z.of_N xb)%Z by lia.
    rewrite inject_Z_plus, inject_Z_opp. ring. }
  rewrite Hdiff in Hval.
  apply dval_abs in Hval; [ | apply magnitude_nonneg].
  apply same_number_value, same_number_sym in Hval.
  assert (Hfix : forall (s : bool) (x : N),
            x = (xa - xb)%N -> s = false \/ x = 0%N ->
            exists s' c e',
              fix_ s x m = Ok (DFin s' c e') /\ nonneg (DFin s' c e') /\
              (dval (DFin s' c e')
               == dval (DFin sa ca ea) - dval (DFin sb cb eb))%Q).
  { intros s x -> Hs.
    destruct (fix_representable s (xa - xb) m c0 e0 Hval Hctx)
      as (c1 & e1 & Hf & Hsame).
    assert (Hn : nonneg (DFin s c1 e1)).
    { simpl. destruct Hs as [Hs | Hs]; [now left | right].
      rewrite Hs in Hval. apply same_number_sym, same_number_zero in Hval.
      subst c0. now apply same_number_zero in Hsame. }
    exists s, c1, e1. split; [exact Hf | split; [exact Hn | ]].
    rewrite Hdiff, (dval_magnitude _ _ _ Hn). apply same_number_value.
    eapply same_number_trans; [exact Hsame | now apply same_number_sym]. }
  unfold Decimal_sub, Decimal_add. simpl check_nans. cbv iota.
  simpl copy_negate. cbv iota zeta. fold m xa xb.
  simpl in Hna, Hnb.
  destruct (N.eqb_spec ca 0%N) as [Hca | Hca];
    destruct (N.eqb_spec cb 0%N) as [Hcb | Hcb]; simpl andb; cbv iota.
  - apply Hfix; [unfold xa, xb; subst ca cb; lia | right; reflexivity].
  - exfalso. unfold xa, xb in Hge. subst ca. lia.
  - assert (sa = false) as -> by (destruct Hna; congruence).
    assert (Hxb : xb = 0%N) by (unfold xb; subst cb; lia).
    assert (Hxa : xa <> 0%N) by (unfold xa; lia).
    rewrite Hxb in *.
    destruct sb; simpl negb; simpl eqb; cbv iota.
    + apply Hfix; [lia | now left].
    + destruct (N.eqb_spec xa 0%N); [contradiction | ].
      destruct (N.ltb_spec xa 0%N); [lia | ].
      apply Hfix; [lia | now left].
  - assert (sa = false) as -> by (destruct Hna; congruence).
    assert (sb = false) as -> by (destruct Hnb; congruence).
    simpl negb. simpl eqb. cbv iota.
    destruct (N.eqb_spec xa xb) as [Heq | Hneq].
    { apply Hfix; [lia | now left]. }
    destruct (N.ltb_spec xa xb); [lia | ].
    apply Hfix; [lia | now left].
Qed.

(** [subtract] takes back what [add] put on. For two values of one unit
    with magnitudes [>= 0] of the context: when their exact sum is a
    decimal of the context, [add] returns it, and subtracting the second
    value from it returns a value of the same unit that stands for the
    first magnitude, without NegativeResult. *)
Theorem add_subtract_round_trip :
  forall (unit_value : StorageUnit -> Decimal) (l r : StorageValue)
         (total : Decimal),
    unit l = unit r ->
    nonneg (decimal_value l) -> in_context (decimal_value l) ->
    nonneg (decimal_value r) -> in_context (decimal_value r) ->
    in_context total ->
    (dval total == dval (decimal_value l) + dval (decimal_value r))%Q ->
    exists s x,
      add unit_value l r = Ok s /\ unit s = unit l /\
      (dval (decimal_value s)
       == dval (decimal_value l) + dval (decimal_value r))%Q /\
      subtract unit_value s r = Ok x /\ unit x = unit l /\
      finite (decimal_value x) /\
      (dval (decimal_value x) == dval (decimal_value l))%Q.
Proof.
  intros unit_value l r total Hunit Hnl Hcl Hnr Hcr Hctx Hval.
  assert (Hfl : finite (decimal_value l))
    by (destruct (decimal_value l); [exact I | contradiction | contradiction]).
  assert (Hfr : finite (decimal_value r))
    by (destruct (decimal_value r); [exact I | contradiction | contradiction]).
  destruct (Decimal_add_dval _ _ total Hfl Hnl Hfr Hnr Hctx Hval)
    as (s & c & e & Hadd & Hns & Hvs).
  assert (Hlow : (0 <= dval (decimal_value l))%Q).
  { destruct (decimal_value l) as [sl cl el | | ]; try contradiction.
    rewrite (dval_magnitude _ _ _ Hnl). apply magnitude_nonneg. }
  assert (Hle : (dval (decimal_value r) <= dval (DFin s c e))%Q)
    by (rewrite Hvs; lra).
  assert (Hdiff : (dval (decimal_value l)
                   == dval (DFin s c e) - dval (decimal_value r))%Q)
    by (rewrite Hvs; ring).
  destruct (Decimal_sub_dval (DFin s c e) (decimal_value r) (decimal_value l)
              I Hns Hfr Hnr Hcl Hle Hdiff)
    as (s' & c' & e' & Hsub & Hnx & Hvx).
  exists (mkStorageValue (DFin s c e) (unit l)),
         (mkStorageValue (DFin s' c' e') (unit l)).
  split; [ | split; [reflexivity | split; [exact Hvs | ]]].
  { unfold add. destruct (decide (unit l = unit r)); [ | contradiction].
    rewrite Hadd, bind_Ok. now apply StorageValue_init_decimal_nonneg. }
  split; [ | split; [reflexivity | split; [exact I | ]]].
  { unfold subtract. simpl unit. simpl decimal_value.
    destruct (decide (unit l = unit r)); [ | contradiction].
    rewrite Hsub, bind_Ok, Decimal_lt_zero, bind_Ok.
    assert (Hneg : s' && negb (c' =? 0)%N = false).
    { simpl in Hnx. destruct Hnx as [-> | ->]; [reflexivity | ].
      apply Bool.andb_false_r. }
    rewrite Hneg. now apply StorageValue_init_decimal_nonneg. }
  simpl decimal_value. rewrite Hvx, Hvs. ring.
Qed.

Lemma add_subtract_round_trip_witness :
  exists s x,
    add spec_unit_value (mkStorageValue (DFin false 11 (-1)) GB)
      (mkStorageValue (DFin false 22 (-1)) GB) = Ok s /\
    subtract spec_unit_value s (mkStorageValue (DFin false 22 (-1)) GB) = Ok x /\
    unit x = GB /\ (dval (decimal_value x) == 11 # 10)%Q.
Proof.
  destruct (add_subtract_round_trip spec_unit_value
              (mkStorageValue (DFin false 11 (-1)) GB)
              (mkStorageValue (DFin false 22 (-1)) GB) (DFin false 33 (-1)))
    as (s & x & Hs & _ & _ & Hx & Hux & _ & Hvx).
  - reflexivity.
  - left. reflexivity.
  - vm_compute. repeat split; intros H; discriminate H.
  - left. reflexivity.
  - vm_compute. repeat split; intros H; discriminate H.
  - vm_compute. repeat split; intros H; discriminate H.
  - vm_compute. reflexivity.
  - exists s, x. split; [exact Hs | split; [exact Hx | split; [exact Hux | ]]].
    rewrite Hvx. vm_compute. reflexivity.
Defined.

(** ** Clearing the decimal cache *)

(** [clear_decimal_cache] starts the cache over and keeps the counters:
    the cache is empty, and on any run of calls the manager caches and
    answers as a new manager of the same capacity does. *)
Theorem clear_decimal_cache_starts_over :
  forall (pm : PerformanceManager) (literals : list string) (s : string),
    let cleared := clear_decimal_cache pm in
    let new := PerformanceManager_init (max_cache_size pm) in
    decimal_cache cleared = [] /\ stats cleared = stats pm /\
    max_cache_size cleared = max_cache_size pm /\
    decimal_cache (run_cache cleared literals)
    = decimal_cache (run_cache new literals) /\
    fst (get_cached_decimal (run_cache cleared literals) s)
    = fst (get_cached_decimal (run_cache new literals) s).
Proof.
  intros pm ls s cleared new.
  destruct (run_cache_ignores_stats ls new (stats pm)) as [Hc Hm].
  change (mkPerformanceManager (max_cache_size new) (decimal_cache new) (stats pm))
    with cleared in Hc, Hm.
  split; [reflexivity | split; [reflexivity | split; [reflexivity | ]]].
  split; [exact Hc | ].
  destruct (get_cached_decimal_ignores_stats (run_cache new ls)
              (stats (run_cache cleared ls)) s) as [Hr _].
  rewrite <- Hc, <- Hm in Hr. now destruct (run_cache cleared ls).
Qed.

(** ** The unit of a sum and of a difference *)

(** [is_same_type] tells the unit of a result beforehand: whatever [add]
    or [subtract] returns is in the unit of the operands when
    [is_same_type] holds, and in BYTES when it does not; and the test does
    not depend on the order of the two values. *)
Theorem is_same_type_decides_result_unit :
  forall (unit_value : StorageUnit -> Decimal) (l r x : StorageValue),
    is_same_type l r = is_same_type r l /\
    (add unit_value l r = Ok x \/ subtract unit_value l r = Ok x ->
     unit x = if is_same_type l r then unit l else BYTES).
Proof.
  intros unit_value l r x. unfold is_same_type. split.
  - destruct (decide (unit l = unit r)) as [Heq | Hne].
    + now rewrite !bool_decide_eq_true_2.
    + now rewrite !bool_decide_eq_false_2 by congruence.
  - unfold add, subtract.
    destruct (decide (unit l = unit r)) as [Heq | Hne].
    + rewrite bool_decide_eq_true_2 by exact Heq. intros [H | H].
      * bind_inv H. now apply StorageValue_init_decimal in H as [-> _].
      * do 2 bind_inv H. destruct a0; [discriminate | ].
        now apply StorageValue_init_decimal in H as [-> _].
    + rewrite bool_decide_eq_false_2 by exact Hne. intros [H | H].
      * do 3 bind_inv H. now apply StorageValue_init_decimal in H as [-> _].
      * do 4 bind_inv H. destruct a2; [discriminate | ].
        now apply StorageValue_init_decimal in H as [-> _].
Qed.

(** ** The byte count of an engine *)

(** [convert_to_bytes] and [convert_to] agree on the byte count. On an
    engine made for a magnitude [>= 0] of the context, whatever it has
    been through, with positive multipliers and 1 for BYTES: the decimal
    [convert_to_bytes] returns is the byte count of the value the engine
    was made for, and [convert_to] to BYTES returns a value in BYTES that
    stands for the same number. *)
Theorem convert_to_bytes_agrees :
  forall (unit_value : StorageUnit -> Decimal) (v : StorageValue)
         (eng : ConversionEngine) (b : Decimal),
    (forall u, positive_finite (unit_value u)) ->
    unit_value BYTES = Decimal_of_int 1 ->
    nonneg (decimal_value v) -> in_context (decimal_value v) ->
    engine_of unit_value v eng ->
    convert_to_bytes unit_value eng = Ok b ->
    to_bytes unit_value v = Ok b /\
    exists r,
      fst (convert_to unit_value eng BYTES) = Ok r /\ unit r = BYTES /\
      finite (decimal_value r) /\ (dval (decimal_value r) == dval b)%Q.
Proof.
  intros unit_value v eng b Hu Hone Hnn Hctx Heng Hb.
  destruct (engine_of_cache unit_value v eng Heng) as [Hsv _].
  unfold convert_to_bytes in Hb. rewrite Hsv in Hb.
  split; [exact Hb | ].
  assert (Hfin : finite (decimal_value v))
    by (destruct (decimal_value v); [exact I | contradiction | contradiction]).
  destruct (to_bytes_in_context unit_value v b (Hu _) Hfin Hnn Hb) as [Hbctx Hnb].
  assert (H1 : (dval (Decimal_of_int 1) == 1)%Q) by reflexivity.
  rewrite (convert_to_fst _ v eng BYTES Heng).
  destruct (decide (unit v = BYTES)) as [Heq | Hne].
  - exists v. split; [reflexivity | split; [exact Heq | split; [exact Hfin | ]]].
    unfold to_bytes in Hb. rewrite Heq, Hone in Hb.
    destruct (decimal_value v) as [s c e | | ]; try contradiction.
    unfold Decimal_mul in Hb. simpl in Hb.
    rewrite Bool.xorb_false_r, N.mul_1_r, Z.add_0_r in Hb.
    rewrite (fix_in_context_id _ _ _ Hctx) in Hb. now injection Hb as <-.
  - unfold converted. rewrite Hb, bind_Ok, Hone.
    destruct b as [sb cb eb | | ]; try contradiction.
    assert (Hpos1 : positive_finite (Decimal_of_int 1))
      by (exists 1%N, 0%Z; split; [reflexivity | discriminate]).
    assert (Hq : (dval (DFin sb cb eb) * dval (Decimal_of_int 1)
                  == dval (DFin sb cb eb))%Q) by (rewrite H1; ring).
    destruct (Decimal_truediv_dval sb cb eb _ (DFin sb cb eb) Hpos1 Hbctx Hq)
      as (c2 & e2 & -> & Hv2 & Hz2).
    rewrite bind_Ok.
    assert (Hn2 : nonneg (DFin sb c2 e2)).
    { simpl in *. destruct Hnb as [Hs | Hc]; [now left | right; auto]. }
    rewrite (StorageValue_init_decimal_nonneg _ _ Hn2).
    exists (mkStorageValue (DFin sb c2 e2) BYTES).
    simpl unit. simpl decimal_value.
    split; [reflexivity | split; [reflexivity | split; [exact I | ]]].
    rewrite <- Hv2, H1. ring.
Qed.

Lemma convert_to_bytes_agrees_witness :
  let v := mkStorageValue (DFin false 15 (-1)) KIB in
  exists r,
    fst (convert_to spec_unit_value (ConversionEngine_init v) BYTES) = Ok r /\
    (dval (decimal_value r) == 1536 # 1)%Q.
Proof.
  intros v.
  destruct (convert_to_bytes_agrees spec_unit_value v (ConversionEngine_init v)
              (DFin false 15360 (-1)) spec_unit_value_positive)
    as (_ & r & Hr & _ & _ & Hv).
  - reflexivity.
  - left. reflexivity.
  - vm_compute. repeat split; intros H; discriminate H.
  - apply engine_new.
  - vm_compute. reflexivity.
  - exists r. split; [exact Hr | ]. rewrite Hv. vm_compute. reflexivity.
Defined.

Lemma is_same_type_decides_result_unit_witness :
  match add spec_unit_value (mkStorageValue (Decimal_of_int 1) KIB)
          (mkStorageValue (Decimal_of_int 512) BYTES) with
  | Ok x => unit x = BYTES
  | Raise _ => False
  end.
Proof.
  destruct (add spec_unit_value (mkStorageValue (Decimal_of_int 1) KIB)
              (mkStorageValue (Decimal_of_int 512) BYTES)) as [x | e] eqn:Hx.
  - destruct (is_same_type_decides_result_unit spec_unit_value
                (mkStorageValue (Decimal_of_int 1) KIB)
                (mkStorageValue (Decimal_of_int 512) BYTES) x) as [_ Hunit].
    apply Hunit. left. exact Hx.
  - vm_compute in Hx. discriminate Hx.
Defined.
